(** * Ensto BT thermostat reader: a shallow embedding of
      [ensto-bt-thermostat-reader.js] and the properties of its protocol core.

    The program is a single Node script.  Its pure parts (advertisement
    filter, telemetry decoding, device-name decoding, pairing file name) are
    embedded as functions; its effectful part (the [discover] handler and
    [connect]) as a computation over an explicit world: the pairing files on
    disk and the trace of everything the process did (log lines, transport
    requests, file writes, timers), ending in a process exit code.

    Conventions.
    - A Node [Buffer] is a [list byte]; [buf[i]] is the list lookup
      [buf !! i], whose [None] is JavaScript's [undefined].
    - A JavaScript number is an IEEE 754 binary64 value: Rocq's primitive
      [float], which has one NaN.
    - A JavaScript string is kept as its UTF-8 bytes, a Rocq [string]
      (faithful for well-formed UTF-8).
    - What the BLE stack and the device answer is an input of the model,
      the [transport] record; the loop of [connect] is observed for a given
      number of iterations. *)

From Stdlib Require Import ZArith NArith String Ascii List Floats Lia.
From Stdlib.Strings Require Import Byte.
From Stdlib Require Import Decimal DecimalFacts DecimalString DecimalPos DecimalN.
From stdpp Require Import gmap strings list.
Import ListNotations.

Local Open Scope string_scope.
Local Open Scope Z_scope.

(** ** Buffers and JavaScript values *)

Module JS.

Abbreviation Buffer := (list byte).

(** The numeric value of a byte, as an integer and as a JavaScript number. *)
Definition byte_val (b : byte) : Z := Z.of_N (Byte.to_N b).

Definition byte_num (b : byte) : float :=
  PrimFloat.of_uint63 (Uint63.of_Z (byte_val b)).

(** [buf[i]] read as a number in an arithmetic expression: [ToNumber],
    with [ToNumber(undefined) = NaN]. *)
Definition ToNumber (x : option byte) : float :=
  match x with
  | Some b => byte_num b
  | None => nan
  end.

(** [buf[i] === n] for a numeric literal [n]; [undefined === n] is false. *)
Definition strict_eq (x : option byte) (n : Z) : bool :=
  match x with
  | Some b => byte_val b =? n
  | None => false
  end.

(** [buf.slice(start)] and [buf.slice(0, stop)] for non-negative bounds. *)
Definition slice_from (start : nat) (buf : Buffer) : Buffer := drop start buf.
Definition slice_to (stop : nat) (buf : Buffer) : Buffer := take stop buf.

(** [lo <= n <= hi] *)
Definition between (lo hi n : Z) : bool := (lo <=? n) && (n <=? hi).

(** How a byte starts a UTF-8 sequence: it is a character by itself, or
    the first of a longer sequence, with the number of bytes still to come
    and the range allowed for the next one, or it cannot start one. *)
Inductive utf8_first : Type :=
| Single
| Lead (needed : nat) (lower upper : Z)
| Invalid.

Definition utf8_start (b : byte) : utf8_first :=
  let n := byte_val b in
  if n <=? 0x7F then Single
  else if between 0xC2 0xDF n then Lead 1 0x80 0xBF
  else if between 0xE0 0xEF n then
    Lead 2 (if n =? 0xE0 then 0xA0 else 0x80) (if n =? 0xED then 0x9F else 0xBF)
  else if between 0xF0 0xF4 n then
    Lead 3 (if n =? 0xF0 then 0x90 else 0x80) (if n =? 0xF4 then 0x8F else 0xBF)
  else Invalid.

(** U+FFFD, the replacement character, in UTF-8. *)
Definition replacement : Buffer := [xef; xbf; xbd].

(** The UTF-8 decoder of [buf.toString()], a string being kept as the
    UTF-8 of its text: a well-formed sequence is copied, and every
    ill-formed part, up to the byte that cannot continue it, becomes one
    U+FFFD; the byte that ended it is read again as the start of a
    sequence.  [pending] holds the bytes of the sequence under way,
    [needed] counts the bytes it still lacks and [lower], [upper] bound the
    next one. *)
Fixpoint utf8_decode (pending : Buffer) (needed : nat) (lower upper : Z)
  (buf : Buffer) : Buffer :=
  match buf with
  | [] =>
      match needed with
      | O => []
      | S _ => replacement
      end
  | b :: rest =>
      let start :=
        match utf8_start b with
        | Single => b :: utf8_decode [] 0 0x80 0xBF rest
        | Lead n lo hi => utf8_decode [b] n lo hi rest
        | Invalid => (replacement ++ utf8_decode [] 0 0x80 0xBF rest)%list
        end in
      match needed with
      | O => start
      | S needed' =>
          if between lower upper (byte_val b) then
            match needed' with
            | O => (pending ++ b :: utf8_decode [] 0 0x80 0xBF rest)%list
            | S _ => utf8_decode (pending ++ [b])%list needed' 0x80 0xBF rest
            end
          else (replacement ++ start)%list
      end
  end.

(** [buf.toString()]: the bytes decoded as UTF-8 text. *)
Definition toString (buf : Buffer) : string :=
  string_of_list_byte (utf8_decode [] 0 0x80 0xBF buf).

(** [String(x)] for a string that may be [undefined]. *)
Definition String_of (x : option string) : string :=
  match x with
  | Some s => s
  | None => "undefined"
  end.

(** [s.replace(/\x00/g, "")]: every NUL character removed. *)
Fixpoint replace_nul (s : string) : string :=
  match s with
  | EmptyString => EmptyString
  | String c r =>
      if Ascii.eqb c "000"%char then replace_nul r
      else String c (replace_nul r)
  end.

(** [s.replace(/:/g, "")]: every colon removed. *)
Fixpoint replace_colon (s : string) : string :=
  match s with
  | EmptyString => EmptyString
  | String c r =>
      if Ascii.eqb c ":"%char then replace_colon r
      else String c (replace_colon r)
  end.

(** [/^ECO16BT /.test(x)]: the argument is converted to a string first. *)
Definition test_ECO16BT (x : option string) : bool :=
  String.prefix "ECO16BT " (String_of x).

End JS.

(** ** Telemetry: the stats packet and the device name *)

Module Telemetry.
Import JS.

(** The object printed on stdout for one stats packet. *)
Record reading : Type := Reading {
  address : string;
  deviceName : string;
  relayIsOn : bool;
  roomTemperature : float;
  targetTemperature : float;
  timestamp : Z
}.

(** [(256 * stats[hi] + stats[lo]) / 10] *)
Definition temperature (stats : Buffer) (hi lo : nat) : float :=
  ((256 * ToNumber (stats !! hi) + ToNumber (stats !! lo)) / 10)%float.

(** The body of [if (stats[0] === 0x80) { ... }] in [connect]'s loop:
    [Some] the object handed to [console.log], or [None] when the guard
    fails and nothing is printed.  There is no other exit: nothing in the
    body throws. *)
Definition decodeStats (addr name : string) (now : Z) (stats : Buffer)
  : option reading :=
  if strict_eq (stats !! 0%nat) 0x80 then
    let targetTemperature := temperature stats 2 1 in
    let roomTemperature := temperature stats 5 4 in
    let relayIsOn := strict_eq (stats !! 8%nat) 1 in
    Some {| address := addr;
            deviceName := name;
            relayIsOn := relayIsOn;
            roomTemperature := roomTemperature;
            targetTemperature := targetTemperature;
            timestamp := now |}
  else None.

(** [(await dnameChar.readAsync()).slice(1).toString().replace(/\x00/g, "")] *)
Definition decodeName (raw : Buffer) : string :=
  replace_nul (toString (slice_from 1 raw)).

End Telemetry.

(** ** Advertisements *)

Module Advertisement.
Import JS.

(** [peripheral.address] and [peripheral.advertisement]; noble leaves
    [localName] and [manufacturerData] [undefined] when the advertisement
    carries none. *)
Record advertisement : Type := Adv {
  address : string;
  localName : option string;
  manufacturerData : option Buffer
}.

(** The guard [if (!/^ECO16BT /.test(localName)) return;] negated. *)
Definition accept (ad : advertisement) : bool :=
  test_ECO16BT (localName ad).

(** [manufacturerData[10] === 49]; reading a property of [undefined]
    throws a TypeError, here [None]. *)
Definition pairing (ad : advertisement) : option bool :=
  match manufacturerData ad with
  | Some md => Some (strict_eq (md !! 10%nat) 49)
  | None => None
  end.

End Advertisement.

(** ** JSON values, [JSON.stringify] and [JSON.parse]

    [JSON.stringify] and [JSON.parse] are Node's; they are modelled on the
    fragment of JSON the pairing file lives in: literals, integers, strings
    without escape sequences, arrays and objects, with optional white space.
    A text outside the fragment (a fraction, an exponent, an escape) is
    rejected like a syntax error. *)

Module JSON.

#[local] Set Warnings "-register-all".

Inductive json : Type :=
| JNull
| JBool (b : bool)
| JNum (n : Z)
| JStr (s : string)
| JArr (elements : list json)
| JObj (members : list (string * json)).

Definition dquote : ascii := "034"%char.
Definition backslash : ascii := "092"%char.

Definition quote (s : string) : string :=
  String dquote (s ++ String dquote EmptyString).

Definition string_of_Z (n : Z) : string :=
  NilEmpty.string_of_int (Z.to_int n).

(** [JSON.stringify(v)], without indentation.  Integers are printed in
    plain decimal and strings between quotes as they are, which is what
    Node prints for integers below 10^21 and for strings with nothing to
    escape; the program only prints arrays of byte values. *)
Fixpoint JSON_stringify (v : json) : string :=
  match v with
  | JNull => "null"
  | JBool true => "true"
  | JBool false => "false"
  | JNum n => string_of_Z n
  | JStr s => quote s
  | JArr elements =>
      "[" ++
      (fix elems (l : list json) : string :=
         match l with
         | [] => ""
         | x :: r =>
             JSON_stringify x ++
             match r with [] => "" | _ :: _ => "," ++ elems r end
         end) elements ++ "]"
  | JObj members =>
      "{" ++
      (fix membs (l : list (string * json)) : string :=
         match l with
         | [] => ""
         | (k, x) :: r =>
             quote k ++ ":" ++ JSON_stringify x ++
             match r with [] => "" | _ :: _ => "," ++ membs r end
         end) members ++ "}"
  end.

Definition is_ws (c : ascii) : bool :=
  Ascii.eqb c " " || Ascii.eqb c "009" || Ascii.eqb c "010" || Ascii.eqb c "013".

Fixpoint skip_ws (s : string) : string :=
  match s with
  | EmptyString => EmptyString
  | String c r => if is_ws c then skip_ws r else s
  end.

Fixpoint strip_prefix (p s : string) : option string :=
  match p, s with
  | EmptyString, _ => Some s
  | String a p', String b s' => if Ascii.eqb a b then strip_prefix p' s' else None
  | String _ _, EmptyString => None
  end.

Definition digit (c : ascii) : option (uint -> uint) :=
  if Ascii.eqb c "0" then Some D0 else
  if Ascii.eqb c "1" then Some D1 else
  if Ascii.eqb c "2" then Some D2 else
  if Ascii.eqb c "3" then Some D3 else
  if Ascii.eqb c "4" then Some D4 else
  if Ascii.eqb c "5" then Some D5 else
  if Ascii.eqb c "6" then Some D6 else
  if Ascii.eqb c "7" then Some D7 else
  if Ascii.eqb c "8" then Some D8 else
  if Ascii.eqb c "9" then Some D9 else None.

(** The longest prefix of decimal digits, and what follows it. *)
Fixpoint lex_digits (s : string) : uint * string :=
  match s with
  | EmptyString => (Nil, EmptyString)
  | String c r =>
      match digit c with
      | Some d => let (u, rest) := lex_digits r in (d u, rest)
      | None => (Nil, s)
      end
  end.

(** A JSON integer: [0], or a non-zero digit followed by digits. *)
Definition lex_nat (s : string) : option (N * string) :=
  match lex_digits s with
  | (Nil, _) => None
  | (D0 Nil, rest) => Some (0%N, rest)
  | (D0 _, _) => None
  | (u, rest) => Some (N.of_uint u, rest)
  end.

Definition lex_int (s : string) : option (Z * string) :=
  match s with
  | String c r =>
      if Ascii.eqb c "-" then
        match lex_nat r with
        | Some (n, rest) => Some (- Z.of_N n, rest)
        | None => None
        end
      else
        match lex_nat s with
        | Some (n, rest) => Some (Z.of_N n, rest)
        | None => None
        end
  | EmptyString => None
  end.

(** A control character, below U+0020: the three high bits are clear. *)
Definition is_control (c : ascii) : bool :=
  match c with
  | Ascii _ _ _ _ _ b5 b6 b7 => negb (b5 || b6 || b7)
  end.

(** The characters of a string literal after its opening quote, up to the
    closing quote; escapes and control characters are not accepted. *)
Fixpoint lex_string (s : string) : option (string * string) :=
  match s with
  | EmptyString => None
  | String c r =>
      if Ascii.eqb c dquote then Some (EmptyString, r)
      else if Ascii.eqb c backslash then None
      else if is_control c then None
      else
        match lex_string r with
        | Some (t, rest) => Some (String c t, rest)
        | None => None
        end
  end.

Fixpoint parse_value (fuel : nat) (s : string) {struct fuel}
  : option (json * string) :=
  match fuel with
  | O => None
  | S fuel' =>
      match skip_ws s with
      | EmptyString => None
      | String c r =>
          if Ascii.eqb c "n" then option_map (pair JNull) (strip_prefix "ull" r)
          else if Ascii.eqb c "t" then
            option_map (pair (JBool true)) (strip_prefix "rue" r)
          else if Ascii.eqb c "f" then
            option_map (pair (JBool false)) (strip_prefix "alse" r)
          else if Ascii.eqb c dquote then
            match lex_string r with
            | Some (t, rest) => Some (JStr t, rest)
            | None => None
            end
          else if Ascii.eqb c "[" then
            match skip_ws r with
            | EmptyString => None
            | String c' r' =>
                if Ascii.eqb c' "]" then Some (JArr [], r')
                else
                  match parse_elements fuel' r with
                  | Some (vs, rest) => Some (JArr vs, rest)
                  | None => None
                  end
            end
          else if Ascii.eqb c "{" then
            match skip_ws r with
            | EmptyString => None
            | String c' r' =>
                if Ascii.eqb c' "}" then Some (JObj [], r')
                else
                  match parse_members fuel' r with
                  | Some (kvs, rest) => Some (JObj kvs, rest)
                  | None => None
                  end
            end
          else
            match lex_int (String c r) with
            | Some (n, rest) => Some (JNum n, rest)
            | None => None
            end
      end
  end
with parse_elements (fuel : nat) (s : string) {struct fuel}
  : option (list json * string) :=
  match fuel with
  | O => None
  | S fuel' =>
      match parse_value fuel' s with
      | None => None
      | Some (v, rest) =>
          match skip_ws rest with
          | EmptyString => None
          | String c r =>
              if Ascii.eqb c "," then
                match parse_elements fuel' r with
                | Some (vs, rest') => Some (v :: vs, rest')
                | None => None
                end
              else if Ascii.eqb c "]" then Some ([v], r)
              else None
          end
      end
  end
with parse_members (fuel : nat) (s : string) {struct fuel}
  : option (list (string * json) * string) :=
  match fuel with
  | O => None
  | S fuel' =>
      match skip_ws s with
      | EmptyString => None
      | String c r =>
          if negb (Ascii.eqb c dquote) then None
          else
            match lex_string r with
            | None => None
            | Some (k, rest) =>
                match skip_ws rest with
                | EmptyString => None
                | String c1 r1 =>
                    if negb (Ascii.eqb c1 ":") then None
                    else
                      match parse_value fuel' r1 with
                      | None => None
                      | Some (v, rest1) =>
                          match skip_ws rest1 with
                          | EmptyString => None
                          | String c2 r2 =>
                              if Ascii.eqb c2 "," then
                                match parse_members fuel' r2 with
                                | Some (kvs, rest') => Some ((k, v) :: kvs, rest')
                                | None => None
                                end
                              else if Ascii.eqb c2 "}" then Some ([(k, v)], r2)
                              else None
                          end
                      end
                end
            end
      end
  end.

(** [JSON.parse(text)] on the texts the program writes and on every text
    without a backslash escape and without a number that has a fraction or
    an exponent: there [None] is the SyntaxError.  A text with one of these
    is refused here although Node may accept it, so [None] is read as a
    SyntaxError only on a text without them.  Every step of the parser
    consumes a character, so the length of the text is fuel enough. *)
Definition JSON_parse (text : string) : option json :=
  match parse_value (S (String.length text)) text with
  | Some (v, rest) =>
      match skip_ws rest with
      | EmptyString => Some v
      | String _ _ => None
      end
  | None => None
  end.

(** [v.key] on a parsed value that is not [null]: own properties of an
    object, the last binding of a repeated key winning; [undefined]
    ([None]) otherwise. *)
Fixpoint lookup_member (key : string) (members : list (string * json))
  : option json :=
  match members with
  | [] => None
  | (k, x) :: r =>
      match lookup_member key r with
      | Some y => Some y
      | None => if String.eqb k key then Some x else None
      end
  end.

(** The array [[...buf]] of a buffer's bytes. *)
Definition array_of_buffer (buf : JS.Buffer) : json :=
  JArr (map (fun b => JNum (JS.byte_val b)) buf).

End JSON.

(** ** The Node process: world, trace and control flow *)

Module Node.
Import JS JSON.

Inductive mode : Type := SCAN | READ.

(** The module-level variables set from the command line. *)
Record config : Type := Config {
  cfg_mode : mode;
  targetDeviceAddress : string;
  verbosity : Z;
  keepReading : bool
}.

(** What [log] is called with; the wording of each line is the source's. *)
Inductive message : Type :=
| MsgFound (address : string) (localName : option string) (pairing : bool)
| MsgFoundTarget
| MsgDisconnected
| MsgConnecting
| MsgDiscovering
| MsgCharacteristics (uuids : list string)
| MsgPairing
| MsgReceivedResetCode (msg : Buffer)
| MsgPairingSuccessful
| MsgPairingInfoNotFound (address : string)
| MsgAuthenticating (resetCode : option json)
| MsgReceivedStats (stats : Buffer)
| MsgWaiting
| MsgReading (filename : string)
| MsgWriting (data filename : string).

Inductive error : Type :=
| TypeError
| SyntaxError
| ENOENT
| TransportError.

(** Everything the process does that can be seen from outside. *)
Inductive event : Type :=
| Warn (m : message)
| ConsoleError (e : error)
| ConsoleLog (r : Telemetry.reading)
| StopScanning
| Connect
| DiscoverAll
| CharRead (uuid : string)
| CharWrite (uuid : string) (data : Buffer) (withoutResponse : bool)
| ReadFile (filename : string)
| WriteFile (filename data : string)
| SetTimeout (ms : Z).

(** The files of the working directory and the trace so far. *)
Record world : Type := World {
  files : gmap string string;
  trace : list event
}.

(** How a piece of the program ends: it returns, an exception propagates,
    the process exits, or it is still running when the observation stops. *)
Inductive result (A : Type) : Type :=
| Return (a : A)
| Throw (e : error)
| Exit (code : Z)
| Running.

Arguments Return {A} a.
Arguments Throw {A} e.
Arguments Exit {A} code.
Arguments Running {A}.

Definition M (A : Type) : Type := world -> result A * world.

Definition ret {A} (a : A) : M A := fun w => (Return a, w).

Definition bind {A B} (m : M A) (k : A -> M B) : M B :=
  fun w =>
    match m w with
    | (Return a, w') => k a w'
    | (Throw e, w') => (Throw e, w')
    | (Exit code, w') => (Exit code, w')
    | (Running, w') => (Running, w')
    end.

#[export] Instance M_ret : MRet M := @ret.
#[export] Instance M_bind : MBind M := fun A B k m => bind m k.

Definition throw {A} (e : error) : M A := fun w => (Throw e, w).

(** [process.exit(code)] *)
Definition exit {A} (code : Z) : M A := fun w => (Exit code, w).

Definition running {A} : M A := fun w => (Running, w).

Definition emit (e : event) : M unit :=
  fun w => (Return tt, {| files := files w; trace := trace w ++ [e] |}).

(** [try { m } catch (e) { handler }] *)
Definition try_catch {A} (m : M A) (handler : error -> M A) : M A :=
  fun w =>
    match m w with
    | (Throw e, w') => handler e w'
    | r => r
    end.

(** [log(level, ...msg)]: [if (level <= verbosity) console.warn(...msg)] *)
Definition log (cfg : config) (level : Z) (msg : message) : M unit :=
  if level <=? verbosity cfg then emit (Warn msg) else ret tt.

(** [dieOnError], the handler of unhandled rejections and exceptions. *)
Definition dieOnError {A} (e : error) : M A :=
  emit (ConsoleError e);; exit 1.

(** [fs.readFileSync(filename)] and [fs.writeFileSync(filename, data)]: a
    missing file is the one failure modelled, a write always succeeds. *)
Definition readFileSync (filename : string) : M string :=
  fun w =>
    let w' := {| files := files w; trace := trace w ++ [ReadFile filename] |} in
    match files w !! filename with
    | Some data => (Return data, w')
    | None => (Throw ENOENT, w')
    end.

Definition writeFileSync (filename data : string) : M unit :=
  fun w =>
    (Return tt,
     {| files := <[filename := data]> (files w);
        trace := trace w ++ [WriteFile filename data] |}).

(** [/^[0-9a-f]{2}:...:[0-9a-f]{2}$/i], the test on the argument of [--read]. *)
Definition is_hex (c : ascii) : bool :=
  let n := N_of_ascii c in
  ((48 <=? n) && (n <=? 57) || (97 <=? n) && (n <=? 102)
   || (65 <=? n) && (n <=? 70))%N.

Fixpoint hex_pairs (n : nat) (s : string) : bool :=
  match s with
  | String a (String b r) =>
      is_hex a && is_hex b &&
      match n, r with
      | O, EmptyString => true
      | S n', String c r' => Ascii.eqb c ":" && hex_pairs n' r'
      | _, _ => false
      end
  | _ => false
  end.

Definition address_regex (s : string) : bool := hex_pairs 5 s.

End Node.

(** ** The pairing store: one JSON file per device *)

Module PairingStore.
Import JS JSON Node.

Definition pairingFilename (deviceAddress : string) : string :=
  "pairing-" ++ replace_colon deviceAddress ++ ".json".

(** NB: throws if the file is not found *)
Definition readPairingInfo (cfg : config) (deviceAddress : string) : M json :=
  let filename := pairingFilename deviceAddress in
  log cfg 2 (MsgReading filename);;
  text ← readFileSync filename;
  match JSON_parse text with
  | Some v => mret v
  | None => throw SyntaxError
  end.

Definition writePairingInfo (cfg : config) (deviceAddress : string)
  (resetCode : json) : M unit :=
  let filename := pairingFilename deviceAddress in
  let data := JSON_stringify (JObj [("resetCode", resetCode)]) in
  log cfg 2 (MsgWriting data filename);;
  writeFileSync filename data.

(** [v.resetCode]: a TypeError on [null], the member of an object,
    [undefined] on any other value. *)
Definition get_resetCode (v : json) : M (option json) :=
  match v with
  | JNull => throw TypeError
  | JObj members => mret (lookup_member "resetCode" members)
  | _ => mret None
  end.

End PairingStore.

(** ** The session: the [discover] handler and [connect] *)

Module Session.
Import JS JSON Node PairingStore.

Definition RESET_CHAR_UUID : string := "f366dddbebe243ee83c0472ded74c8fa".
Definition STATS_CHAR_UUID : string := "66ad3e6b31354adabb2b8b22916b21d4".
Definition DNAME_CHAR_UUID : string := "2a00".

(** How an awaited transport call ends: the promise resolves, it rejects, or
    the peripheral's [disconnect] event arrives first. *)
Inductive reply (A : Type) : Type :=
| Resolved (a : A)
| Rejected
| Disconnected.

Arguments Resolved {A} a.
Arguments Rejected {A}.
Arguments Disconnected {A}.

(** The BLE stack and the device behind one peripheral, as the answers they
    give; [statsChar_readAsync i] answers the read of loop iteration [i],
    [Date_now i] is the clock there, and [wait_disconnected i] tells whether
    the device drops the link during the pause that follows it. *)
Record transport : Type := Transport {
  stopScanningAsync : bool;
  connectAsync : reply unit;
  discoverAllServicesAndCharacteristicsAsync : reply (list string);
  resetChar_readAsync : reply Buffer;
  resetChar_writeAsync : Buffer -> bool -> reply unit;
  dnameChar_readAsync : reply Buffer;
  statsChar_readAsync : nat -> reply Buffer;
  Date_now : nat -> Z;
  wait_disconnected : nat -> bool
}.

Record peripheral : Type := Peripheral {
  advertisement : Advertisement.advertisement;
  gatt : transport
}.

(** The listener installed by [peripheral.once("disconnect", ...)]. *)
Definition on_disconnect {A} (cfg : config) : M A :=
  log cfg 0 MsgDisconnected;; exit 1.

Definition await {A} (cfg : config) (request : event) (r : reply A) : M A :=
  emit request;;
  match r with
  | Resolved a => mret a
  | Rejected => throw TransportError
  | Disconnected => on_disconnect cfg
  end.

(** [characteristics.find((c) => c.uuid === uuid)], as found or not. *)
Definition find (characteristics : list string) (uuid : string) : bool :=
  existsb (String.eqb uuid) characteristics.

(** A method call on a characteristic that may be [undefined]. *)
Definition on_char {A} (found : bool) (call : M A) : M A :=
  if found then call else throw TypeError.

(** ToUint8 of an integer. *)
Definition uint8 (n : Z) : byte :=
  default x00 (Byte.of_N (Z.to_N (n mod 256))).

Definition safe_integer (v : json) : option Z :=
  match v with
  | JNum n => if Z.abs n <=? 2 ^ 53 then Some n else None
  | _ => None
  end.

Section Connect.

(** [Buffer.from] on the values the program itself never produces: strings,
    objects, and arrays with an element that is not a safe integer.  Node
    coerces some and throws ([None]) on others. *)
Variable Buffer_from_other : json -> option Buffer.

(** [Buffer.from(x)]: a TypeError on [undefined], [null], booleans and
    numbers; the elements modulo 256 on an array of integers. *)
Definition Buffer_from (x : option json) : M Buffer :=
  match x with
  | None | Some JNull | Some (JBool _) | Some (JNum _) => throw TypeError
  | Some (JArr elements) =>
      match mapM safe_integer elements with
      | Some ns => mret (map uint8 ns)
      | None =>
          match Buffer_from_other (JArr elements) with
          | Some buf => mret buf
          | None => throw TypeError
          end
      end
  | Some v =>
      match Buffer_from_other v with
      | Some buf => mret buf
      | None => throw TypeError
      end
  end.

Variable cfg : config.
Variable per : peripheral.

Let address : string := Advertisement.address (advertisement per).
Let dev : transport := gatt per.

(** The [do { ... } while (keepReading)] loop of [connect]; [i] counts the
    iterations done, [fuel] bounds the iterations observed. *)
Fixpoint poll (statsChar : bool) (deviceName : string) (fuel i : nat)
  : M unit :=
  match fuel with
  | O => running
  | S fuel' =>
      stats ← on_char statsChar
                (await cfg (CharRead STATS_CHAR_UUID) (statsChar_readAsync dev i));
      log cfg 2 (MsgReceivedStats stats);;
      match Telemetry.decodeStats address deviceName (Date_now dev i) stats with
      | Some r => emit (ConsoleLog r)
      | None => mret tt
      end;;
      if keepReading cfg then
        log cfg 2 MsgWaiting;;
        emit (SetTimeout 500);;
        (if wait_disconnected dev i then on_disconnect cfg else mret tt);;
        poll statsChar deviceName fuel' (S i)
      else mret tt
  end.

Definition connect (pairing : bool) (fuel : nat) : M unit :=
  log cfg 1 MsgConnecting;;
  await cfg Connect (connectAsync dev);;
  log cfg 2 MsgDiscovering;;
  characteristics ← await cfg DiscoverAll
                      (discoverAllServicesAndCharacteristicsAsync dev);
  let resetChar := find characteristics RESET_CHAR_UUID in
  let statsChar := find characteristics STATS_CHAR_UUID in
  let dnameChar := find characteristics DNAME_CHAR_UUID in
  log cfg 3 (MsgCharacteristics characteristics);;
  resetCode ←
    (if pairing then
       log cfg 0 MsgPairing;;
       resetCharMsgFromDevice ←
         on_char resetChar
           (await cfg (CharRead RESET_CHAR_UUID) (resetChar_readAsync dev));
       log cfg 1 (MsgReceivedResetCode resetCharMsgFromDevice);;
       let resetCode := array_of_buffer (slice_to 4 resetCharMsgFromDevice) in
       writePairingInfo cfg address resetCode;;
       log cfg 0 MsgPairingSuccessful;;
       mret (Some resetCode)
     else
       try_catch
         (v ← readPairingInfo cfg address; get_resetCode v)
         (fun _ => log cfg 1 (MsgPairingInfoNotFound address);; exit 1));
  log cfg 1 (MsgAuthenticating resetCode);;
  on_char resetChar
    (buf ← Buffer_from resetCode;
     await cfg (CharWrite RESET_CHAR_UUID buf false)
       (resetChar_writeAsync dev buf false));;
  raw ← on_char dnameChar
          (await cfg (CharRead DNAME_CHAR_UUID) (dnameChar_readAsync dev));
  let deviceName := Telemetry.decodeName raw in
  poll statsChar deviceName fuel 0;;
  exit 0.

(** The body of [noble.on("discover", async (peripheral) => { ... })]. *)
Definition on_discover (fuel : nat) : M unit :=
  let ad := advertisement per in
  if negb (Advertisement.accept ad) then mret tt
  else
    match Advertisement.pairing ad with
    | None => throw TypeError
    | Some pairing =>
        match cfg_mode cfg with
        | SCAN =>
            log cfg 0
              (MsgFound address (Advertisement.localName ad) pairing)
        | READ =>
            if String.eqb address (targetDeviceAddress cfg) then
              log cfg 1 MsgFoundTarget;;
              emit StopScanning;;
              (if stopScanningAsync dev then mret tt
               else throw TransportError);;
              connect pairing fuel
            else mret tt
        end
    end.

(** One [discover] event: the handler is an async function, so what it
    throws becomes an unhandled rejection, which [dieOnError] handles. *)
Definition discover (fuel : nat) : M unit :=
  try_catch (on_discover fuel) (fun e => dieOnError e).

End Connect.

(** The start of a run: the files on disk and an empty trace. *)
Definition start (fs : gmap string string) : world :=
  {| files := fs; trace := [] |}.

(** The readings printed on stdout, in order. *)
Definition readings (t : list event) : list Telemetry.reading :=
  omap (fun e => match e with ConsoleLog r => Some r | _ => None end) t.

Definition is_file_write (e : event) : bool :=
  match e with WriteFile _ _ => true | _ => false end.

Definition is_stats_read (e : event) : bool :=
  match e with CharRead uuid => String.eqb uuid STATS_CHAR_UUID | _ => false end.

End Session.


(** ** Auxiliary definitions for the statements *)

(** What [log] adds to the trace. *)
Definition logged (cfg : Node.config) (level : Z) (msg : Node.message)
  : list Node.event :=
  if level <=? Node.verbosity cfg then [Node.Warn msg] else [].

(** The world after more events, the files untouched. *)
Definition extend (w : Node.world) (t : list Node.event) : Node.world :=
  {| Node.files := Node.files w; Node.trace := Node.trace w ++ t |}.

(** The 256 bytes. *)
Definition all_bytes : list byte :=
  map (fun n => default x00 (Byte.of_N (N.of_nat n))) (seq 0 256).

(** Concrete sessions: a thermostat at [90:fd:9f:12:34:56] named "Liv". *)
Module Sample.
Import JS JSON Node Session.

Definition no_other : json -> option Buffer := fun _ => None.

Definition addr : string := "90:fd:9f:12:34:56".

Definition read_once : config :=
  {| cfg_mode := READ; targetDeviceAddress := addr;
     verbosity := 0; keepReading := false |}.

Definition scan : config :=
  {| cfg_mode := SCAN; targetDeviceAddress := "";
     verbosity := 0; keepReading := false |}.

Definition characteristics : list string :=
  [DNAME_CHAR_UUID; RESET_CHAR_UUID; STATS_CHAR_UUID].

(** A device that answers every request; [stats] is what the stats
    characteristic holds at every read. *)
Definition thermostat (stats : Buffer) : transport :=
  {| stopScanningAsync := true;
     connectAsync := Resolved tt;
     discoverAllServicesAndCharacteristicsAsync := Resolved characteristics;
     resetChar_readAsync := Resolved [x0a; x0b; x0c; x0d; x00; x00];
     resetChar_writeAsync := fun _ _ => Resolved tt;
     dnameChar_readAsync := Resolved [x09; x4c; x69; x76; x00; x00];
     statsChar_readAsync := fun _ => Resolved stats;
     Date_now := fun i => 1640954096789 + 500 * Z.of_nat i;
     wait_disconnected := fun _ => false |}.

(** Manufacturer data: two bytes of company identifier, then the vendor's
    text; the flag after the first semicolon is at index 10. *)
Definition manufacturer_data (flag : string) : Buffer :=
  x00 :: x00 :: list_byte_of_string ("ECO16BT;" ++ flag ++ ";0;0;").

Definition adv_normal : Advertisement.advertisement :=
  {| Advertisement.address := addr;
     Advertisement.localName := Some "ECO16BT Liv";
     Advertisement.manufacturerData := Some (manufacturer_data "0") |}.

Definition adv_pairing : Advertisement.advertisement :=
  {| Advertisement.address := addr;
     Advertisement.localName := Some "ECO16BT Liv";
     Advertisement.manufacturerData := Some (manufacturer_data "1") |}.

Definition adv_bare : Advertisement.advertisement :=
  {| Advertisement.address := addr;
     Advertisement.localName := Some "ECO16BT Liv";
     Advertisement.manufacturerData := None |}.

Definition adv_other : Advertisement.advertisement :=
  {| Advertisement.address := addr;
     Advertisement.localName := Some "Headphones";
     Advertisement.manufacturerData := None |}.

(** Target 19.5, room 20.5, relay on. *)
Definition packet_80 : Buffer :=
  [x80; xc3; x00; x00; xcd; x00; x00; x00; x01].

(** The second packet kind. *)
Definition packet_other : Buffer :=
  [x00; xc3; x00; x00; xcd; x00; x00; x00; x01].

(** The ten bytes given as an example in the specification. *)
Definition packet_spec : Buffer :=
  [x80; xc3; x00; x00; x00; xcd; x00; x00; x00; x01].

Definition packet_short : Buffer := [x80; xc3].

(** The pairing file of an earlier pairing with reset code [1, 2, 3, 4]. *)
Definition paired : gmap string string :=
  {[ "pairing-90fd9f123456.json" :=
       JSON_stringify (JObj [("resetCode", array_of_buffer [x01; x02; x03; x04])]) ]}.

End Sample.

(** What the loop prints for one packet. *)
Definition printed (r : option Telemetry.reading) : list Node.event :=
  match r with
  | Some x => [Node.ConsoleLog x]
  | None => []
  end.

(** A stretch of trace without a file write. *)
Definition no_file_write (t : list Node.event) : Prop :=
  Forall (fun e => Session.is_file_write e = false) t.

(** A computation that only adds events, none of them a file write, and
    leaves the files as they are. *)
Definition read_only {A} (m : Node.M A) : Prop :=
  forall w, exists t, snd (m w) = extend w t /\ no_file_write t.

(** The elements of an array as [JSON_stringify] prints them, between the
    brackets. *)
Definition stringify_elements : list JSON.json -> string :=
  fix elems (l : list JSON.json) : string :=
    match l with
    | [] => ""
    | x :: r =>
        JSON.JSON_stringify x ++
        match r with [] => "" | _ :: _ => "," ++ elems r end
    end.

(** A text that does not go on with a decimal digit. *)
Definition no_digit_ahead (s : string) : Prop :=
  match s with
  | EmptyString => True
  | String c _ => JSON.digit c = None
  end.

(** Well-formed UTF-8, by the table of the Unicode standard: one byte
    [00..7f]; two bytes [c2..df] [80..bf]; three bytes, the second bounded
    by the first so that no form is over-long and no surrogate is encoded;
    four bytes, up to U+10FFFF. *)
Definition in_range (lo hi : Z) (b : byte) : Prop :=
  lo <= JS.byte_val b <= hi.

Definition three_bytes (b c : byte) : Prop :=
  (JS.byte_val b = 0xE0 /\ in_range 0xA0 0xBF c)
  \/ (in_range 0xE1 0xEC b /\ in_range 0x80 0xBF c)
  \/ (JS.byte_val b = 0xED /\ in_range 0x80 0x9F c)
  \/ (in_range 0xEE 0xEF b /\ in_range 0x80 0xBF c).

Definition four_bytes (b c : byte) : Prop :=
  (JS.byte_val b = 0xF0 /\ in_range 0x90 0xBF c)
  \/ (in_range 0xF1 0xF3 b /\ in_range 0x80 0xBF c)
  \/ (JS.byte_val b = 0xF4 /\ in_range 0x80 0x8F c).

Inductive utf8_text : list byte -> Prop :=
| utf8_end : utf8_text []
| utf8_one (b : byte) (rest : list byte) :
    in_range 0x00 0x7F b -> utf8_text rest -> utf8_text (b :: rest)
| utf8_two (b c : byte) (rest : list byte) :
    in_range 0xC2 0xDF b -> in_range 0x80 0xBF c ->
    utf8_text rest -> utf8_text (b :: c :: rest)
| utf8_three (b c d : byte) (rest : list byte) :
    three_bytes b c -> in_range 0x80 0xBF d ->
    utf8_text rest -> utf8_text (b :: c :: d :: rest)
| utf8_four (b c d e : byte) (rest : list byte) :
    four_bytes b c -> in_range 0x80 0xBF d -> in_range 0x80 0xBF e ->
    utf8_text rest -> utf8_text (b :: c :: d :: e :: rest).

(** The address with its separator characters stripped, in the words of
    the specification: the characters of the address other than the colon,
    in order. *)
Definition strip_separators (address : string) : string :=
  string_of_list_ascii
    (List.filter (fun c => negb (Ascii.eqb c ":"))
       (list_ascii_of_string address)).

(** Pairs of digits written as an address, with a colon between one pair
    and the next, and written one after the other. *)
Fixpoint colon_hex (pairs : list (ascii * ascii)) : string :=
  match pairs with
  | [] => EmptyString
  | (a, b) :: rest =>
      String a (String b
        match rest with
        | [] => EmptyString
        | _ :: _ => String ":" (colon_hex rest)
        end)
  end.

Fixpoint hex_digits (pairs : list (ascii * ascii)) : string :=
  match pairs with
  | [] => EmptyString
  | (a, b) :: rest => String a (String b (hex_digits rest))
  end.

(** A text on which [JSON.JSON_parse] refuses what [JSON.parse] refuses:
    it has no backslash, so no string has an escape, and no decimal digit
    followed by [.], [e] or [E], so no number has a fraction or an
    exponent. *)
Fixpoint plain_json_text (s : string) : bool :=
  match s with
  | EmptyString => true
  | String c r =>
      negb (Ascii.eqb c JSON.backslash)
      && match JSON.digit c, r with
         | Some _, String d _ =>
             negb (Ascii.eqb d "." || Ascii.eqb d "e" || Ascii.eqb d "E")
         | _, _ => true
         end
      && plain_json_text r
  end.

(** ** The command line *)

Module CommandLine.
Import JS Node.

(** [c.toLowerCase()] on an ASCII character: the letters A-Z become a-z.
    Other bytes are left alone; an argument with a character outside ASCII
    is refused by the address test whatever its lower-case form. *)
Definition lower (c : ascii) : ascii :=
  let n := N_of_ascii c in
  if ((65 <=? n) && (n <=? 90))%N then ascii_of_N (n + 32) else c.

Fixpoint toLowerCase (s : string) : string :=
  match s with
  | EmptyString => EmptyString
  | String c r => String (lower c) (toLowerCase r)
  end.

(** The module-level variables while the arguments are read: [mode] and
    [targetDeviceAddress] start [undefined]. *)
Record vars : Type := Vars {
  mode : option Node.mode;
  target : option string;
  verbose : Z;
  keep : bool
}.

Definition initial : vars :=
  {| mode := None; target := None; verbose := 0; keep := false |}.

(** How the start of the script ends: the variables are set, [usage()]
    prints the help and exits with code 1, or an exception reaches
    [dieOnError], which exits with code 1 too. *)
Inductive outcome (A : Type) : Type :=
| Parsed (a : A)
| Usage
| Died (e : error).

Arguments Parsed {A} a.
Arguments Usage {A}.
Arguments Died {A} e.

(** [while (args.length) { const arg = args.shift(); ... }] *)
Fixpoint parse_loop (args : list string) (v : vars) : outcome vars :=
  match args with
  | [] => Parsed v
  | arg :: rest =>
      if String.eqb arg "--read" then
        match rest with
        | [] => Died TypeError
        | a :: rest' =>
            let targetDeviceAddress := toLowerCase a in
            if negb (address_regex targetDeviceAddress) then Usage
            else if bool_decide (is_Some (mode v)) then Usage
            else
              parse_loop rest'
                {| mode := Some READ; target := Some targetDeviceAddress;
                   verbose := verbose v; keep := keep v |}
        end
      else if String.eqb arg "--keep-reading" then
        parse_loop rest
          {| mode := mode v; target := target v;
             verbose := verbose v; keep := true |}
      else if String.eqb arg "--scan" then
        if bool_decide (is_Some (mode v)) then Usage
        else
          parse_loop rest
            {| mode := Some SCAN; target := target v;
               verbose := verbose v; keep := keep v |}
      else if String.eqb arg "--verbose" then
        parse_loop rest
          {| mode := mode v; target := target v;
             verbose := verbose v + 1; keep := keep v |}
      else Usage
  end.

(** The script from [process.argv.slice(2)] to [if (!mode) usage();].  In
    scan mode [targetDeviceAddress] stays [undefined] and is never read; the
    configuration holds the empty string there. *)
Definition parse_args (args : list string) : outcome config :=
  match parse_loop args initial with
  | Parsed v =>
      match mode v with
      | Some m =>
          Parsed {| cfg_mode := m;
                    targetDeviceAddress := default "" (target v);
                    verbosity := verbose v;
                    keepReading := keep v |}
      | None => Usage
      end
  | Usage => Usage
  | Died e => Died e
  end.

(** The four options. *)
Definition is_flag (a : string) : Prop :=
  a = "--read" \/ a = "--scan" \/ a = "--keep-reading" \/ a = "--verbose".

(** An argument the loop can consume: an option, or an address after
    [--read]. *)
Definition recognized (a : string) : Prop :=
  is_flag a \/ address_regex (toLowerCase a) = true.

End CommandLine.

(** ** Predicates on computations *)

(** A relation between the world before and the world after that every
    run of [m] establishes. *)
Definition preserves (R : Node.world -> Node.world -> Prop) {A}
  (m : Node.M A) : Prop :=
  forall w, R w (snd (m w)).

(** The pairing file as [writePairingInfo] writes it for the answer [msg]
    of the reset-code characteristic: its first four bytes. *)
Definition pairing_record (msg : list byte) : string :=
  JSON.JSON_stringify
    (JSON.JObj [("resetCode", JSON.array_of_buffer (JS.slice_to 4 msg))]).

(** What a session with the peripheral at [address], behind [dev], may do:
    which characteristics it reads and writes, which file it touches and
    with what content, how long it waits and what it prints. *)
Definition session_event (address : string) (dev : Session.transport)
  (e : Node.event) : Prop :=
  match e with
  | Node.Warn _ | Node.ConsoleError _
  | Node.StopScanning | Node.Connect | Node.DiscoverAll => True
  | Node.ConsoleLog r =>
      Telemetry.address r = address
      /\ JS.replace_nul (Telemetry.deviceName r) = Telemetry.deviceName r
  | Node.CharRead uuid =>
      uuid = Session.RESET_CHAR_UUID \/ uuid = Session.DNAME_CHAR_UUID
      \/ uuid = Session.STATS_CHAR_UUID
  | Node.CharWrite uuid _ withoutResponse =>
      uuid = Session.RESET_CHAR_UUID /\ withoutResponse = false
  | Node.ReadFile filename => filename = PairingStore.pairingFilename address
  | Node.WriteFile filename data =>
      filename = PairingStore.pairingFilename address
      /\ exists msg : list byte,
           Session.resetChar_readAsync dev = Session.Resolved msg
           /\ data = pairing_record msg
  | Node.SetTimeout ms => ms = 500
  end.

(** The steps a session is made of: an event of the kind above added to
    the trace, the files untouched, or such a file write carried out. *)
Inductive session_step (address : string) (dev : Session.transport)
  (w : Node.world) : Node.world -> Prop :=
| step_event (e : Node.event) :
    session_event address dev e ->
    Session.is_file_write e = false ->
    session_step address dev w (extend w [e])
| step_write (filename data : string) :
    session_event address dev (Node.WriteFile filename data) ->
    session_step address dev w
      {| Node.files := <[filename := data]> (Node.files w);
         Node.trace := (Node.trace w ++ [Node.WriteFile filename data])%list |}.

(** The pairing file of [address] is absent or holds the record of a reset
    code of at most four bytes. *)
Definition well_formed_store (address : string) (w : Node.world) : Prop :=
  forall text,
    Node.files w !! PairingStore.pairingFilename address = Some text ->
    exists buf : list byte,
      (length buf <= 4)%nat
      /\ text = JSON.JSON_stringify
                  (JSON.JObj [("resetCode", JSON.array_of_buffer buf)]).

(** Neither a read of the stats characteristic nor a printed reading. *)
Definition before_polling (e : Node.event) : Prop :=
  Session.is_stats_read e = false
  /\ match e with Node.ConsoleLog _ => False | _ => True end.

(** The device has accepted a write of a reset code. *)
Definition authenticated (dev : Session.transport) (t : list Node.event) : Prop :=
  exists buf,
    In (Node.CharWrite Session.RESET_CHAR_UUID buf false) t
    /\ Session.resetChar_writeAsync dev buf false = Session.Resolved tt.

(** A step of a session before its loop: it adds events none of which is
    a stats read or a reading, and it returns, with [Q] true of these
    events, or throws, or exits with code 1. *)
Definition prelude (Q : list Node.event -> Prop) {A} (m : Node.M A) : Prop :=
  forall w, exists t,
    Node.trace (snd (m w)) = (Node.trace w ++ t)%list
    /\ Forall before_polling t
    /\ match fst (m w) with
       | Node.Return _ => Q t
       | Node.Throw _ => True
       | Node.Exit c => c = 1
       | Node.Running => False
       end.

(** The end of [connect], the loop and the exit after it, inside the
    handler that turns what is thrown into [dieOnError]. *)
Definition polling (cfg : Node.config) (per : Session.peripheral) (fuel : nat)
  (statsChar : bool) (raw : list byte) : Node.M unit :=
  Node.try_catch
    (@mbind Node.M Node.M_bind unit unit (fun _ => Node.exit 0)
       (Session.poll cfg per statsChar (Telemetry.decodeName raw) fuel 0))
    Node.dieOnError.

(** The two ways a session goes: it exits with code 1 before the loop, or
    it reaches the loop, [Q] true of the events until then. *)
Definition phases (cfg : Node.config) (per : Session.peripheral) (fuel : nat)
  (Q : list Node.event -> Prop) (m : Node.M unit) : Prop :=
  forall w, exists t,
    Forall before_polling t
    /\ ((Node.trace (snd (Node.try_catch m Node.dieOnError w))
         = (Node.trace w ++ t)%list
         /\ fst (Node.try_catch m Node.dieOnError w) = Node.Exit 1)
        \/ exists w1 statsChar raw,
             Node.trace w1 = (Node.trace w ++ t)%list
             /\ Q t
             /\ Node.try_catch m Node.dieOnError w
                = polling cfg per fuel statsChar raw w1).

(** How many times the stats characteristic was read. *)
Definition stats_reads (t : list Node.event) : nat :=
  length (List.filter Session.is_stats_read t).

(** A line that [log] printed on stderr. *)
Definition is_log_line (e : Node.event) : bool :=
  match e with Node.Warn _ => true | _ => false end.

(** A trace without the lines of [log]. *)
Definition without_log (t : list Node.event) : list Node.event :=
  List.filter (fun e => negb (is_log_line e)) t.

(** Two worlds with the same files and the same trace up to the lines of
    [log]. *)
Definition same_but_log (w w' : Node.world) : Prop :=
  Node.files w = Node.files w'
  /\ without_log (Node.trace w) = without_log (Node.trace w').

(** Two computations that, from such worlds, end the same way in such
    worlds. *)
Definition alike {A} (m m' : Node.M A) : Prop :=
  forall w w',
    same_but_log w w' ->
    fst (m w) = fst (m' w') /\ same_but_log (snd (m w)) (snd (m' w')).
(** * Properties *)

Import JS JSON Node PairingStore Session.

Local Open Scope list_scope.

(** ** Bytes and numbers *)

Lemma in_all_bytes (b : byte) : In b all_bytes.
Proof.
  assert (H : existsb (Byte.eqb b) all_bytes = true)
    by (destruct b; vm_compute; reflexivity).
  apply existsb_exists in H. destruct H as (c & Hin & Heq).
  apply Byte.byte_dec_bl in Heq. subst c. exact Hin.
Qed.

Lemma for_all_bytes (p : byte -> bool) :
  forallb p all_bytes = true -> forall b, p b = true.
Proof.
  intros H b. apply (proj1 (forallb_forall p all_bytes) H), in_all_bytes.
Qed.

Lemma byte_val_inj (a b : byte) : byte_val a = byte_val b -> a = b.
Proof.
  unfold byte_val. intros H. apply N2Z.inj in H.
  assert (E : Some a = Some b)
    by (rewrite <- (Byte.of_to_N a), H; apply Byte.of_to_N).
  congruence.
Qed.

Lemma byte_val_range (b : byte) : 0 <= byte_val b < 256.
Proof.
  unfold byte_val. pose proof (Byte.to_N_bounded b). lia.
Qed.

Lemma uint8_byte_val (b : byte) : uint8 (byte_val b) = b.
Proof.
  unfold uint8. pose proof (byte_val_range b) as Hr.
  rewrite Z.mod_small by lia. unfold byte_val.
  rewrite N2Z.id, Byte.of_to_N. reflexivity.
Qed.

Lemma strict_eq_spec (x : option byte) (b : byte) :
  strict_eq x (byte_val b) = true <-> x = Some b.
Proof.
  destruct x as [c|]; simpl.
  - rewrite Z.eqb_eq. split; [intros H; f_equal; apply byte_val_inj, H | congruence].
  - split; discriminate.
Qed.

(** Two bytes never give NaN; a missing byte always does. *)
Lemma temperature_of_bytes (h l : byte) :
  PrimFloat.is_nan ((256 * ToNumber (Some h) + ToNumber (Some l)) / 10)%float = false.
Proof.
  assert (H : forallb (fun h => forallb (fun l => negb (PrimFloat.is_nan
                ((256 * ToNumber (Some h) + ToNumber (Some l)) / 10)%float))
                all_bytes) all_bytes = true)
    by (vm_compute; reflexivity).
  pose proof (for_all_bytes _ H h) as Hh. cbv beta in Hh.
  pose proof (for_all_bytes _ Hh l) as Hl. cbv beta in Hl.
  destruct (PrimFloat.is_nan _); [discriminate | reflexivity].
Qed.

Lemma temperature_undefined_hi (l : option byte) :
  PrimFloat.is_nan ((256 * ToNumber None + ToNumber l) / 10)%float = true.
Proof.
  destruct l as [l|]; [| vm_compute; reflexivity].
  revert l. apply for_all_bytes. vm_compute. reflexivity.
Qed.

(** The temperature read at [lo] and [lo + 1] is NaN exactly when the packet
    ends before the high byte. *)
Lemma temperature_nan (stats : Buffer) (lo : nat) :
  PrimFloat.is_nan (Telemetry.temperature stats (S lo) lo) = true
  <-> (length stats <= S lo)%nat.
Proof.
  unfold Telemetry.temperature.
  destruct (stats !! S lo) as [h|] eqn:Hh.
  - assert (Hlt : (S lo < length stats)%nat) by (eapply lookup_lt_Some; eauto).
    destruct (lookup_lt_is_Some_2 stats lo ltac:(lia)) as [l Hl].
    rewrite Hl, temperature_of_bytes. split; [discriminate | lia].
  - apply lookup_ge_None_1 in Hh.
    rewrite temperature_undefined_hi. split; [lia | reflexivity].
Qed.

(** ** Strings *)

Lemma prefix_app (p s : string) :
  String.prefix p s = true <-> exists rest, s = p +:+ rest.
Proof.
  revert s. induction p as [|a p IH]; intros s.
  - split; [intros _; exists s; reflexivity | intros _; destruct s; reflexivity].
  - destruct s as [|b s]; [split; [discriminate | intros [rest H]; discriminate] |].
    cbn [String.prefix].
    destruct (Ascii.ascii_dec a b) as [Hab|Hab].
    + rewrite (IH s). subst b. split; intros [rest H]; exists rest.
      * subst s. reflexivity.
      * change (String a s = String a (p +:+ rest)) in H. congruence.
    + split; [discriminate |].
      intros [rest H]. change (String b s = String a (p +:+ rest)) in H.
      congruence.
Qed.

Lemma nul_of_byte (b : byte) :
  Ascii.eqb (ascii_of_byte b) "000"%char = Byte.eqb b x00.
Proof. destruct b; reflexivity. Qed.

Lemma replace_nul_idem (s : string) : replace_nul (replace_nul s) = replace_nul s.
Proof.
  induction s as [|c s IH]; simpl; [reflexivity |].
  destruct (Ascii.eqb c "000") eqn:E; simpl; [exact IH |].
  rewrite E, IH. reflexivity.
Qed.

Lemma list_byte_of_string_cons (c : ascii) (s : string) :
  list_byte_of_string (String c s) = byte_of_ascii c :: list_byte_of_string s.
Proof. reflexivity. Qed.

(** Removing NULs from a text, on its bytes. *)
Lemma replace_nul_string_of_bytes (buf : list byte) :
  list_byte_of_string (replace_nul (string_of_list_byte buf))
  = List.filter (fun b => negb (Byte.eqb b x00)) buf.
Proof.
  induction buf as [|b buf IH]; [reflexivity |].
  change (string_of_list_byte (b :: buf))
    with (String (ascii_of_byte b) (string_of_list_byte buf)).
  cbn [replace_nul List.filter].
  rewrite nul_of_byte. destruct (Byte.eqb b x00); cbn [negb]; [exact IH |].
  rewrite list_byte_of_string_cons, byte_of_ascii_of_byte, IH. reflexivity.
Qed.

Lemma replace_nul_no_nul (s : string) :
  ~ In x00 (list_byte_of_string (replace_nul s)).
Proof.
  induction s as [|c s IH]; [intros [] |].
  cbn [replace_nul]. destruct (Ascii.eqb c "000") eqn:E; [exact IH |].
  rewrite list_byte_of_string_cons. intros [H | H]; [| exact (IH H)].
  assert (Hc : c = ascii_of_byte x00)
    by (rewrite <- H; symmetry; apply ascii_of_byte_of_ascii).
  subst c. discriminate E.
Qed.

(** ** The UTF-8 decoder *)

Ltac decide_ranges :=
  unfold in_range, between in *;
  repeat match goal with
         | |- context [?x <=? ?y] => destruct (Z.leb_spec x y); try lia
         | |- context [?x =? ?y] => destruct (Z.eqb_spec x y); try lia
         end;
  cbn [andb orb negb].

Lemma utf8_start_single (b : byte) :
  in_range 0x00 0x7F b -> utf8_start b = Single.
Proof. intros H. unfold utf8_start. cbv zeta. decide_ranges; try reflexivity. Qed.

Lemma utf8_start_two (b : byte) :
  in_range 0xC2 0xDF b -> utf8_start b = Lead 1 0x80 0xBF.
Proof. intros H. unfold utf8_start. cbv zeta. decide_ranges; try reflexivity. Qed.

Lemma utf8_start_three (b c : byte) :
  three_bytes b c ->
  exists lo hi, utf8_start b = Lead 2 lo hi /\ between lo hi (byte_val c) = true.
Proof.
  intros [[Hb Hc] | [[Hb Hc] | [[Hb Hc] | [Hb Hc]]]];
    unfold utf8_start; cbv zeta; decide_ranges;
    eexists _, _; (split; [reflexivity |]); decide_ranges; try reflexivity.
Qed.

Lemma utf8_start_four (b c : byte) :
  four_bytes b c ->
  exists lo hi, utf8_start b = Lead 3 lo hi /\ between lo hi (byte_val c) = true.
Proof.
  intros [[Hb Hc] | [[Hb Hc] | [Hb Hc]]];
    unfold utf8_start; cbv zeta; decide_ranges;
    eexists _, _; (split; [reflexivity |]); decide_ranges; try reflexivity.
Qed.

Lemma between_continuation (b : byte) :
  in_range 0x80 0xBF b -> between 0x80 0xBF (byte_val b) = true.
Proof. intros H. decide_ranges; try reflexivity. Qed.

(** Well-formed UTF-8 is decoded to itself. *)
Lemma utf8_decode_text (buf : list byte) :
  utf8_text buf -> utf8_decode [] 0 0x80 0xBF buf = buf.
Proof.
  induction 1 as [| b rest Hb _ IH | b c rest Hb Hc _ IH
                  | b c d rest Hbc Hd _ IH | b c d e rest Hbc Hd He _ IH].
  - reflexivity.
  - cbn [utf8_decode]. rewrite (utf8_start_single b Hb), IH. reflexivity.
  - cbn [utf8_decode]. rewrite (utf8_start_two b Hb).
    cbn [utf8_decode]. rewrite (between_continuation c Hc), IH. reflexivity.
  - destruct (utf8_start_three b c Hbc) as (lo & hi & Hs & Hin).
    cbn [utf8_decode]. rewrite Hs. cbn [utf8_decode]. rewrite Hin.
    cbn [utf8_decode app]. rewrite (between_continuation d Hd), IH. reflexivity.
  - destruct (utf8_start_four b c Hbc) as (lo & hi & Hs & Hin).
    cbn [utf8_decode]. rewrite Hs. cbn [utf8_decode]. rewrite Hin.
    cbn [utf8_decode app]. rewrite (between_continuation d Hd).
    cbn [utf8_decode app]. rewrite (between_continuation e He), IH. reflexivity.
Qed.

Lemma utf8_text_zeros (n : nat) : utf8_text (repeat x00 n).
Proof.
  induction n as [|n IH]; [constructor |].
  cbn [repeat]. apply utf8_one; [split; vm_compute; discriminate | exact IH].
Qed.

Lemma filter_zeros (n : nat) :
  List.filter (fun b => negb (Byte.eqb b x00)) (repeat x00 n) = [].
Proof. induction n as [|n IH]; [reflexivity | exact IH]. Qed.

(** ** The telemetry decoder *)

(** C1, as amended.  The nine-byte packet [80 c3 00 00 cd 00 00 00 01]
    decodes to target 19.5, room 20.5 and relay on.  In every packet that
    starts with 0x80 and has at least nine bytes, the target temperature is
    bytes 1 (low) and 2 (high), the room temperature bytes 4 (low) and 5
    (high), each as [(256 * high + low) / 10], and the relay flag is
    [byte 8 == 1]. *)
Theorem decodeStats_fields :
  (forall addr name now,
     Telemetry.decodeStats addr name now [x80; xc3; x00; x00; xcd; x00; x00; x00; x01]
     = Some {| Telemetry.address := addr;
               Telemetry.deviceName := name;
               Telemetry.relayIsOn := true;
               Telemetry.roomTemperature := 20.5%float;
               Telemetry.targetTemperature := 19.5%float;
               Telemetry.timestamp := now |})
  /\ (forall addr name now b1 b2 b3 b4 b5 b6 b7 b8 rest,
        Telemetry.decodeStats addr name now
          (x80 :: b1 :: b2 :: b3 :: b4 :: b5 :: b6 :: b7 :: b8 :: rest)
        = Some {| Telemetry.address := addr;
                  Telemetry.deviceName := name;
                  Telemetry.relayIsOn := (byte_val b8 =? 1);
                  Telemetry.roomTemperature :=
                    ((256 * byte_num b5 + byte_num b4) / 10)%float;
                  Telemetry.targetTemperature :=
                    ((256 * byte_num b2 + byte_num b1) / 10)%float;
                  Telemetry.timestamp := now |}).
Proof.
  split.
  - intros addr name now. reflexivity.
  - intros. reflexivity.
Qed.

(** C1, as stated, fails: in the ten-byte packet of the claim the room
    temperature bytes 4 and 5 are [00 cd], which is 5248 degrees, and byte 8
    is 0, so the relay is reported off. *)
Lemma decodeStats_claimed_packet :
  Telemetry.decodeStats "a" "n" 0 [x80; xc3; x00; x00; x00; xcd; x00; x00; x00; x01]
  = Some {| Telemetry.address := "a";
            Telemetry.deviceName := "n";
            Telemetry.relayIsOn := false;
            Telemetry.roomTemperature := 5248%float;
            Telemetry.targetTemperature := 19.5%float;
            Telemetry.timestamp := 0 |}
  /\ Telemetry.decodeStats "a" "n" 0 [x80; xc3; x00; x00; x00; xcd; x00; x00; x00; x01]
     <> Some {| Telemetry.address := "a";
                Telemetry.deviceName := "n";
                Telemetry.relayIsOn := true;
                Telemetry.roomTemperature := 20.5%float;
                Telemetry.targetTemperature := 19.5%float;
                Telemetry.timestamp := 0 |}.
Proof.
  split; [reflexivity |].
  intros H. apply (f_equal (option_map Telemetry.relayIsOn)) in H.
  vm_compute in H. discriminate H.
Qed.

(** C3, as amended.  A packet that starts with 0x80 always yields a record,
    however short it is: nothing fails and nothing is read past the end of
    the buffer, a missing byte reads as [undefined].  The target
    temperature is NaN exactly when the packet has fewer than 3 bytes, the
    room temperature exactly when it has fewer than 6, and the relay is
    reported off when it has fewer than 9. *)
Theorem decodeStats_short_packet (addr name : string) (now : Z) (stats : list byte) :
  stats !! 0%nat = Some x80 ->
  exists r,
    Telemetry.decodeStats addr name now stats = Some r
    /\ (PrimFloat.is_nan (Telemetry.targetTemperature r) = true
        <-> (length stats < 3)%nat)
    /\ (PrimFloat.is_nan (Telemetry.roomTemperature r) = true
        <-> (length stats < 6)%nat)
    /\ ((length stats < 9)%nat -> Telemetry.relayIsOn r = false).
Proof.
  intros H0. unfold Telemetry.decodeStats. rewrite H0.
  change (strict_eq (Some x80) 128) with true. cbv iota.
  eexists. split; [reflexivity |]. cbn [Telemetry.targetTemperature
    Telemetry.roomTemperature Telemetry.relayIsOn].
  split; [| split].
  - rewrite temperature_nan. lia.
  - rewrite temperature_nan. lia.
  - intros Hlen. rewrite (lookup_ge_None_2 stats 8) by lia. reflexivity.
Qed.

(** The two-byte packet [80 c3]: a record with both temperatures NaN and
    the relay off. *)
Lemma decodeStats_short_packet_witness :
  exists r,
    Telemetry.decodeStats "a" "n" 0 Sample.packet_short = Some r
    /\ (PrimFloat.is_nan (Telemetry.targetTemperature r) = true
        <-> (length Sample.packet_short < 3)%nat)
    /\ (PrimFloat.is_nan (Telemetry.roomTemperature r) = true
        <-> (length Sample.packet_short < 6)%nat)
    /\ ((length Sample.packet_short < 9)%nat -> Telemetry.relayIsOn r = false).
Proof.
  apply (decodeStats_short_packet "a" "n" 0 Sample.packet_short). reflexivity.
Defined.

(** C3, as stated, fails: the two-byte packet [80 c3] is not refused.  The
    session prints a record whose temperatures are NaN and exits with
    success. *)
Lemma short_packet_is_decoded :
  Telemetry.decodeStats Sample.addr "Liv" 0 Sample.packet_short
  = Some {| Telemetry.address := Sample.addr;
            Telemetry.deviceName := "Liv";
            Telemetry.relayIsOn := false;
            Telemetry.roomTemperature := nan;
            Telemetry.targetTemperature := nan;
            Telemetry.timestamp := 0 |}
  /\ (let run := discover Sample.no_other Sample.read_once
                   (Peripheral Sample.adv_normal (Sample.thermostat Sample.packet_short))
                   1 (start Sample.paired) in
      fst run = Exit 0
      /\ readings (trace (snd run))
         = [ {| Telemetry.address := Sample.addr;
                Telemetry.deviceName := "Liv";
                Telemetry.relayIsOn := false;
                Telemetry.roomTemperature := nan;
                Telemetry.targetTemperature := nan;
                Telemetry.timestamp := 1640954096789 |} ]).
Proof.
  split; [reflexivity |]. split; vm_compute; reflexivity.
Qed.

(** C9.  The device name is the characteristic value without its first
    byte, decoded as UTF-8, without NUL characters.  The first byte does
    not count.  When what follows it is well-formed UTF-8, the bytes of the
    name are the non-zero bytes that follow the first one, in order; bytes
    that are not UTF-8 are not kept but decoded to U+FFFD, as in the value
    [09 4c ff 76].  No name holds a NUL.  An empty value, a lone prefix
    byte and an all-zero remainder give the empty name; the value
    [09 4c 69 76 00 00] gives "Liv"; and removing NULs from a decoded name
    changes nothing. *)
Theorem decodeName_spec :
  Telemetry.decodeName [x09; x4c; x69; x76; x00; x00] = "Liv"
  /\ (forall b b' rest,
        Telemetry.decodeName (b :: rest) = Telemetry.decodeName (b' :: rest))
  /\ (forall b rest,
        utf8_text rest ->
        list_byte_of_string (Telemetry.decodeName (b :: rest))
        = List.filter (fun c => negb (Byte.eqb c x00)) rest)
  /\ list_byte_of_string (Telemetry.decodeName [x09; x4c; xff; x76])
     = [x4c; xef; xbf; xbd; x76]
  /\ (forall raw, ~ In x00 (list_byte_of_string (Telemetry.decodeName raw)))
  /\ Telemetry.decodeName [] = ""
  /\ (forall b, Telemetry.decodeName [b] = "")
  /\ (forall b n, Telemetry.decodeName (b :: repeat x00 n) = "")
  /\ (forall raw, replace_nul (Telemetry.decodeName raw) = Telemetry.decodeName raw).
Proof.
  assert (Htext : forall b rest,
             utf8_text rest ->
             list_byte_of_string (Telemetry.decodeName (b :: rest))
             = List.filter (fun c => negb (Byte.eqb c x00)) rest).
  { intros b rest Hrest. unfold Telemetry.decodeName, slice_from, toString.
    cbn [drop]. rewrite drop_0, (utf8_decode_text rest Hrest).
    apply replace_nul_string_of_bytes. }
  split; [reflexivity |]. split; [reflexivity |]. split; [exact Htext |].
  split; [reflexivity |]. split; [intros raw; apply replace_nul_no_nul |].
  split; [reflexivity |]. split; [reflexivity |]. split.
  - intros b n.
    rewrite <- (string_of_list_byte_of_string (Telemetry.decodeName _)).
    rewrite (Htext b (repeat x00 n) (utf8_text_zeros n)), filter_zeros.
    reflexivity.
  - intros raw. apply replace_nul_idem.
Qed.

(** A name with letters outside ASCII: "S\u00e4\u00e4 \u20ac", in UTF-8, is kept as it
    is, its padding removed. *)
Example decodeName_utf8 :
  utf8_text [x53; xc3; xa4; xc3; xa4; x20; xe2; x82; xac; x00; x00]
  /\ list_byte_of_string
       (Telemetry.decodeName
          [x0b; x53; xc3; xa4; xc3; xa4; x20; xe2; x82; xac; x00; x00])
     = [x53; xc3; xa4; xc3; xa4; x20; xe2; x82; xac].
Proof.
  split; [| reflexivity].
  apply utf8_one; [split; vm_compute; discriminate |].
  apply utf8_two; [split; vm_compute; discriminate .. |].
  apply utf8_two; [split; vm_compute; discriminate .. |].
  apply utf8_one; [split; vm_compute; discriminate |].
  apply utf8_three;
    [right; left; split; split; vm_compute; discriminate
    | split; vm_compute; discriminate |].
  apply utf8_one; [split; vm_compute; discriminate |].
  apply utf8_one; [split; vm_compute; discriminate |].
  constructor.
Qed.

(** The idempotence above is that of the text-level step.  The whole
    decoder is not meant to run twice on bytes: fed the bytes of a decoded
    name, it drops the first character as if it were the prefix byte. *)
Remark decodeName_on_decoded_bytes :
  Telemetry.decodeName
    (list_byte_of_string (Telemetry.decodeName [x09; x4c; x69; x76; x00; x00]))
  = "iv".
Proof. reflexivity. Qed.

(** ** Running the process *)

Lemma extend_nil (w : world) : extend w [] = w.
Proof. destruct w; unfold extend; simpl. by rewrite app_nil_r. Qed.

Lemma extend_extend (w : world) (t u : list event) :
  extend (extend w t) u = extend w (t ++ u).
Proof. unfold extend; simpl. by rewrite app_assoc. Qed.

Lemma files_extend (w : world) (t : list event) : files (extend w t) = files w.
Proof. reflexivity. Qed.

Lemma run_bind {A B} (m : M A) (k : A -> M B) (w : world) :
  (m ≫= k) w =
  match m w with
  | (Return a, w') => k a w'
  | (Throw e, w') => (Throw e, w')
  | (Exit c, w') => (Exit c, w')
  | (Running, w') => (Running, w')
  end.
Proof. reflexivity. Qed.

Lemma run_ret {A} (a : A) (w : world) : (mret a : M A) w = (Return a, w).
Proof. reflexivity. Qed.

Lemma run_emit (e : event) (w : world) : emit e w = (Return tt, extend w [e]).
Proof. reflexivity. Qed.

Lemma run_log (cfg : config) (level : Z) (msg : message) (w : world) :
  log cfg level msg w = (Return tt, extend w (logged cfg level msg)).
Proof.
  unfold log, logged. destruct (level <=? verbosity cfg).
  - reflexivity.
  - by rewrite extend_nil.
Qed.

Lemma run_await_resolved {A} (cfg : config) (req : event) (a : A) (w : world) :
  await cfg req (Resolved a) w = (Return a, extend w [req]).
Proof. reflexivity. Qed.

Lemma run_try_catch {A} (m : M A) (h : error -> M A) (w : world) :
  try_catch m h w =
  match m w with
  | (Throw e, w') => h e w'
  | r => r
  end.
Proof. reflexivity. Qed.

Lemma run_readFileSync (filename : string) (w : world) :
  readFileSync filename w =
  (match files w !! filename with
   | Some data => Return data
   | None => Throw ENOENT
   end, extend w [ReadFile filename]).
Proof. unfold readFileSync. destruct (files w !! filename); reflexivity. Qed.

Lemma run_writeFileSync (filename data : string) (w : world) :
  writeFileSync filename data w =
  (Return tt, {| files := <[filename := data]> (files w);
                 trace := trace w ++ [WriteFile filename data] |}).
Proof. reflexivity. Qed.

Ltac step :=
  first
    [ rewrite run_bind
    | rewrite run_log
    | rewrite run_emit
    | rewrite run_ret
    | rewrite run_await_resolved
    | rewrite run_readFileSync
    | rewrite run_writeFileSync
    | rewrite run_try_catch
    | rewrite extend_extend
    | progress cbv beta iota ].

Ltac run := repeat step.

(** Name the continuation of the first bind whose argument has type [A] and
    which follows a computation matching [m]; run the program up to there. *)
Tactic Notation "name_continuation" constr(A) ident(k) :=
  match goal with
  | |- context [@mbind M _ A unit ?f _] => set (k := f)
  end.

Tactic Notation "run_to" constr(A) ident(k) :=
  repeat (assert_fails (name_continuation A k); step);
  name_continuation A k.

(** ** The advertisement filter *)

Lemma accept_iff (ad : Advertisement.advertisement) :
  Advertisement.accept ad = true
  <-> exists rest, Advertisement.localName ad = Some ("ECO16BT " +:+ rest).
Proof.
  unfold Advertisement.accept, test_ECO16BT. rewrite prefix_app.
  destruct (Advertisement.localName ad) as [name|]; simpl.
  - split; intros [rest H]; exists rest; congruence.
  - split; intros [rest H]; discriminate.
Qed.

(** C8.  An advertisement whose local name does not begin with "ECO16BT "
    (or that has no local name) is not accepted, and its [discover] event
    leaves no trace: the handler returns at once, with no log line, no
    error, no connection attempt and no file access, in either mode. *)
Theorem discover_ignores_other_names
  (other : json -> option (list byte)) (cfg : config) (per : peripheral)
  (fuel : nat) (w : world) :
  ~ (exists rest,
       Advertisement.localName (advertisement per) = Some ("ECO16BT " +:+ rest)) ->
  Advertisement.accept (advertisement per) = false
  /\ discover other cfg per fuel w = (Return tt, w).
Proof.
  intros Hname.
  assert (Hacc : Advertisement.accept (advertisement per) = false).
  { destruct (Advertisement.accept (advertisement per)) eqn:E; [| reflexivity].
    exfalso. apply Hname, accept_iff, E. }
  split; [exact Hacc |].
  unfold discover, on_discover. rewrite run_try_catch, Hacc. reflexivity.
Qed.

(** An advertisement named "Headphones" in read mode. *)
Lemma discover_ignores_other_names_witness :
  Advertisement.accept Sample.adv_other = false
  /\ discover Sample.no_other Sample.read_once
       (Peripheral Sample.adv_other (Sample.thermostat Sample.packet_80))
       1 (start Sample.paired)
     = (Return tt, start Sample.paired).
Proof.
  apply (discover_ignores_other_names Sample.no_other Sample.read_once
           (Peripheral Sample.adv_other (Sample.thermostat Sample.packet_80))
           1 (start Sample.paired)).
  intros [rest H]. discriminate H.
Defined.

(** C4, as amended.  For an accepted advertisement that carries
    manufacturer data, reading the pairing flag does not throw: the flag is
    true exactly when the byte at index 10 is 0x31 (ASCII '1'), hence false
    when the data is shorter than 11 bytes; in scan mode the handler then
    logs the device and returns. *)
Theorem pairing_flag_of_manufacturer_data
  (other : json -> option (list byte)) (cfg : config) (per : peripheral)
  (md : list byte) (fuel : nat) (w : world) :
  Advertisement.accept (advertisement per) = true ->
  Advertisement.manufacturerData (advertisement per) = Some md ->
  exists p,
    Advertisement.pairing (advertisement per) = Some p
    /\ (p = true <-> md !! 10%nat = Some x31)
    /\ ((length md < 11)%nat -> p = false)
    /\ (cfg_mode cfg = SCAN ->
        discover other cfg per fuel w
        = (Return tt,
           extend w (logged cfg 0
             (MsgFound (Advertisement.address (advertisement per))
                (Advertisement.localName (advertisement per)) p)))).
Proof.
  intros Hacc Hmd. exists (strict_eq (md !! 10%nat) 49).
  split; [| split; [| split]].
  - unfold Advertisement.pairing. rewrite Hmd. reflexivity.
  - apply (strict_eq_spec (md !! 10%nat) x31).
  - intros Hlen. rewrite (lookup_ge_None_2 md 10) by lia. reflexivity.
  - intros Hmode. unfold discover, on_discover, Advertisement.pairing.
    rewrite run_try_catch, Hacc, Hmd, Hmode. cbn [negb]. cbv iota.
    rewrite run_log. reflexivity.
Qed.

(** A thermostat advertising ["ECO16BT;1;0;0;"] after its two bytes of
    company identifier, seen in scan mode. *)
Lemma pairing_flag_of_manufacturer_data_witness :
  exists p,
    Advertisement.pairing Sample.adv_pairing = Some p
    /\ (p = true <-> Sample.manufacturer_data "1" !! 10%nat = Some x31)
    /\ ((length (Sample.manufacturer_data "1") < 11)%nat -> p = false)
    /\ (cfg_mode Sample.scan = SCAN ->
        discover Sample.no_other Sample.scan
          (Peripheral Sample.adv_pairing (Sample.thermostat Sample.packet_80))
          1 (start ∅)
        = (Return tt,
           extend (start ∅) (logged Sample.scan 0
             (MsgFound Sample.addr (Some "ECO16BT Liv") p)))).
Proof.
  apply (pairing_flag_of_manufacturer_data Sample.no_other Sample.scan
           (Peripheral Sample.adv_pairing (Sample.thermostat Sample.packet_80))
           (Sample.manufacturer_data "1") 1 (start ∅));
    reflexivity.
Defined.

(** C4, as stated, fails for absent manufacturer data: the advertisement is
    accepted, reading index 10 of [undefined] throws, and the process dies
    with exit code 1 instead of reporting [pairing = false]. *)
Lemma absent_manufacturer_data_throws :
  Advertisement.accept Sample.adv_bare = true
  /\ Advertisement.manufacturerData Sample.adv_bare = None
  /\ Advertisement.pairing Sample.adv_bare = None
  /\ discover Sample.no_other Sample.scan
       (Peripheral Sample.adv_bare (Sample.thermostat Sample.packet_80))
       1 (start ∅)
     = (Exit 1, extend (start ∅) [ConsoleError TypeError]).
Proof. repeat split. Qed.

(** ** Computations that leave the pairing store alone *)

Lemma no_file_write_nil : no_file_write [].
Proof. constructor. Qed.

Lemma no_file_write_app (t u : list event) :
  no_file_write t -> no_file_write u -> no_file_write (t ++ u).
Proof. unfold no_file_write. rewrite Forall_app. tauto. Qed.

Lemma no_file_write_logged (cfg : config) (level : Z) (msg : message) :
  no_file_write (logged cfg level msg).
Proof.
  unfold logged. destruct (level <=? verbosity cfg); repeat constructor.
Qed.

Lemma read_only_ret {A} (a : A) : read_only (mret a : M A).
Proof. intros w. exists []. rewrite extend_nil. split; [reflexivity | constructor]. Qed.

Lemma read_only_throw {A} (e : error) : read_only (throw e : M A).
Proof. intros w. exists []. rewrite extend_nil. split; [reflexivity | constructor]. Qed.

Lemma read_only_exit {A} (c : Z) : read_only (exit c : M A).
Proof. intros w. exists []. rewrite extend_nil. split; [reflexivity | constructor]. Qed.

Lemma read_only_running {A} : read_only (running : M A).
Proof. intros w. exists []. rewrite extend_nil. split; [reflexivity | constructor]. Qed.

Lemma read_only_emit (e : event) :
  is_file_write e = false -> read_only (emit e).
Proof.
  intros He w. exists [e]. split; [reflexivity |]. repeat constructor. exact He.
Qed.

Lemma read_only_log (cfg : config) (level : Z) (msg : message) :
  read_only (log cfg level msg).
Proof.
  intros w. exists (logged cfg level msg). rewrite run_log.
  split; [reflexivity | apply no_file_write_logged].
Qed.

Lemma read_only_bind {A B} (m : M A) (k : A -> M B) :
  read_only m -> (forall a, read_only (k a)) -> read_only (m ≫= k).
Proof.
  intros Hm Hk w. rewrite run_bind.
  destruct (Hm w) as (t & Ht & Hnt).
  destruct (m w) as [[a|e|c|] w1]; simpl in Ht; subst w1;
    try (exists t; split; [reflexivity | exact Hnt]).
  destruct (Hk a (extend w t)) as (u & Hu & Hnu).
  exists (t ++ u). rewrite Hu, extend_extend.
  split; [reflexivity | by apply no_file_write_app].
Qed.

Lemma read_only_on_disconnect {A} (cfg : config) :
  read_only (on_disconnect cfg : M A).
Proof.
  unfold on_disconnect.
  apply read_only_bind; [apply read_only_log | intros _; apply read_only_exit].
Qed.

Lemma read_only_await {A} (cfg : config) (req : event) (r : reply A) :
  is_file_write req = false -> read_only (await cfg req r).
Proof.
  intros Hreq. unfold await. apply read_only_bind.
  - apply read_only_emit, Hreq.
  - intros _. destruct r;
      [apply read_only_ret | apply read_only_throw | apply read_only_on_disconnect].
Qed.

Lemma read_only_on_char {A} (found : bool) (call : M A) :
  read_only call -> read_only (on_char found call).
Proof.
  intros H. unfold on_char. destruct found; [exact H | apply read_only_throw].
Qed.

(** The steps every part of [connect] is made of. *)
Create HintDb read_only.

#[local] Hint Resolve read_only_ret read_only_throw read_only_exit
  read_only_running read_only_log read_only_on_disconnect
  read_only_on_char : read_only.
#[local] Hint Extern 2 (read_only (_ ≫= _)) =>
  apply read_only_bind; [| intros ?] : read_only.
#[local] Hint Extern 2 (read_only (emit _)) =>
  apply read_only_emit; reflexivity : read_only.
#[local] Hint Extern 2 (read_only (await _ _ _)) =>
  apply read_only_await; reflexivity : read_only.

Lemma read_only_poll (cfg : config) (per : peripheral) (statsChar : bool)
  (name : string) (fuel i : nat) :
  read_only (poll cfg per statsChar name fuel i).
Proof.
  revert i. induction fuel as [|fuel IH]; intros i; cbn [poll].
  - apply read_only_running.
  - apply read_only_bind; [auto with read_only | intros stats].
    apply read_only_bind; [auto with read_only | intros _].
    apply read_only_bind;
      [destruct (Telemetry.decodeStats _ _ _ _); auto with read_only | intros _].
    destruct (keepReading cfg); [| apply read_only_ret].
    apply read_only_bind; [auto with read_only | intros _].
    apply read_only_bind; [auto with read_only | intros _].
    apply read_only_bind;
      [destruct (wait_disconnected _ _); auto with read_only | intros _].
    apply IH.
Qed.

Lemma read_only_try_catch {A} (m : M A) (h : error -> M A) :
  read_only m -> (forall e, read_only (h e)) -> read_only (try_catch m h).
Proof.
  intros Hm Hh w. rewrite run_try_catch.
  destruct (Hm w) as (t & Ht & Hnt).
  destruct (m w) as [[a|e|c|] w1]; simpl in Ht; subst w1;
    try (exists t; split; [reflexivity | exact Hnt]).
  destruct (Hh e (extend w t)) as (u & Hu & Hnu).
  exists (t ++ u). rewrite Hu, extend_extend.
  split; [reflexivity | by apply no_file_write_app].
Qed.

Lemma read_only_readPairingInfo (cfg : config) (address : string) :
  read_only (readPairingInfo cfg address).
Proof.
  unfold readPairingInfo.
  apply read_only_bind; [apply read_only_log | intros _].
  apply read_only_bind.
  - intros w. exists [ReadFile (pairingFilename address)].
    rewrite run_readFileSync. split; [reflexivity | repeat constructor].
  - intros text. destruct (JSON_parse text);
      [apply read_only_ret | apply read_only_throw].
Qed.

Lemma read_only_get_resetCode (v : json) : read_only (get_resetCode v).
Proof.
  unfold get_resetCode. destruct v;
    first [apply read_only_ret | apply read_only_throw].
Qed.

Lemma read_only_Buffer_from (other : json -> option (list byte)) (x : option json) :
  read_only (Buffer_from other x).
Proof.
  unfold Buffer_from.
  destruct x as [[| | | |elements|]|]; try apply read_only_throw.
  - destruct (other _); [apply read_only_ret | apply read_only_throw].
  - destruct (mapM safe_integer elements); [apply read_only_ret |].
    destruct (other _); [apply read_only_ret | apply read_only_throw].
  - destruct (other _); [apply read_only_ret | apply read_only_throw].
Qed.

(** [connect] with the pairing flag off. *)
Lemma read_only_connect_normal (other : json -> option (list byte))
  (cfg : config) (per : peripheral) (fuel : nat) :
  read_only (connect other cfg per false fuel).
Proof.
  unfold connect.
  apply read_only_bind; [auto with read_only | intros _].
  apply read_only_bind; [auto with read_only | intros _].
  apply read_only_bind; [auto with read_only | intros _].
  apply read_only_bind; [auto with read_only | intros characteristics].
  apply read_only_bind; [auto with read_only | intros _].
  apply read_only_bind.
  - apply read_only_try_catch.
    + apply read_only_bind;
        [apply read_only_readPairingInfo | apply read_only_get_resetCode].
    + intros _. auto with read_only.
  - intros resetCode.
    apply read_only_bind; [auto with read_only | intros _].
    apply read_only_bind.
    + apply read_only_on_char, read_only_bind;
        [apply read_only_Buffer_from | intros buf; auto with read_only].
    + intros _. apply read_only_bind; [auto with read_only | intros raw].
      apply read_only_bind; [apply read_only_poll | intros _; apply read_only_exit].
Qed.

(** C10.  With the pairing flag off, [connect] never writes the pairing
    store: whatever the device answers and however long the loop runs, the
    files after are the files before and the trace gains no file write.
    For a whole [discover] event, either the advertisement carries the
    pairing flag or the same holds. *)
Theorem normal_branch_never_writes
  (other : json -> option (list byte)) (cfg : config) (per : peripheral)
  (fuel : nat) (w : world) :
  (files (snd (connect other cfg per false fuel w)) = files w
   /\ exists t, trace (snd (connect other cfg per false fuel w)) = trace w ++ t
                /\ no_file_write t)
  /\ (Advertisement.pairing (advertisement per) = Some true
      \/ (files (snd (discover other cfg per fuel w)) = files w
          /\ exists t, trace (snd (discover other cfg per fuel w)) = trace w ++ t
                       /\ no_file_write t)).
Proof.
  assert (Hframe : forall A (m : M A), read_only m ->
            files (snd (m w)) = files w
            /\ exists t, trace (snd (m w)) = trace w ++ t /\ no_file_write t).
  { intros A m Hm. destruct (Hm w) as (t & Ht & Hnt). rewrite Ht.
    split; [reflexivity | exists t; split; [reflexivity | exact Hnt]]. }
  split; [apply Hframe, read_only_connect_normal |].
  assert (Hdie : forall e, read_only (dieOnError e : M unit)).
  { intros e. unfold dieOnError. auto with read_only. }
  destruct (Advertisement.pairing (advertisement per)) as [[|]|] eqn:Hp;
    [left; reflexivity | right | right]; apply Hframe;
    unfold discover, on_discover; rewrite Hp;
    (apply read_only_try_catch; [| exact Hdie]);
    (destruct (negb _); [apply read_only_ret |]).
  - destruct (cfg_mode cfg); [apply read_only_log |].
    destruct (String.eqb _ _); [| apply read_only_ret].
    apply read_only_bind; [apply read_only_log | intros _].
    apply read_only_bind; [apply read_only_emit; reflexivity | intros _].
    apply read_only_bind; [destruct (stopScanningAsync _); auto with read_only | intros _].
    apply read_only_connect_normal.
  - apply read_only_throw.
Qed.

(** ** Authentication *)

Lemma run_await {A} (cfg : config) (req : event) (r : reply A) (w : world) :
  await cfg req r w =
  match r with
  | Resolved a => (Return a, extend w [req])
  | Rejected => (Throw TransportError, extend w [req])
  | Disconnected => (Exit 1, extend w ([req] ++ logged cfg 0 MsgDisconnected))
  end.
Proof.
  unfold await, on_disconnect. destruct r; run; reflexivity.
Qed.

Lemma mapM_safe_integer (buf : list byte) :
  mapM safe_integer (map (fun b => JNum (byte_val b)) buf)
  = Some (map byte_val buf).
Proof.
  induction buf as [|b buf IH]; [reflexivity |].
  cbn [map mapM]. rewrite IH. cbn [safe_integer].
  pose proof (byte_val_range b) as Hr.
  assert (Hs : (Z.abs (byte_val b) <=? 2 ^ 53) = true) by (apply Z.leb_le; lia).
  rewrite Hs. reflexivity.
Qed.

(** [Buffer.from([...buf])] is [buf] again. *)
Lemma Buffer_from_array (other : json -> option (list byte)) (buf : list byte) :
  Buffer_from other (Some (array_of_buffer buf)) = mret buf.
Proof.
  unfold Buffer_from, array_of_buffer. rewrite mapM_safe_integer.
  f_equal. rewrite map_map.
  induction buf as [|b buf IH]; [reflexivity |].
  cbn [map]. rewrite uint8_byte_val. f_equal. exact IH.
Qed.

Lemma readPairingInfo_missing (cfg : config) (address : string) (w : world) :
  files w !! pairingFilename address = None ->
  readPairingInfo cfg address w
  = (Throw ENOENT,
     extend w (logged cfg 2 (MsgReading (pairingFilename address))
               ++ [ReadFile (pairingFilename address)])).
Proof.
  intros Hf. unfold readPairingInfo. run.
  rewrite files_extend, Hf. reflexivity.
Qed.




(** C5, as amended.  With the pairing flag on, [connect] reads the
    reset-code characteristic, takes the first four bytes of the answer
    (all of it when it is shorter) as the reset code, writes it to the
    pairing file of the address, replacing what was there, and then sends
    the same bytes to the reset-code characteristic as a write request:
    noble's [withoutResponse] argument is [false], so the write asks for
    the device's acknowledgment.  No other file write follows. *)
Theorem pairing_branch_stores_and_writes
  (other : json -> option (list byte)) (cfg : config) (per : peripheral)
  (chars : list string) (msg : list byte) (fuel : nat) (w : world) :
  let address := Advertisement.address (advertisement per) in
  let resetCode := take 4 msg in
  let data := JSON_stringify (JObj [("resetCode", array_of_buffer resetCode)]) in
  let t := logged cfg 1 MsgConnecting ++ [Connect]
           ++ logged cfg 2 MsgDiscovering ++ [DiscoverAll]
           ++ logged cfg 3 (MsgCharacteristics chars)
           ++ logged cfg 0 MsgPairing ++ [CharRead RESET_CHAR_UUID]
           ++ logged cfg 1 (MsgReceivedResetCode msg)
           ++ logged cfg 2 (MsgWriting data (pairingFilename address))
           ++ [WriteFile (pairingFilename address) data]
           ++ logged cfg 0 MsgPairingSuccessful
           ++ logged cfg 1 (MsgAuthenticating (Some (array_of_buffer resetCode)))
           ++ [CharWrite RESET_CHAR_UUID resetCode false] in
  connectAsync (gatt per) = Resolved tt ->
  discoverAllServicesAndCharacteristicsAsync (gatt per) = Resolved chars ->
  find chars RESET_CHAR_UUID = true ->
  resetChar_readAsync (gatt per) = Resolved msg ->
  length resetCode = Nat.min 4 (length msg)
  /\ files (snd (connect other cfg per true fuel w))
     = <[pairingFilename address := data]> (files w)
  /\ exists rest,
       trace (snd (connect other cfg per true fuel w)) = trace w ++ t ++ rest
       /\ no_file_write rest.
Proof.
  intros address resetCode data t Hc Hd Hfind Hread.
  split; [apply length_take |].
  assert (Hrun : exists rest,
            snd (connect other cfg per true fuel w)
            = {| files := <[pairingFilename address := data]> (files w);
                 trace := trace w ++ t ++ rest |}
            /\ no_file_write rest).
  { unfold connect. rewrite Hc, Hd.
    (* the part of [connect] after the reset code is chosen *)
    run_to (option json) authenticate.
    run. rewrite Hfind.
    unfold on_char at 1. rewrite Hread. unfold writePairingInfo. run.
    fold address. change (slice_to 4 msg) with resetCode. fold data.
    subst authenticate. cbv beta.
    (* the part after the write to the reset-code characteristic *)
    match goal with
    | |- context [@mbind M _ unit unit ?k (on_char _ (Buffer_from _ _ ≫= _))] =>
        set (rest := k)
    end.
    assert (Hrest : read_only (rest tt)).
    { subst rest. cbv beta.
      apply read_only_bind; [| intros raw; apply read_only_bind;
        [apply read_only_poll | intros _; apply read_only_exit]].
      apply read_only_on_char, read_only_await. reflexivity. }
    rewrite Hfind. unfold on_char at 1. rewrite Buffer_from_array.
    run. rewrite run_await.
    destruct w as [fs tr]. unfold extend. cbn [files trace].
    destruct (resetChar_writeAsync (gatt per) resetCode false) as [[]| |];
      cbv beta iota; cbn [snd].
    - match goal with
      | |- context [rest tt ?w1] => destruct (Hrest w1) as (u & Hu & Hn)
      end.
      exists u. split; [| exact Hn]. rewrite Hu.
      subst t. unfold extend. cbn [files trace].
      repeat rewrite <- app_assoc. reflexivity.
    - exists []. split; [| constructor].
      subst t. repeat rewrite <- app_assoc. rewrite app_nil_r. reflexivity.
    - exists (logged cfg 0 MsgDisconnected). split; [| apply no_file_write_logged].
      subst t. repeat rewrite <- app_assoc. reflexivity. }
  destruct Hrun as (rest & Hrun & Hn). rewrite Hrun. cbn [files trace].
  split; [reflexivity |]. exists rest. split; [reflexivity | exact Hn].
Qed.

(** A device in pairing mode answering [0a 0b 0c 0d 00 00] on the
    reset-code characteristic, no pairing file on disk. *)
Lemma pairing_branch_stores_and_writes_witness :
  let run := connect Sample.no_other Sample.read_once
               (Peripheral Sample.adv_pairing (Sample.thermostat Sample.packet_80))
               true 1 (start ∅) in
  length (take 4 [x0a; x0b; x0c; x0d; x00; x00])
  = Nat.min 4 (length [x0a; x0b; x0c; x0d; x00; x00])
  /\ files (snd run)
     = <["pairing-90fd9f123456.json" :=
           JSON_stringify (JObj [("resetCode", array_of_buffer [x0a; x0b; x0c; x0d])])]>
         (files (start ∅))
  /\ exists rest,
       trace (snd run)
       = trace (start ∅)
         ++ [Connect; DiscoverAll; Warn MsgPairing; CharRead RESET_CHAR_UUID;
             WriteFile "pairing-90fd9f123456.json"
               (JSON_stringify
                  (JObj [("resetCode", array_of_buffer [x0a; x0b; x0c; x0d])]));
             Warn MsgPairingSuccessful;
             CharWrite RESET_CHAR_UUID [x0a; x0b; x0c; x0d] false]
         ++ rest
       /\ no_file_write rest.
Proof.
  exact (pairing_branch_stores_and_writes Sample.no_other Sample.read_once
           (Peripheral Sample.adv_pairing (Sample.thermostat Sample.packet_80))
           Sample.characteristics [x0a; x0b; x0c; x0d; x00; x00] 1 (start ∅)
           eq_refl eq_refl eq_refl eq_refl).
Defined.

(** C5, as stated, fails on the acknowledgment: in a pairing session the
    reset code goes to the device as [writeAsync(data, false)], a write
    with response, and no write without response is ever issued. *)
Lemma authenticate_write_requests_response :
  let run := discover Sample.no_other Sample.read_once
               (Peripheral Sample.adv_pairing (Sample.thermostat Sample.packet_80))
               1 (start ∅) in
  In (CharWrite RESET_CHAR_UUID [x0a; x0b; x0c; x0d] false) (trace (snd run))
  /\ (forall uuid data, ~ In (CharWrite uuid data true) (trace (snd run))).
Proof.
  split.
  - vm_compute. tauto.
  - intros uuid data H. vm_compute in H. intuition discriminate.
Qed.

(** ** The polling loop *)

Lemma poll_never_returns (cfg : config) (per : peripheral) (statsChar : bool)
  (name : string) (fuel i : nat) (w : world) :
  keepReading cfg = true ->
  fst (poll cfg per statsChar name fuel i w) <> Return tt.
Proof.
  intros Hk. revert i w. induction fuel as [|fuel IH]; intros i w.
  - discriminate.
  - cbn [poll]. rewrite Hk.
    repeat (rewrite run_bind;
            match goal with
            | |- context [match ?m ?w0 with _ => _ end] =>
                destruct (m w0) as [[?|?|?|] ?]; try discriminate
            end).
    apply IH.
Qed.

(** C2, as amended.  One iteration of the loop whose read is answered: the
    stats characteristic is read once and a reading is printed exactly when
    the packet decodes, that is when its first byte is 0x80.  In
    non-continuous mode the loop then ends and the session exits with code
    0, whether or not anything was printed.  In continuous mode the
    iteration is followed by a timer of 500 ms and the next iteration, and
    the loop never ends by itself. *)
Theorem polling_loop
  (cfg : config) (per : peripheral) (name : string) (stats : list byte)
  (fuel i : nat) (w : world) :
  let dev := gatt per in
  let address := Advertisement.address (advertisement per) in
  let decoded := Telemetry.decodeStats address name (Date_now dev i) stats in
  let t := [CharRead STATS_CHAR_UUID]
           ++ logged cfg 2 (MsgReceivedStats stats) ++ printed decoded in
  statsChar_readAsync dev i = Resolved stats ->
  wait_disconnected dev i = false ->
  (is_Some decoded <-> stats !! 0%nat = Some x80)
  /\ (keepReading cfg = false ->
      (poll cfg per true name (S fuel) i ≫= fun _ => (exit 0 : M unit)) w
      = (Exit 0, extend w t))
  /\ (keepReading cfg = true ->
      poll cfg per true name (S fuel) i w
      = poll cfg per true name fuel (S i)
          (extend w (t ++ logged cfg 2 MsgWaiting ++ [SetTimeout 500]))
      /\ forall n j w', fst (poll cfg per true name n j w') <> Return tt).
Proof.
  intros dev address decoded t Hread Hwait.
  assert (Hbody :
            poll cfg per true name (S fuel) i w
            = (if keepReading cfg then
                 log cfg 2 MsgWaiting;; emit (SetTimeout 500);;
                 (if wait_disconnected dev i then on_disconnect cfg else mret tt);;
                 poll cfg per true name fuel (S i)
               else mret tt) (extend w t)).
  { cbn [poll]. unfold on_char. fold dev address.
    rewrite Hread. run. fold decoded.
    assert (Hp : (match decoded with
                  | Some r => emit (ConsoleLog r)
                  | None => mret tt
                  end) (extend w ([CharRead STATS_CHAR_UUID]
                                  ++ logged cfg 2 (MsgReceivedStats stats)))
                 = (Return tt, extend w t)).
    { subst t. destruct decoded; run; cbn [printed];
        [reflexivity | rewrite app_nil_r; reflexivity]. }
    rewrite Hp. reflexivity. }
  split; [| split].
  - subst decoded. unfold Telemetry.decodeStats.
    rewrite <- (strict_eq_spec (stats !! 0%nat) x80).
    change (byte_val x80) with 128.
    destruct (strict_eq (stats !! 0%nat) 128); split;
      [intros _; reflexivity | intros _; eauto
      | intros [r Hr]; discriminate | discriminate].
  - intros Hk. rewrite run_bind, Hbody, Hk. reflexivity.
  - intros Hk. split; [| intros n j w'; apply poll_never_returns, Hk].
    rewrite Hbody, Hk, Hwait. run.
    repeat rewrite <- app_assoc. reflexivity.
Qed.

(** A continuous session whose first stats packet is of the other kind. *)
Lemma polling_loop_witness :
  let per := Peripheral Sample.adv_normal (Sample.thermostat Sample.packet_other) in
  let cfg := Config READ Sample.addr 0 true in
  (is_Some (Telemetry.decodeStats Sample.addr "Liv" 1640954096789 Sample.packet_other)
   <-> Sample.packet_other !! 0%nat = Some x80)
  /\ (keepReading cfg = false ->
      (poll cfg per true "Liv" 1 0 ≫= fun _ => (exit 0 : M unit)) (start ∅)
      = (Exit 0, extend (start ∅) [CharRead STATS_CHAR_UUID]))
  /\ (keepReading cfg = true ->
      poll cfg per true "Liv" 1 0 (start ∅)
      = poll cfg per true "Liv" 0 1
          (extend (start ∅) [CharRead STATS_CHAR_UUID; SetTimeout 500])
      /\ forall n j w', fst (poll cfg per true "Liv" n j w') <> Return tt).
Proof.
  exact (polling_loop (Config READ Sample.addr 0 true)
           (Peripheral Sample.adv_normal (Sample.thermostat Sample.packet_other))
           "Liv" Sample.packet_other 0 0 (start ∅) eq_refl eq_refl).
Defined.

(** C2, as stated, fails: a non-continuous session whose only stats packet
    is of the other kind (first byte 0x00) ends with exit code 0 after that
    one read, without having printed a reading. *)
Lemma success_without_reading :
  let run := discover Sample.no_other Sample.read_once
               (Peripheral Sample.adv_normal (Sample.thermostat Sample.packet_other))
               1 (start Sample.paired) in
  keepReading Sample.read_once = false
  /\ fst run = Exit 0
  /\ readings (trace (snd run)) = []
  /\ List.filter is_stats_read (trace (snd run)) = [CharRead STATS_CHAR_UUID].
Proof. repeat split. Qed.

(** ** The pairing file: printing and parsing *)

Lemma append_nil_l (s : string) : "" +:+ s = s.
Proof. reflexivity. Qed.

Lemma append_cons (c : ascii) (s r : string) :
  String c s +:+ r = String c (s +:+ r).
Proof. reflexivity. Qed.

Lemma append_nil_r (s : string) : s +:+ "" = s.
Proof.
  induction s as [|c s IH]; [reflexivity |].
  rewrite append_cons, IH. reflexivity.
Qed.

Lemma append_assoc (a b c : string) : (a +:+ b) +:+ c = a +:+ (b +:+ c).
Proof.
  induction a as [|x a IH]; [reflexivity |].
  rewrite !append_cons, IH. reflexivity.
Qed.

Lemma length_append (a b : string) :
  String.length (a +:+ b) = (String.length a + String.length b)%nat.
Proof.
  induction a as [|x a IH]; [reflexivity |].
  rewrite append_cons. cbn [String.length]. rewrite IH. reflexivity.
Qed.

Lemma digit_char (c : ascii) (d : uint -> uint) :
  digit c = Some d ->
  In c ["0"; "1"; "2"; "3"; "4"; "5"; "6"; "7"; "8"; "9"]%char.
Proof.
  unfold digit.
  repeat match goal with
         | |- context [Ascii.eqb c ?x] =>
             destruct (Ascii.eqb_spec c x) as [->|_];
             [intros _; cbn; tauto |]
         end.
  discriminate.
Qed.

(** The printed form of a number starts with a digit. *)
Lemma string_of_uint_head (u : uint) :
  u <> Nil ->
  exists c s d, NilEmpty.string_of_uint u = String c s /\ digit c = Some d.
Proof.
  destruct u; [congruence | ..]; intros _; cbn [NilEmpty.string_of_uint];
    eexists _, _, _; (split; [reflexivity | reflexivity]).
Qed.

Lemma lex_digits_string_of_uint (u : uint) (rest : string) :
  no_digit_ahead rest ->
  lex_digits (NilEmpty.string_of_uint u +:+ rest) = (u, rest).
Proof.
  intros Hrest. induction u as [|u IH|u IH|u IH|u IH|u IH|u IH|u IH|u IH|u IH|u IH];
    cbn [NilEmpty.string_of_uint];
    try (rewrite append_cons; cbn [lex_digits]; rewrite IH; reflexivity).
  rewrite append_nil_l. destruct rest as [|c r]; [reflexivity |].
  cbn [lex_digits]. cbn in Hrest. rewrite Hrest. reflexivity.
Qed.

(** The decimal digits of a positive number do not start with a zero. *)
Lemma to_uint_no_leading_zero (p : positive) (u : uint) :
  Pos.to_uint p <> D0 u.
Proof.
  intros H.
  assert (Hn : unorm (Pos.to_uint p) = Pos.to_uint p).
  { rewrite <- (DecimalPos.Unsigned.to_of (Pos.to_uint p)).
    rewrite DecimalPos.Unsigned.of_to. reflexivity. }
  rewrite H, unorm_D0 in Hn.
  destruct (uint_eq_dec (nzhead u) Nil) as [Hz|Hz].
  - apply unorm_0 in Hz. rewrite Hz in Hn.
    apply (DecimalPos.Unsigned.to_uint_nonzero p).
    rewrite H. injection Hn as <-. reflexivity.
  - rewrite (unorm_nzhead u Hz) in Hn. exact (nzhead_nonzero _ _ Hn).
Qed.

Lemma lex_nat_to_uint (n : N) (rest : string) :
  no_digit_ahead rest ->
  lex_nat (NilEmpty.string_of_uint (N.to_uint n) +:+ rest) = Some (n, rest).
Proof.
  intros Hrest. unfold lex_nat.
  rewrite lex_digits_string_of_uint by exact Hrest.
  destruct n as [|p]; [reflexivity |]. cbn [N.to_uint].
  pose proof (DecimalPos.Unsigned.of_to p) as Hof.
  pose proof (DecimalPos.Unsigned.to_uint_nonnil p) as Hnil.
  pose proof (to_uint_no_leading_zero p) as Hz.
  unfold N.of_uint.
  destruct (Pos.to_uint p) as [|u|u|u|u|u|u|u|u|u|u]; congruence.
Qed.

Lemma string_of_Z_byte (b : byte) :
  string_of_Z (byte_val b) = NilEmpty.string_of_uint (N.to_uint (Byte.to_N b)).
Proof.
  unfold string_of_Z, byte_val. destruct (Byte.to_N b); reflexivity.
Qed.

Lemma to_uint_nonnil (n : N) : N.to_uint n <> Nil.
Proof.
  destruct n; [discriminate | apply DecimalPos.Unsigned.to_uint_nonnil].
Qed.

(** A printed byte value parses back, whatever the fuel, when a comma or a
    bracket follows. *)
Lemma parse_value_byte (fuel : nat) (b : byte) (rest : string) :
  no_digit_ahead rest ->
  parse_value (S fuel) (string_of_Z (byte_val b) +:+ rest)
  = Some (JNum (byte_val b), rest).
Proof.
  intros Hrest. rewrite string_of_Z_byte.
  pose proof (lex_nat_to_uint (Byte.to_N b) rest Hrest) as Hlex.
  destruct (string_of_uint_head (N.to_uint (Byte.to_N b)) (to_uint_nonnil _))
    as (c & s & d & Hs & Hd).
  rewrite Hs in Hlex |- *. rewrite append_cons in Hlex |- *.
  apply digit_char in Hd.
  assert (Hint : lex_int (String c (s +:+ rest)) = Some (byte_val b, rest)).
  { unfold lex_int. rewrite Hlex.
    cbn in Hd. intuition subst; reflexivity. }
  cbn [parse_value skip_ws].
  cbn in Hd.
  destruct Hd as [<-|[<-|[<-|[<-|[<-|[<-|[<-|[<-|[<-|[<-|[]]]]]]]]]]];
    cbn; cbn in Hint; rewrite Hint; reflexivity.
Qed.

Lemma stringify_array (l : list json) :
  JSON_stringify (JArr l) = "[" +:+ stringify_elements l +:+ "]".
Proof. reflexivity. Qed.

Lemma stringify_elements_cons (x : json) (r : list json) :
  stringify_elements (x :: r)
  = JSON_stringify x
    +:+ match r with [] => "" | _ :: _ => "," +:+ stringify_elements r end.
Proof. reflexivity. Qed.

Lemma stringify_resetCode (v : json) :
  JSON_stringify (JObj [("resetCode", v)])
  = String "{" (String dquote ("resetCode" +:+
      String dquote (String ":" (JSON_stringify v +:+ "}")))).
Proof.
  cbn [JSON_stringify]. unfold quote.
  rewrite append_nil_r.
  repeat first [rewrite append_cons | rewrite append_nil_l | rewrite append_assoc].
  reflexivity.
Qed.

(** The elements of a printed array of bytes parse back, given one unit of
    fuel per element and one to spare. *)
Lemma parse_elements_bytes (buf : list byte) (fuel : nat) (rest : string) :
  buf <> [] ->
  (length buf < fuel)%nat ->
  parse_elements fuel
    (stringify_elements (map (fun b => JNum (byte_val b)) buf) +:+ String "]" rest)
  = Some (map (fun b => JNum (byte_val b)) buf, rest).
Proof.
  revert fuel. induction buf as [|b buf IH]; intros fuel Hne Hfuel; [congruence |].
  destruct fuel as [|[|fuel]]; cbn [length] in Hfuel; [lia | lia |].
  cbn [map]. rewrite stringify_elements_cons. cbn [JSON_stringify].
  destruct buf as [|b' buf].
  - cbn [map]. rewrite append_nil_r.
    cbn [parse_elements]. rewrite parse_value_byte by reflexivity.
    reflexivity.
  - cbn [map] in IH |- *.
    repeat first [rewrite append_assoc | rewrite append_cons | rewrite append_nil_l].
    change (parse_elements (S (S fuel)) ?s)
      with (match parse_value (S fuel) s with
            | None => None
            | Some (v, rest0) =>
                match skip_ws rest0 with
                | EmptyString => None
                | String c r =>
                    if Ascii.eqb c "," then
                      match parse_elements (S fuel) r with
                      | Some (vs, rest') => Some (v :: vs, rest')
                      | None => None
                      end
                    else if Ascii.eqb c "]" then Some ([v], r)
                    else None
                end
            end).
    rewrite parse_value_byte by reflexivity.
    cbn [skip_ws is_ws Ascii.eqb Bool.eqb orb].
    rewrite IH by (cbn [length] in *; first [congruence | lia]).
    reflexivity.
Qed.

Lemma length_stringify_elements (buf : list byte) :
  (length buf <= String.length
     (stringify_elements (map (fun b => JNum (byte_val b)) buf)))%nat.
Proof.
  induction buf as [|b buf IH]; [reflexivity |].
  cbn [map]. rewrite stringify_elements_cons, length_append.
  cbn [JSON_stringify]. rewrite string_of_Z_byte.
  destruct (string_of_uint_head (N.to_uint (Byte.to_N b)) (to_uint_nonnil _))
    as (c & s & d & Hs & _).
  rewrite Hs. cbn [String.length length].
  destruct buf as [|b' buf]; [cbn; lia |].
  cbn [map] in IH |- *. rewrite append_cons, append_nil_l.
  cbn [String.length length] in IH |- *. lia.
Qed.

(** [JSON.parse(JSON.stringify({ resetCode: [...buf] }))] is the object
    again. *)
Lemma parse_stringify_resetCode (buf : list byte) :
  JSON_parse (JSON_stringify (JObj [("resetCode", array_of_buffer buf)]))
  = Some (JObj [("resetCode", array_of_buffer buf)]).
Proof.
  unfold JSON_parse, array_of_buffer.
  rewrite stringify_resetCode, stringify_array.
  set (js := map (fun b => JNum (byte_val b)) buf).
  repeat first [rewrite append_cons | rewrite append_nil_l | rewrite append_assoc].
  cbn [String.length]. rewrite !length_append. cbn [String.length].
  pose proof (length_stringify_elements buf) as Hlen. fold js in Hlen.
  set (n := String.length (stringify_elements js)) in *.
  match goal with
  | |- context [parse_value ?f _] =>
      replace f with (S (S (S (n + 14)))) by lia
  end.
  cbn -[stringify_elements Nat.add].
  destruct buf as [|b buf]; [reflexivity |].
  assert (Hel : parse_elements (n + 14)
                  (stringify_elements js +:+ String "]" (String "}" ""))
                = Some (js, String "}" "")).
  { subst js. apply parse_elements_bytes; [discriminate |]. lia. }
  assert (Hhead : exists c s d,
            stringify_elements js +:+ String "]" (String "}" "") = String c s
            /\ digit c = Some d).
  { subst js. cbn [map]. rewrite stringify_elements_cons.
    cbn [JSON_stringify]. rewrite string_of_Z_byte.
    destruct (string_of_uint_head (N.to_uint (Byte.to_N b)) (to_uint_nonnil _))
      as (c & s & d & Hs & Hd).
    rewrite Hs. exists c. eexists. exists d.
    split; [| exact Hd]. rewrite append_assoc, append_cons. reflexivity. }
  destruct Hhead as (c & s & d & Hs & Hd).
  rewrite Hs. apply digit_char in Hd. cbn in Hd.
  destruct Hd as [<-|[<-|[<-|[<-|[<-|[<-|[<-|[<-|[<-|[<-|[]]]]]]]]]]];
    cbn -[stringify_elements Nat.add]; rewrite <- Hs, Hel; reflexivity.
Qed.

(** ** The pairing store *)

Lemma is_hex_not_colon (c : ascii) : is_hex c = true -> Ascii.eqb c ":" = false.
Proof.
  intros H. destruct (Ascii.eqb_spec c ":") as [->|_]; [discriminate H | reflexivity].
Qed.

(** An address accepted by the regular expression is [n + 1] pairs of
    hexadecimal digits: stripping the colons leaves the digits. *)
Lemma hex_pairs_replace_colon (n : nat) (s : string) :
  hex_pairs n s = true ->
  String.length (replace_colon s) = (2 * S n)%nat
  /\ Forall (fun c => is_hex c = true /\ c <> ":"%char)
       (list_ascii_of_string (replace_colon s)).
Proof.
  revert s. induction n as [|n IH]; intros s H;
    destruct s as [|a [|b r]]; try discriminate H;
    cbn [hex_pairs] in H;
    apply andb_prop in H; destruct H as [Hab Hr];
    apply andb_prop in Hab; destruct Hab as [Ha Hb];
    cbn [replace_colon];
    rewrite (is_hex_not_colon a Ha), (is_hex_not_colon b Hb).
  - destruct r; [| discriminate Hr]. split; [reflexivity |].
    repeat constructor; try assumption; intros ->; discriminate.
  - destruct r as [|c r]; [discriminate Hr |].
    apply andb_prop in Hr. destruct Hr as [Hc Hr].
    apply Ascii.eqb_eq in Hc. subst c.
    cbn [replace_colon Ascii.eqb Bool.eqb]. cbn.
    destruct (IH r Hr) as [Hlen Hall]. split; [rewrite Hlen; lia |].
    repeat constructor; try assumption; intros ->; discriminate.
Qed.

Lemma readPairingInfo_found (cfg : config) (address text : string) (w : world) :
  files w !! pairingFilename address = Some text ->
  readPairingInfo cfg address w
  = (match JSON_parse text with
     | Some v => Return v
     | None => Throw SyntaxError
     end,
     extend w (logged cfg 2 (MsgReading (pairingFilename address))
               ++ [ReadFile (pairingFilename address)])).
Proof.
  intros Hf. unfold readPairingInfo. run.
  rewrite files_extend, Hf. cbv iota beta.
  destruct (JSON_parse text); reflexivity.
Qed.

(** Removing the colons, as the specification words it. *)
Lemma replace_colon_strip (s : string) : replace_colon s = strip_separators s.
Proof.
  unfold strip_separators. induction s as [|c s IH]; [reflexivity |].
  cbn [replace_colon list_ascii_of_string List.filter].
  destruct (Ascii.eqb c ":"); cbn [negb]; [exact IH |].
  cbn [string_of_list_ascii]. rewrite IH. reflexivity.
Qed.

(** An address accepted by the regular expression is made of pairs of
    hexadecimal digits with colons between them, and without its colons it
    is these digits. *)
Lemma hex_pairs_shape (n : nat) (s : string) :
  hex_pairs n s = true ->
  exists pairs : list (ascii * ascii),
    length pairs = S n
    /\ Forall (fun p => is_hex (fst p) = true /\ is_hex (snd p) = true) pairs
    /\ s = colon_hex pairs
    /\ replace_colon s = hex_digits pairs.
Proof.
  revert s. induction n as [|n IH]; intros s H;
    destruct s as [|a [|b r]]; try discriminate H;
    cbn [hex_pairs] in H;
    apply andb_prop in H; destruct H as [Hab Hr];
    apply andb_prop in Hab; destruct Hab as [Ha Hb];
    cbn [replace_colon];
    rewrite (is_hex_not_colon a Ha), (is_hex_not_colon b Hb).
  - destruct r; [| discriminate Hr]. exists [(a, b)].
    repeat split; repeat constructor; assumption.
  - destruct r as [|c r]; [discriminate Hr |].
    apply andb_prop in Hr. destruct Hr as [Hc Hr].
    apply Ascii.eqb_eq in Hc. subst c.
    destruct (IH r Hr) as (pairs & Hlen & Hall & Hs & Hd).
    exists ((a, b) :: pairs).
    split; [cbn [length]; rewrite Hlen; reflexivity |].
    split; [constructor; [split; assumption | exact Hall] |].
    split.
    + cbn [colon_hex]. destruct pairs as [|p pairs]; [discriminate Hlen |].
      rewrite Hs. reflexivity.
    + change (replace_colon (String ":" r)) with (replace_colon r).
      rewrite Hd. reflexivity.
Qed.

(** C6.  Saving a reset code for an address and loading it again returns
    the same bytes, for every reset code (of four bytes or not) and every
    address accepted by the program's regular expression.  Both operations
    use the file [pairingFilename] names, and that name is ["pairing-"],
    the address with its colons stripped, [".json"]: the address is six
    pairs of hexadecimal digits with colons between them and the name holds
    these twelve digits in the same order, so two such addresses that
    differ have different files.  Loading depends on nothing but that
    file. *)
Theorem save_load_round_trip
  (other : json -> option (list byte)) (cfg : config)
  (addr : string) (cred : list byte) (w : world) :
  let key := "pairing-" +:+ strip_separators addr +:+ ".json" in
  let data := JSON_stringify (JObj [("resetCode", array_of_buffer cred)]) in
  let saved := snd (writePairingInfo cfg addr (array_of_buffer cred) w) in
  let load := readPairingInfo cfg addr
              ≫= fun v => get_resetCode v ≫= fun x => Buffer_from other x in
  address_regex addr = true ->
  pairingFilename addr = key
  /\ (exists pairs : list (ascii * ascii),
        length pairs = 6%nat
        /\ Forall (fun p => is_hex (fst p) = true /\ is_hex (snd p) = true) pairs
        /\ addr = colon_hex pairs
        /\ key = "pairing-" +:+ hex_digits pairs +:+ ".json")
  /\ (forall addr', address_regex addr' = true ->
        pairingFilename addr' = key -> addr' = addr)
  /\ (String.length (strip_separators addr) = 12%nat
      /\ Forall (fun c => is_hex c = true /\ c <> ":"%char)
           (list_ascii_of_string (strip_separators addr)))
  /\ files saved = <[key := data]> (files w)
  /\ trace saved = trace w ++ logged cfg 2 (MsgWriting data key) ++ [WriteFile key data]
  /\ fst (load saved) = Return cred
  /\ (forall w', files w' !! key = Some data ->
        fst (load w') = Return cred
        /\ trace (snd (load w'))
           = trace w' ++ logged cfg 2 (MsgReading key) ++ [ReadFile key]).
Proof.
  intros key data saved load Haddr.
  assert (Hkey : pairingFilename addr = key).
  { unfold pairingFilename. rewrite replace_colon_strip. reflexivity. }
  assert (Hload : forall w', files w' !! key = Some data ->
            load w' = (Return cred,
                       extend w' (logged cfg 2 (MsgReading key) ++ [ReadFile key]))).
  { intros w' Hf. subst load. rewrite run_bind. rewrite <- Hkey in Hf |- *.
    rewrite (readPairingInfo_found cfg addr data w' Hf).
    subst data. rewrite parse_stringify_resetCode.
    cbv iota beta. unfold get_resetCode.
    change (lookup_member "resetCode" [("resetCode", array_of_buffer cred)])
      with (Some (array_of_buffer cred)).
    run. rewrite Buffer_from_array. reflexivity. }
  split; [exact Hkey |]. split.
  { destruct (hex_pairs_shape 5 addr Haddr) as (pairs & Hlen & Hall & Hs & Hd).
    exists pairs. split; [exact Hlen |]. split; [exact Hall |].
    split; [exact Hs |]. subst key. rewrite <- replace_colon_strip, Hd.
    reflexivity. }
  split.
  { intros addr' Haddr' Hsame. rewrite <- Hkey in Hsame.
    destruct (hex_pairs_shape 5 addr Haddr) as (p & Hlen & _ & Hs & Hd).
    destruct (hex_pairs_shape 5 addr' Haddr') as (p' & Hlen' & _ & Hs' & Hd').
    unfold pairingFilename in Hsame. rewrite Hd, Hd' in Hsame.
    subst addr addr'. clear -Hlen Hlen' Hsame.
    do 7 (destruct p as [|[? ?] p]; try discriminate Hlen).
    do 7 (destruct p' as [|[? ?] p']; try discriminate Hlen').
    cbn in Hsame. injection Hsame as -> -> -> -> -> -> -> -> -> -> -> ->.
    reflexivity. }
  split.
  { rewrite <- replace_colon_strip. apply (hex_pairs_replace_colon 5 addr Haddr). }
  assert (Hsaved : saved
                   = {| files := <[key := data]> (files w);
                        trace := trace w ++ logged cfg 2 (MsgWriting data key)
                                 ++ [WriteFile key data] |}).
  { subst saved. unfold writePairingInfo. rewrite Hkey. run.
    cbn [snd files trace extend]. rewrite <- app_assoc. reflexivity. }
  split; [rewrite Hsaved; reflexivity |].
  split; [rewrite Hsaved; reflexivity |]. split.
  - rewrite Hload; [reflexivity |]. rewrite Hsaved. apply lookup_insert_eq.
  - intros w' Hf. rewrite (Hload w' Hf). split; reflexivity.
Qed.

(** The address [90:fd:9f:12:34:56] and the reset code [01 02 03 04]. *)
Lemma save_load_round_trip_witness :
  let cfg := Sample.read_once in
  let addr := Sample.addr in
  let cred := [x01; x02; x03; x04] in
  let key := "pairing-90fd9f123456.json" in
  let data := JSON_stringify (JObj [("resetCode", array_of_buffer cred)]) in
  let saved := snd (writePairingInfo cfg addr (array_of_buffer cred) (start ∅)) in
  let load := readPairingInfo cfg addr
              ≫= fun v => get_resetCode v ≫= fun x => Buffer_from Sample.no_other x in
  pairingFilename addr = key
  /\ (exists pairs : list (ascii * ascii),
        length pairs = 6%nat
        /\ Forall (fun p => is_hex (fst p) = true /\ is_hex (snd p) = true) pairs
        /\ addr = colon_hex pairs
        /\ key = "pairing-" +:+ hex_digits pairs +:+ ".json")
  /\ (forall addr', address_regex addr' = true ->
        pairingFilename addr' = key -> addr' = addr)
  /\ (String.length (strip_separators addr) = 12%nat
      /\ Forall (fun c => is_hex c = true /\ c <> ":"%char)
           (list_ascii_of_string (strip_separators addr)))
  /\ files saved = <[key := data]> (files (start ∅))
  /\ trace saved
     = trace (start ∅) ++ logged cfg 2 (MsgWriting data key) ++ [WriteFile key data]
  /\ fst (load saved) = Return cred
  /\ (forall w', files w' !! key = Some data ->
        fst (load w') = Return cred
        /\ trace (snd (load w'))
           = trace w' ++ logged cfg 2 (MsgReading key) ++ [ReadFile key]).
Proof.
  exact (save_load_round_trip Sample.no_other Sample.read_once Sample.addr
           [x01; x02; x03; x04] (start ∅) eq_refl).
Defined.

(** ** A whole scenario *)

(** A device in pairing mode is paired by a first run, which stores the
    reset code it was given; a second run, the pairing window closed,
    authenticates with the stored code and prints one reading. *)
Example pair_then_read :
  let first := discover Sample.no_other Sample.read_once
                 (Peripheral Sample.adv_pairing (Sample.thermostat Sample.packet_80))
                 1 (start ∅) in
  let second := discover Sample.no_other Sample.read_once
                  (Peripheral Sample.adv_normal (Sample.thermostat Sample.packet_80))
                  1 (start (files (snd first))) in
  fst first = Exit 0
  /\ fst second = Exit 0
  /\ List.filter is_file_write (trace (snd second)) = []
  /\ In (CharWrite RESET_CHAR_UUID [x0a; x0b; x0c; x0d] false) (trace (snd second))
  /\ readings (trace (snd second))
     = [ {| Telemetry.address := Sample.addr;
            Telemetry.deviceName := "Liv";
            Telemetry.relayIsOn := true;
            Telemetry.roomTemperature := 20.5%float;
            Telemetry.targetTemperature := 19.5%float;
            Telemetry.timestamp := 1640954096789 |} ].
Proof.
  repeat split; try (vm_compute; reflexivity).
  vm_compute. tauto.
Qed.

(** * Further properties *)

(** ** The command line *)

Import CommandLine.

Lemma lower_idem (c : ascii) : lower (lower c) = lower c.
Proof. destruct c as [[] [] [] [] [] [] [] []]; reflexivity. Qed.

Lemma toLowerCase_idem (s : string) : toLowerCase (toLowerCase s) = toLowerCase s.
Proof.
  induction s as [|c s IH]; [reflexivity |].
  cbn [toLowerCase]. rewrite lower_idem, IH. reflexivity.
Qed.

(** An address is never mistaken for an option. *)
Lemma address_not_flag (a : string) :
  address_regex (toLowerCase a) = true -> ~ is_flag a.
Proof.
  intros H [->|[->|[->| ->]]]; vm_compute in H; discriminate H.
Qed.

Ltac count_flags :=
  cbn [count_occ];
  repeat match goal with
         | |- context [string_dec ?x ?y] =>
             destruct (string_dec x y);
             try (exfalso; first [congruence | tauto])
         end;
  try lia.

(** What one run of the loop does to the variables. *)
Lemma parse_loop_spec (n : nat) :
  forall (args : list string) (v v' : vars),
    (length args <= n)%nat ->
    parse_loop args v = Parsed v' ->
    Forall recognized args
    /\ verbose v' = verbose v + Z.of_nat (count_occ string_dec args "--verbose")
    /\ (keep v' = true <-> keep v = true \/ In "--keep-reading" args)
    /\ (count_occ string_dec args "--read" + count_occ string_dec args "--scan"
        + match mode v with Some _ => 1 | None => 0 end
        = match mode v' with Some _ => 1 | None => 0 end)%nat
    /\ (mode v = None ->
        (mode v' = Some READ <-> In "--read" args)
        /\ (mode v' = Some READ ->
            exists pre a post,
              args = pre ++ "--read" :: a :: post
              /\ target v' = Some (toLowerCase a)
              /\ address_regex (toLowerCase a) = true))
    /\ (mode v <> None -> mode v' = mode v /\ target v' = target v).
Proof.
  induction n as [|n IH]; intros args v v' Hlen Hrun.
  - destruct args; [| cbn in Hlen; lia]. cbn in Hrun. injection Hrun as <-.
    cbn. rewrite Z.add_0_r. destruct (mode v); repeat split; auto;
      try tauto; try discriminate; try (intros [? | []]; assumption);
      intros; congruence.
  - destruct args as [|arg rest].
    { cbn in Hrun. injection Hrun as <-.
      cbn. rewrite Z.add_0_r. destruct (mode v); repeat split; auto;
        try tauto; try discriminate; try (intros [? | []]; assumption);
        intros; congruence. }
    cbn [length] in Hlen. cbn [parse_loop] in Hrun.
    destruct (String.eqb_spec arg "--read") as [->|Hread].
    { destruct rest as [|a rest']; [discriminate Hrun |].
      cbn zeta in Hrun.
      destruct (address_regex (toLowerCase a)) eqn:Haddr; [| discriminate Hrun].
      cbn [negb] in Hrun.
      destruct (mode v) as [m|] eqn:Hmode; [discriminate Hrun |].
      cbn in Hrun.
      pose proof (address_not_flag a Haddr) as Hnf. unfold is_flag in Hnf.
      apply IH in Hrun; [| cbn [length] in Hlen; lia].
      destruct Hrun as (Hrec & Hverb & Hkeep & Hcount & _ & Hset).
      cbn [mode target verbose keep] in *.
      destruct (Hset ltac:(discriminate)) as [Hm Ht].
      split; [| split; [| split; [| split; [| split]]]].
      - constructor; [left; left; reflexivity |].
        constructor; [right; exact Haddr | exact Hrec].
      - rewrite Hverb. count_flags.
      - rewrite Hkeep. cbn [In]. split; [tauto |].
        intros [H|[H|[H|H]]]; first [tauto | discriminate H].
      - rewrite Hm in *. rewrite <- Hcount. count_flags.
      - intros _. rewrite Hm. split.
        + split; [intros _; left; reflexivity | reflexivity].
        + intros _. exists [], a, rest'. rewrite Ht. auto.
      - intros H. congruence. }
    destruct (String.eqb_spec arg "--keep-reading") as [->|Hkeepa].
    { apply IH in Hrun; [| lia].
      destruct Hrun as (Hrec & Hverb & Hkeep & Hcount & Hnone & Hset).
      cbn [mode target verbose keep] in *.
      split; [| split; [| split; [| split; [| split]]]].
      - constructor; [left; right; right; left; reflexivity | exact Hrec].
      - rewrite Hverb. count_flags.
      - rewrite Hkeep. cbn [In]. tauto.
      - rewrite <- Hcount. count_flags.
      - intros Hn. destruct (Hnone Hn) as [Hiff Hex]. split.
        + rewrite Hiff. cbn [In]. split; [tauto |].
          intros [H|H]; [discriminate H | exact H].
        + intros Hm. destruct (Hex Hm) as (pre & a & post & -> & Hrest).
          exists ("--keep-reading" :: pre), a, post. auto.
      - exact Hset. }
    destruct (String.eqb_spec arg "--scan") as [->|Hscan].
    { destruct (mode v) as [m|] eqn:Hmode; [discriminate Hrun |].
      cbn in Hrun. apply IH in Hrun; [| lia].
      destruct Hrun as (Hrec & Hverb & Hkeep & Hcount & _ & Hset).
      cbn [mode target verbose keep] in *.
      destruct (Hset ltac:(discriminate)) as [Hm Ht].
      split; [| split; [| split; [| split; [| split]]]].
      - constructor; [left; right; left; reflexivity | exact Hrec].
      - rewrite Hverb. count_flags.
      - rewrite Hkeep. cbn [In]. split; [tauto |].
        intros [H|[H|H]]; first [tauto | discriminate H].
      - rewrite Hm in *. rewrite <- Hcount. count_flags.
      - intros _. rewrite Hm. split.
        + split; [discriminate |]. intros [H|H]; [discriminate H |].
          exfalso. apply (count_occ_In string_dec) in H.
          rewrite Hm in Hcount. lia.
        + discriminate.
      - intros H. congruence. }
    destruct (String.eqb_spec arg "--verbose") as [->|Hverbose];
      [| discriminate Hrun].
    apply IH in Hrun; [| lia].
    destruct Hrun as (Hrec & Hverb & Hkeep & Hcount & Hnone & Hset).
    cbn [mode target verbose keep] in *.
    split; [| split; [| split; [| split; [| split]]]].
    + constructor; [left; right; right; right; reflexivity | exact Hrec].
    + rewrite Hverb. count_flags.
    + rewrite Hkeep. cbn [In]. split; [tauto |].
      intros [H|[H|H]]; first [tauto | discriminate H].
    + rewrite <- Hcount. count_flags.
    + intros Hn. destruct (Hnone Hn) as [Hiff Hex]. split.
      * rewrite Hiff. cbn [In]. split; [tauto |].
        intros [H|H]; [discriminate H | exact H].
      * intros Hm. destruct (Hex Hm) as (pre & a & post & -> & Hrest).
        exists ("--verbose" :: pre), a, post. auto.
    + exact Hset.
Qed.

(** Arguments are consumed from left to right: once a prefix has been read,
    the rest is read from the variables it left. *)
Lemma parse_loop_app (n : nat) :
  forall (pre suf : list string) (v v' : vars),
    (length pre <= n)%nat ->
    parse_loop pre v = Parsed v' ->
    parse_loop (pre ++ suf) v = parse_loop suf v'.
Proof.
  induction n as [|n IH]; intros pre suf v v' Hlen Hrun.
  - destruct pre; [| cbn in Hlen; lia]. cbn in Hrun.
    injection Hrun as <-. reflexivity.
  - destruct pre as [|arg rest];
      [cbn in Hrun; injection Hrun as <-; reflexivity |].
    cbn [length] in Hlen. cbn [parse_loop app] in Hrun |- *.
    destruct (String.eqb arg "--read").
    { destruct rest as [|a rest']; [discriminate Hrun |].
      cbn [app]. cbn zeta in Hrun |- *.
      destruct (negb (address_regex (toLowerCase a))); [discriminate Hrun |].
      destruct (bool_decide (is_Some (mode v))); [discriminate Hrun |].
      apply IH; [cbn [length] in Hlen; lia | exact Hrun]. }
    destruct (String.eqb arg "--keep-reading"); [apply IH; [lia | exact Hrun] |].
    destruct (String.eqb arg "--scan").
    { destruct (bool_decide (is_Some (mode v))); [discriminate Hrun |].
      apply IH; [lia | exact Hrun]. }
    destruct (String.eqb arg "--verbose"); [| discriminate Hrun].
    apply IH; [lia | exact Hrun].
Qed.

(** X1.  When the arguments are accepted, exactly one of [--read] and
    [--scan] was given, the mode is READ exactly when it was [--read], the
    verbosity is the number of [--verbose], continuous reading is on
    exactly when [--keep-reading] was given, and every argument is an
    option or an address. *)
Theorem parse_args_flags (args : list string) (cfg : config) :
  parse_args args = Parsed cfg ->
  (count_occ string_dec args "--read" + count_occ string_dec args "--scan" = 1)%nat
  /\ (cfg_mode cfg = READ <-> In "--read" args)
  /\ verbosity cfg = Z.of_nat (count_occ string_dec args "--verbose")
  /\ (keepReading cfg = true <-> In "--keep-reading" args)
  /\ Forall recognized args.
Proof.
  unfold parse_args. intros H.
  destruct (parse_loop args initial) as [v| |e] eqn:Hrun; try discriminate H.
  destruct (mode v) as [m|] eqn:Hm; [| discriminate H].
  injection H as <-. cbn [cfg_mode verbosity keepReading].
  destruct (parse_loop_spec (length args) args initial v (le_n _) Hrun)
    as (Hrec & Hverb & Hkeep & Hcount & Hnone & _).
  cbn [mode verbose keep initial] in *. rewrite Hm in *.
  destruct (Hnone eq_refl) as [Hiff _].
  split; [lia |]. split; [| split; [lia | split; [| exact Hrec]]].
  - rewrite <- Hiff. split; congruence.
  - rewrite Hkeep. split; [intros [H|H]; [discriminate H | exact H] | tauto].
Qed.

Lemma parse_args_flags_witness :
  let args := ["--verbose"; "--read"; "90:FD:9F:12:34:56"; "--keep-reading"] in
  (count_occ string_dec args "--read" + count_occ string_dec args "--scan" = 1)%nat
  /\ (cfg_mode (Config READ Sample.addr 1 true) = READ <-> In "--read" args)
  /\ verbosity (Config READ Sample.addr 1 true)
     = Z.of_nat (count_occ string_dec args "--verbose")
  /\ (keepReading (Config READ Sample.addr 1 true) = true
      <-> In "--keep-reading" args)
  /\ Forall recognized args.
Proof.
  exact (parse_args_flags
           ["--verbose"; "--read"; "90:FD:9F:12:34:56"; "--keep-reading"]
           (Config READ Sample.addr 1 true) eq_refl).
Defined.

(** X2.  In read mode the target address is the argument that follows
    [--read], in lower case, and it matches the address pattern: six pairs
    of hexadecimal digits separated by colons. *)
Theorem parse_args_target (args : list string) (cfg : config) :
  parse_args args = Parsed cfg ->
  cfg_mode cfg = READ ->
  address_regex (targetDeviceAddress cfg) = true
  /\ toLowerCase (targetDeviceAddress cfg) = targetDeviceAddress cfg
  /\ exists pre a post,
       args = pre ++ "--read" :: a :: post
       /\ targetDeviceAddress cfg = toLowerCase a.
Proof.
  unfold parse_args. intros H Hmode.
  destruct (parse_loop args initial) as [v| |e] eqn:Hrun; try discriminate H.
  destruct (mode v) as [m|] eqn:Hm; [| discriminate H].
  injection H as <-. cbn [cfg_mode targetDeviceAddress] in *. subst m.
  destruct (parse_loop_spec (length args) args initial v (le_n _) Hrun)
    as (_ & _ & _ & _ & Hnone & _).
  destruct (Hnone eq_refl) as [_ Hex].
  destruct (Hex Hm) as (pre & a & post & Hargs & Ht & Haddr).
  rewrite Ht. cbn [default from_option].
  split; [exact Haddr |]. split; [apply toLowerCase_idem |].
  exists pre, a, post. split; [exact Hargs | reflexivity].
Qed.

Lemma parse_args_target_witness :
  address_regex (targetDeviceAddress (Config READ Sample.addr 1 true)) = true
  /\ toLowerCase (targetDeviceAddress (Config READ Sample.addr 1 true))
     = targetDeviceAddress (Config READ Sample.addr 1 true)
  /\ exists pre a post,
       ["--verbose"; "--read"; "90:FD:9F:12:34:56"; "--keep-reading"]
       = pre ++ "--read" :: a :: post
       /\ targetDeviceAddress (Config READ Sample.addr 1 true) = toLowerCase a.
Proof.
  exact (parse_args_target
           ["--verbose"; "--read"; "90:FD:9F:12:34:56"; "--keep-reading"]
           (Config READ Sample.addr 1 true) eq_refl eq_refl).
Defined.

(** Once [usage()] was called, what follows on the command line does not
    matter. *)
Lemma parse_loop_usage_app (n : nat) :
  forall (pre suf : list string) (v : vars),
    (length pre <= n)%nat ->
    parse_loop pre v = Usage ->
    parse_loop (pre ++ suf) v = Usage.
Proof.
  induction n as [|n IH]; intros pre suf v Hlen Hrun.
  - destruct pre; [discriminate Hrun | cbn in Hlen; lia].
  - destruct pre as [|arg rest]; [discriminate Hrun |].
    cbn [length] in Hlen. cbn [parse_loop app] in Hrun |- *.
    destruct (String.eqb arg "--read").
    { destruct rest as [|a rest']; [discriminate Hrun |].
      cbn [app]. cbn zeta in Hrun |- *.
      destruct (negb (address_regex (toLowerCase a))); [reflexivity |].
      destruct (bool_decide (is_Some (mode v))); [reflexivity |].
      apply IH; [cbn [length] in Hlen; lia | exact Hrun]. }
    destruct (String.eqb arg "--keep-reading"); [apply IH; [lia | exact Hrun] |].
    destruct (String.eqb arg "--scan").
    { destruct (bool_decide (is_Some (mode v))); [reflexivity |].
      apply IH; [lia | exact Hrun]. }
    destruct (String.eqb arg "--verbose"); [| reflexivity].
    apply IH; [lia | exact Hrun].
Qed.

(** The loop only dies at a final [--read]; one more [--read] is then
    taken for its address, which it is not. *)
Lemma parse_loop_died_read (n : nat) :
  forall (pre : list string) (v : vars) (e : error),
    (length pre <= n)%nat ->
    parse_loop pre v = Died e ->
    parse_loop (pre ++ ["--read"]) v = Usage.
Proof.
  induction n as [|n IH]; intros pre v e Hlen Hrun.
  - destruct pre; [discriminate Hrun | cbn in Hlen; lia].
  - destruct pre as [|arg rest]; [discriminate Hrun |].
    cbn [length] in Hlen. cbn [parse_loop app] in Hrun |- *.
    destruct (String.eqb arg "--read").
    { destruct rest as [|a rest']; [reflexivity |].
      cbn [app]. cbn zeta in Hrun |- *.
      destruct (negb (address_regex (toLowerCase a))); [reflexivity |].
      destruct (bool_decide (is_Some (mode v))); [reflexivity |].
      apply (IH _ _ e); [cbn [length] in Hlen; lia | exact Hrun]. }
    destruct (String.eqb arg "--keep-reading");
      [apply (IH _ _ e); [lia | exact Hrun] |].
    destruct (String.eqb arg "--scan").
    { destruct (bool_decide (is_Some (mode v))); [reflexivity |].
      apply (IH _ _ e); [lia | exact Hrun]. }
    destruct (String.eqb arg "--verbose"); [| reflexivity].
    apply (IH _ _ e); [lia | exact Hrun].
Qed.

(** X3.  A command line that ends in [--read], with no address after it,
    ends in one of two ways.  When the arguments before it are read
    without complaint, it does not print the usage: taking [toLowerCase]
    of the missing argument throws a TypeError, which ends the process
    through [dieOnError].  When they are not, it prints the usage, as
    without the final [--read] or, the arguments before it ending in
    [--read] themselves, because [--read] is not an address.  More
    generally the rest of a command line is read from the variables an
    accepted prefix left. *)
Theorem read_without_address (pre : list string) :
  parse_args (pre ++ ["--read"])
  = match parse_loop pre initial with
    | Parsed _ => Died TypeError
    | Usage | Died _ => Usage
    end
  /\ forall v, parse_loop pre initial = Parsed v ->
       forall suf, parse_loop (pre ++ suf) initial = parse_loop suf v.
Proof.
  split.
  - unfold parse_args.
    destruct (parse_loop pre initial) as [v| |e] eqn:Hrun.
    + rewrite (parse_loop_app (length pre) pre ["--read"] initial v (le_n _) Hrun).
      reflexivity.
    + rewrite (parse_loop_usage_app (length pre) pre ["--read"] initial (le_n _) Hrun).
      reflexivity.
    + rewrite (parse_loop_died_read (length pre) pre initial e (le_n _) Hrun).
      reflexivity.
  - intros v Hrun suf.
    apply (parse_loop_app (length pre)); [apply le_n | exact Hrun].
Qed.

(** After [--verbose --scan] the process dies; after [--bogus], and after
    another [--read], it prints the usage. *)
Lemma read_without_address_witness :
  parse_args (["--verbose"; "--scan"] ++ ["--read"]) = Died TypeError
  /\ parse_args (["--bogus"] ++ ["--read"]) = Usage
  /\ parse_args (["--read"] ++ ["--read"]) = Usage
  /\ forall suf,
       parse_loop (["--verbose"; "--scan"] ++ suf) initial
       = parse_loop suf (Vars (Some SCAN) None 1 false).
Proof.
  split; [exact (proj1 (read_without_address ["--verbose"; "--scan"])) |].
  split; [exact (proj1 (read_without_address ["--bogus"])) |].
  split; [exact (proj1 (read_without_address ["--read"])) |].
  exact (proj2 (read_without_address ["--verbose"; "--scan"])
           (Vars (Some SCAN) None 1 false) eq_refl).
Defined.

(** ** The pairing store, continued *)

Lemma replace_colon_hex (a b : ascii) (r : string) :
  is_hex a = true -> is_hex b = true ->
  replace_colon (String a (String b r)) = String a (String b (replace_colon r)).
Proof.
  intros Ha Hb. cbn [replace_colon].
  rewrite (is_hex_not_colon a Ha), (is_hex_not_colon b Hb). reflexivity.
Qed.

(** On addresses of the same shape, stripping the colons loses nothing. *)
Lemma replace_colon_inj (n : nat) (a b : string) :
  hex_pairs n a = true -> hex_pairs n b = true ->
  replace_colon a = replace_colon b -> a = b.
Proof.
  revert a b. induction n as [|n IH]; intros a b Ha Hb Heq;
    destruct a as [|a1 [|a2 ra]]; try discriminate Ha;
    destruct b as [|b1 [|b2 rb]]; try discriminate Hb;
    cbn [hex_pairs] in Ha, Hb;
    apply andb_prop in Ha; destruct Ha as [Ha12 Hra];
    apply andb_prop in Ha12; destruct Ha12 as [Ha1 Ha2];
    apply andb_prop in Hb; destruct Hb as [Hb12 Hrb];
    apply andb_prop in Hb12; destruct Hb12 as [Hb1 Hb2];
    rewrite (replace_colon_hex a1 a2 ra Ha1 Ha2) in Heq;
    rewrite (replace_colon_hex b1 b2 rb Hb1 Hb2) in Heq;
    injection Heq as -> -> Heq.
  - destruct ra; [| discriminate Hra]. destruct rb; [| discriminate Hrb].
    reflexivity.
  - destruct ra as [|ca ra]; [discriminate Hra |].
    destruct rb as [|cb rb]; [discriminate Hrb |].
    apply andb_prop in Hra. destruct Hra as [Hca Hra].
    apply andb_prop in Hrb. destruct Hrb as [Hcb Hrb].
    apply Ascii.eqb_eq in Hca, Hcb. subst ca cb.
    cbn [replace_colon Ascii.eqb Bool.eqb] in Heq.
    change (replace_colon ra = replace_colon rb) in Heq.
    rewrite (IH ra rb Hra Hrb Heq). reflexivity.
Qed.

Lemma append_cancel_r (x y s : string) :
  String.length x = String.length y -> x +:+ s = y +:+ s -> x = y.
Proof.
  revert y. induction x as [|c x IH]; intros [|d y] Hlen H;
    try discriminate Hlen; [reflexivity |].
  rewrite !append_cons in H. injection H as -> H.
  cbn [String.length] in Hlen. rewrite (IH y) by (first [lia | exact H]).
  reflexivity.
Qed.

Lemma pairingFilename_inj (a b : string) :
  address_regex a = true -> address_regex b = true ->
  pairingFilename a = pairingFilename b -> a = b.
Proof.
  intros Ha Hb H. unfold pairingFilename in H.
  apply (String.app_inj "pairing-") in H.
  apply (replace_colon_inj 5 a b Ha Hb).
  apply (append_cancel_r _ _ ".json"); [| exact H].
  destruct (hex_pairs_replace_colon 5 a Ha) as [-> _].
  destruct (hex_pairs_replace_colon 5 b Hb) as [-> _]. reflexivity.
Qed.

(** What reading the pairing information returns depends on the file
    alone. *)
Lemma readPairingInfo_result (cfg : config) (address : string) (w : world) :
  fst (readPairingInfo cfg address w)
  = match files w !! pairingFilename address with
    | Some text =>
        match JSON_parse text with
        | Some v => Return v
        | None => Throw SyntaxError
        end
    | None => Throw ENOENT
    end.
Proof.
  destruct (files w !! pairingFilename address) as [text|] eqn:Hf.
  - rewrite (readPairingInfo_found cfg address text w Hf). reflexivity.
  - rewrite (readPairingInfo_missing cfg address w Hf). reflexivity.
Qed.

Lemma files_writePairingInfo (cfg : config) (address : string) (resetCode : json)
  (w : world) :
  files (snd (writePairingInfo cfg address resetCode w))
  = <[pairingFilename address :=
        JSON_stringify (JObj [("resetCode", resetCode)])]> (files w).
Proof. unfold writePairingInfo. run. reflexivity. Qed.

(** X4.  Two different addresses of the accepted form never share a
    pairing file, so pairing one device leaves the record of another as it
    was: the file is untouched and reading it gives the same result. *)
Theorem pairing_files_are_separate
  (cfg : config) (a b : string) (resetCode : json) (w : world) :
  address_regex a = true ->
  address_regex b = true ->
  a <> b ->
  pairingFilename a <> pairingFilename b
  /\ files (snd (writePairingInfo cfg a resetCode w)) !! pairingFilename b
     = files w !! pairingFilename b
  /\ fst (readPairingInfo cfg b (snd (writePairingInfo cfg a resetCode w)))
     = fst (readPairingInfo cfg b w).
Proof.
  intros Ha Hb Hab.
  assert (Hne : pairingFilename a <> pairingFilename b)
    by (intros H; apply Hab, (pairingFilename_inj a b Ha Hb H)).
  assert (Hfiles : files (snd (writePairingInfo cfg a resetCode w)) !! pairingFilename b
                   = files w !! pairingFilename b).
  { rewrite files_writePairingInfo. apply lookup_insert_ne, Hne. }
  split; [exact Hne |]. split; [exact Hfiles |].
  rewrite !readPairingInfo_result, Hfiles. reflexivity.
Qed.

Lemma pairing_files_are_separate_witness :
  pairingFilename "90:fd:9f:12:34:56" <> pairingFilename "90:fd:9f:12:34:57"
  /\ files (snd (writePairingInfo Sample.read_once "90:fd:9f:12:34:56"
                   (array_of_buffer [x01; x02; x03; x04]) (start Sample.paired)))
       !! pairingFilename "90:fd:9f:12:34:57"
     = files (start Sample.paired) !! pairingFilename "90:fd:9f:12:34:57"
  /\ fst (readPairingInfo Sample.read_once "90:fd:9f:12:34:57"
            (snd (writePairingInfo Sample.read_once "90:fd:9f:12:34:56"
                    (array_of_buffer [x01; x02; x03; x04]) (start Sample.paired))))
     = fst (readPairingInfo Sample.read_once "90:fd:9f:12:34:57" (start Sample.paired)).
Proof.
  apply (pairing_files_are_separate Sample.read_once
           "90:fd:9f:12:34:56" "90:fd:9f:12:34:57"
           (array_of_buffer [x01; x02; x03; x04]) (start Sample.paired));
    [reflexivity | reflexivity | discriminate].
Defined.

(** X5.  Pairing again replaces the record: after two saves for the same
    address the files are as if only the second had happened, and loading
    returns the second reset code. *)
Theorem second_save_wins
  (other : json -> option (list byte)) (cfg : config) (addr : string)
  (first second : list byte) (w : world) :
  let w1 := snd (writePairingInfo cfg addr (array_of_buffer first) w) in
  let w2 := snd (writePairingInfo cfg addr (array_of_buffer second) w1) in
  files w2 = files (snd (writePairingInfo cfg addr (array_of_buffer second) w))
  /\ fst ((readPairingInfo cfg addr
           ≫= fun v => get_resetCode v ≫= fun x => Buffer_from other x) w2)
     = Return second.
Proof.
  intros w1 w2.
  assert (Hfiles : files w2
                   = <[pairingFilename addr :=
                         JSON_stringify (JObj [("resetCode", array_of_buffer second)])]>
                       (files w)).
  { subst w2 w1. rewrite !files_writePairingInfo. apply insert_insert_eq. }
  split; [rewrite Hfiles, files_writePairingInfo; reflexivity |].
  rewrite run_bind.
  rewrite (readPairingInfo_found cfg addr
             (JSON_stringify (JObj [("resetCode", array_of_buffer second)])) w2)
    by (rewrite Hfiles; apply lookup_insert_eq).
  rewrite parse_stringify_resetCode. cbv iota beta. unfold get_resetCode.
  change (lookup_member "resetCode" [("resetCode", array_of_buffer second)])
    with (Some (array_of_buffer second)).
  run. rewrite Buffer_from_array. reflexivity.
Qed.

(** ** Authentication with a stored reset code *)

(** X6.  A session with the pairing flag off sends the device exactly the
    bytes a previous pairing stored: with the file of the address holding
    the record of [resetCode], [connect] reads that file and then issues
    one write of [resetCode] to the reset-code characteristic, before it
    reads anything from the device. *)
Theorem stored_reset_code_is_sent
  (other : json -> option (list byte)) (cfg : config) (per : peripheral)
  (chars : list string) (resetCode : list byte) (fuel : nat) (w : world) :
  let address := Advertisement.address (advertisement per) in
  let t := logged cfg 1 MsgConnecting ++ [Connect]
           ++ logged cfg 2 MsgDiscovering ++ [DiscoverAll]
           ++ logged cfg 3 (MsgCharacteristics chars)
           ++ logged cfg 2 (MsgReading (pairingFilename address))
           ++ [ReadFile (pairingFilename address)]
           ++ logged cfg 1 (MsgAuthenticating (Some (array_of_buffer resetCode)))
           ++ [CharWrite RESET_CHAR_UUID resetCode false] in
  files w !! pairingFilename address
  = Some (JSON_stringify (JObj [("resetCode", array_of_buffer resetCode)])) ->
  connectAsync (gatt per) = Resolved tt ->
  discoverAllServicesAndCharacteristicsAsync (gatt per) = Resolved chars ->
  find chars RESET_CHAR_UUID = true ->
  exists rest,
    snd (connect other cfg per false fuel w) = extend w (t ++ rest)
    /\ no_file_write rest.
Proof.
  intros address t Hfile Hc Hd Hfind.
  unfold connect. rewrite Hc, Hd.
  run_to (option json) authenticate.
  run. fold address.
  erewrite readPairingInfo_found by (rewrite files_extend; exact Hfile).
  rewrite parse_stringify_resetCode. run. unfold get_resetCode.
  change (lookup_member "resetCode" [("resetCode", array_of_buffer resetCode)])
    with (Some (array_of_buffer resetCode)).
  run. subst authenticate. cbv beta.
  match goal with
  | |- context [@mbind M _ unit unit ?k (on_char _ (Buffer_from _ _ ≫= _))] =>
      set (rest := k)
  end.
  assert (Hrest : read_only (rest tt)).
  { subst rest. cbv beta.
    apply read_only_bind; [| intros raw; apply read_only_bind;
      [apply read_only_poll | intros _; apply read_only_exit]].
    apply read_only_on_char, read_only_await. reflexivity. }
  rewrite Hfind. unfold on_char at 1. rewrite Buffer_from_array.
  run. rewrite run_await.
  destruct (resetChar_writeAsync (gatt per) resetCode false) as [[]| |];
    cbv beta iota; cbn [snd].
  - match goal with
    | |- context [rest tt ?w1] => destruct (Hrest w1) as (u & Hu & Hn)
    end.
    exists u. split; [| exact Hn]. rewrite Hu, !extend_extend.
    subst t. repeat rewrite <- app_assoc. reflexivity.
  - exists []. split; [| constructor]. rewrite !extend_extend.
    subst t. repeat rewrite <- app_assoc. rewrite app_nil_r. reflexivity.
  - exists (logged cfg 0 MsgDisconnected). split; [| apply no_file_write_logged].
    rewrite !extend_extend. subst t. repeat rewrite <- app_assoc. reflexivity.
Qed.

Lemma stored_reset_code_is_sent_witness :
  exists rest,
    snd (connect Sample.no_other Sample.read_once
           (Peripheral Sample.adv_normal (Sample.thermostat Sample.packet_80))
           false 1 (start Sample.paired))
    = extend (start Sample.paired)
        ([Connect; DiscoverAll; ReadFile "pairing-90fd9f123456.json";
          CharWrite RESET_CHAR_UUID [x01; x02; x03; x04] false] ++ rest)
    /\ no_file_write rest.
Proof.
  exact (stored_reset_code_is_sent Sample.no_other Sample.read_once
           (Peripheral Sample.adv_normal (Sample.thermostat Sample.packet_80))
           Sample.characteristics [x01; x02; x03; x04] 1 (start Sample.paired)
           eq_refl eq_refl eq_refl eq_refl).
Defined.

(** X7.  A pairing file that parses but holds no reset code ends the
    session before anything is written to the device.  The value [null] is
    caught like a missing file: exit code 1, with the request to pair at
    log level 1.  Any other value without a [resetCode] member gets past
    the [catch] with [resetCode] undefined, and the TypeError of
    [Buffer.from(undefined)] (or of the missing characteristic) propagates
    out of [connect]. *)
Theorem pairing_file_without_reset_code
  (other : json -> option (list byte)) (cfg : config) (per : peripheral)
  (chars : list string) (text : string) (v : json) (fuel : nat) (w : world) :
  let address := Advertisement.address (advertisement per) in
  let t := logged cfg 1 MsgConnecting ++ [Connect]
           ++ logged cfg 2 MsgDiscovering ++ [DiscoverAll]
           ++ logged cfg 3 (MsgCharacteristics chars)
           ++ logged cfg 2 (MsgReading (pairingFilename address))
           ++ [ReadFile (pairingFilename address)] in
  files w !! pairingFilename address = Some text ->
  JSON_parse text = Some v ->
  match v with
  | JNull => True
  | JObj members => lookup_member "resetCode" members = None
  | _ => True
  end ->
  connectAsync (gatt per) = Resolved tt ->
  discoverAllServicesAndCharacteristicsAsync (gatt per) = Resolved chars ->
  connect other cfg per false fuel w
  = match v with
    | JNull =>
        (Exit 1, extend w (t ++ logged cfg 1 (MsgPairingInfoNotFound address)))
    | _ =>
        (Throw TypeError, extend w (t ++ logged cfg 1 (MsgAuthenticating None)))
    end.
Proof.
  intros address t Hfile Hparse Hv Hc Hd.
  unfold connect. rewrite Hc, Hd.
  run_to (option json) authenticate.
  run. fold address.
  erewrite readPairingInfo_found by (rewrite files_extend; exact Hfile).
  rewrite Hparse.
  assert (Hthrow : forall w1 : world,
            authenticate None w1
            = (Throw TypeError, extend w1 (logged cfg 1 (MsgAuthenticating None)))).
  { intros w1. subst authenticate. cbv beta. run.
    unfold on_char at 1. destruct (find chars RESET_CHAR_UUID); reflexivity. }
  destruct v as [| b | n | s | elements | members]; run;
    unfold get_resetCode; try rewrite Hv; unfold throw, exit; run;
    try rewrite Hthrow;
    subst t; rewrite ?extend_extend; repeat rewrite <- app_assoc; reflexivity.
Qed.

Lemma pairing_file_without_reset_code_witness :
  connect Sample.no_other Sample.read_once
    (Peripheral Sample.adv_normal (Sample.thermostat Sample.packet_80))
    false 1 (start {[ "pairing-90fd9f123456.json" := "{}" ]})
  = (Throw TypeError,
     extend (start {[ "pairing-90fd9f123456.json" := "{}" ]})
       ([Connect; DiscoverAll; ReadFile "pairing-90fd9f123456.json"] ++ [])).
Proof.
  exact (pairing_file_without_reset_code Sample.no_other Sample.read_once
           (Peripheral Sample.adv_normal (Sample.thermostat Sample.packet_80))
           Sample.characteristics "{}" (JObj []) 1
           (start {[ "pairing-90fd9f123456.json" := "{}" ]})
           eq_refl eq_refl eq_refl eq_refl eq_refl).
Defined.

(** ** What a session does, step by step *)

Section Preserves.

Variable R : world -> world -> Prop.
Hypothesis R_refl : forall w, R w w.
Hypothesis R_trans : forall a b c, R a b -> R b c -> R a c.

Lemma preserves_ret {A} (a : A) : preserves R (mret a : M A).
Proof. intros w. apply R_refl. Qed.

Lemma preserves_throw {A} (e : error) : preserves R (throw e : M A).
Proof. intros w. apply R_refl. Qed.

Lemma preserves_exit {A} (c : Z) : preserves R (exit c : M A).
Proof. intros w. apply R_refl. Qed.

Lemma preserves_running {A} : preserves R (running : M A).
Proof. intros w. apply R_refl. Qed.

Lemma preserves_bind {A B} (m : M A) (k : A -> M B) :
  preserves R m -> (forall a, preserves R (k a)) -> preserves R (m ≫= k).
Proof.
  intros Hm Hk w. rewrite run_bind. specialize (Hm w).
  destruct (m w) as [[a|e|c|] w1]; cbn [snd] in *; try exact Hm.
  apply (R_trans _ w1); [exact Hm | apply Hk].
Qed.

Lemma preserves_try_catch {A} (m : M A) (h : error -> M A) :
  preserves R m -> (forall e, preserves R (h e)) -> preserves R (try_catch m h).
Proof.
  intros Hm Hh w. rewrite run_try_catch. specialize (Hm w).
  destruct (m w) as [[a|e|c|] w1]; cbn [snd] in *; try exact Hm.
  apply (R_trans _ w1); [exact Hm | apply Hh].
Qed.

Variable address : string.
Variable dev : transport.
Hypothesis R_step : forall w w', session_step address dev w w' -> R w w'.

Lemma preserves_emit (e : event) :
  session_event address dev e -> is_file_write e = false -> preserves R (emit e).
Proof. intros He Hw w. apply R_step, step_event; assumption. Qed.

Lemma preserves_log (cfg : config) (level : Z) (msg : message) :
  preserves R (log cfg level msg).
Proof.
  intros w. unfold log. destruct (level <=? verbosity cfg).
  - apply preserves_emit; [exact I | reflexivity].
  - apply R_refl.
Qed.

Lemma preserves_await {A} (cfg : config) (req : event) (r : reply A) :
  session_event address dev req -> is_file_write req = false ->
  preserves R (await cfg req r).
Proof.
  intros He Hw. unfold await, on_disconnect.
  apply preserves_bind; [apply preserves_emit; assumption | intros _].
  destruct r; [apply preserves_ret | apply preserves_throw |].
  apply preserves_bind; [apply preserves_log | intros _; apply preserves_exit].
Qed.

Lemma preserves_on_char {A} (found : bool) (call : M A) :
  preserves R call -> preserves R (on_char found call).
Proof. intros H. unfold on_char. destruct found; [exact H | apply preserves_throw]. Qed.

Lemma preserves_readPairingInfo (cfg : config) :
  preserves R (readPairingInfo cfg address).
Proof.
  unfold readPairingInfo.
  apply preserves_bind; [apply preserves_log | intros _].
  apply preserves_bind.
  - intros w. rewrite run_readFileSync.
    apply R_step, step_event; reflexivity.
  - intros text. destruct (JSON_parse text);
      [apply preserves_ret | apply preserves_throw].
Qed.

Lemma preserves_writePairingInfo (cfg : config) (msg : list byte) :
  resetChar_readAsync dev = Resolved msg ->
  preserves R (writePairingInfo cfg address (array_of_buffer (slice_to 4 msg))).
Proof.
  intros Hmsg. unfold writePairingInfo.
  apply preserves_bind; [apply preserves_log | intros _].
  intros w. rewrite run_writeFileSync. apply R_step, step_write.
  split; [reflexivity |]. exists msg. split; [exact Hmsg | reflexivity].
Qed.

(** What follows an awaited call only runs on the value it resolved to. *)
Lemma preserves_await_bind {A B} (cfg : config) (found : bool) (req : event)
  (r : reply A) (k : A -> M B) :
  session_event address dev req -> is_file_write req = false ->
  (forall a, r = Resolved a -> preserves R (k a)) ->
  preserves R (on_char found (await cfg req r) ≫= k).
Proof.
  intros He Hw Hk. destruct found; cbn [on_char];
    [| intros w; apply R_refl].
  intros w. rewrite run_bind.
  pose proof (preserves_await cfg req r He Hw w) as H.
  rewrite run_await in H |- *. destruct r as [a| |]; cbn [snd] in H |- *.
  - apply (R_trans _ _ _ H). apply (Hk a eq_refl).
  - exact H.
  - exact H.
Qed.

Lemma preserves_Buffer_from (other : json -> option (list byte)) (x : option json) :
  preserves R (Buffer_from other x).
Proof.
  unfold Buffer_from.
  destruct x as [[| | | |elements|]|]; try apply preserves_throw.
  - destruct (other _); [apply preserves_ret | apply preserves_throw].
  - destruct (mapM safe_integer elements); [apply preserves_ret |].
    destruct (other _); [apply preserves_ret | apply preserves_throw].
  - destruct (other _); [apply preserves_ret | apply preserves_throw].
Qed.

Lemma preserves_poll (cfg : config) (per : peripheral) (statsChar : bool)
  (name : string) (fuel i : nat) :
  Advertisement.address (advertisement per) = address ->
  replace_nul name = name ->
  preserves R (poll cfg per statsChar name fuel i).
Proof.
  intros Haddr Hname. revert i. induction fuel as [|fuel IH]; intros i; cbn [poll].
  - apply preserves_running.
  - apply preserves_bind;
      [apply preserves_on_char, preserves_await;
         [right; right; reflexivity | reflexivity] | intros stats].
    apply preserves_bind; [apply preserves_log | intros _].
    apply preserves_bind.
    { unfold Telemetry.decodeStats.
      destruct (strict_eq (stats !! 0%nat) 128); [| apply preserves_ret].
      apply preserves_emit; [| reflexivity].
      split; [exact Haddr | exact Hname]. }
    intros _. destruct (keepReading cfg); [| apply preserves_ret].
    apply preserves_bind; [apply preserves_log | intros _].
    apply preserves_bind;
      [apply preserves_emit; reflexivity | intros _].
    apply preserves_bind; [| intros _; apply IH].
    destruct (wait_disconnected _ _); [| apply preserves_ret].
    unfold on_disconnect.
    apply preserves_bind; [apply preserves_log | intros _; apply preserves_exit].
Qed.

Lemma preserves_connect (other : json -> option (list byte)) (cfg : config)
  (per : peripheral) (pairing : bool) (fuel : nat) :
  Advertisement.address (advertisement per) = address -> gatt per = dev ->
  preserves R (connect other cfg per pairing fuel).
Proof.
  intros Haddr Hdev. unfold connect. rewrite Haddr.
  apply preserves_bind; [apply preserves_log | intros _].
  apply preserves_bind; [apply preserves_await; [exact I | reflexivity] | intros _].
  apply preserves_bind; [apply preserves_log | intros _].
  apply preserves_bind;
    [apply preserves_await; [exact I | reflexivity] | intros characteristics].
  apply preserves_bind; [apply preserves_log | intros _].
  apply preserves_bind.
  { destruct pairing.
    - apply preserves_bind; [apply preserves_log | intros _].
      apply preserves_await_bind;
        [left; reflexivity | reflexivity | intros msg Hmsg].
      apply preserves_bind; [apply preserves_log | intros _].
      apply preserves_bind;
        [apply preserves_writePairingInfo; rewrite <- Hdev; exact Hmsg
        | intros _].
      apply preserves_bind; [apply preserves_log | intros _; apply preserves_ret].
    - apply preserves_try_catch.
      + apply preserves_bind; [apply preserves_readPairingInfo | intros v].
        unfold get_resetCode. destruct v;
          first [apply preserves_ret | apply preserves_throw].
      + intros _.
        apply preserves_bind; [apply preserves_log | intros _; apply preserves_exit]. }
  intros resetCode.
  apply preserves_bind; [apply preserves_log | intros _].
  apply preserves_bind.
  { apply preserves_on_char, preserves_bind;
      [apply preserves_Buffer_from | intros buf].
    apply preserves_await; [split; reflexivity | reflexivity]. }
  intros _.
  apply preserves_bind;
    [apply preserves_on_char, preserves_await;
       [right; left; reflexivity | reflexivity] | intros raw].
  apply preserves_bind; [| intros _; apply preserves_exit].
  apply preserves_poll; [exact Haddr |].
  unfold Telemetry.decodeName. apply replace_nul_idem.
Qed.

Lemma preserves_discover (other : json -> option (list byte)) (cfg : config)
  (per : peripheral) (fuel : nat) :
  Advertisement.address (advertisement per) = address -> gatt per = dev ->
  preserves R (discover other cfg per fuel).
Proof.
  intros Haddr Hdev. unfold discover, on_discover.
  apply preserves_try_catch.
  - destruct (negb _); [apply preserves_ret |].
    destruct (Advertisement.pairing _) as [pairing|]; [| apply preserves_throw].
    destruct (cfg_mode cfg); [apply preserves_log |].
    destruct (String.eqb _ _); [| apply preserves_ret].
    apply preserves_bind; [apply preserves_log | intros _].
    apply preserves_bind; [apply preserves_emit; [exact I | reflexivity] | intros _].
    apply preserves_bind;
      [destruct (stopScanningAsync _); [apply preserves_ret | apply preserves_throw]
      | intros _].
    apply preserves_connect; assumption.
  - intros e. unfold dieOnError.
    apply preserves_bind;
      [apply preserves_emit; [exact I | reflexivity] | intros _; apply preserves_exit].
Qed.

End Preserves.

(** The events one [discover] adds all are of the session's kind. *)
Lemma session_trace (other : json -> option (list byte)) (cfg : config)
  (per : peripheral) (fuel : nat) (w : world) :
  exists t,
    trace (snd (discover other cfg per fuel w)) = trace w ++ t
    /\ Forall (session_event (Advertisement.address (advertisement per))
                 (gatt per)) t.
Proof.
  set (address := Advertisement.address (advertisement per)).
  apply (preserves_discover
           (fun a b => exists t, trace b = trace a ++ t
                                 /\ Forall (session_event address (gatt per)) t))
    with (address := address) (dev := gatt per); [| | | reflexivity | reflexivity].
  - intros a. exists []. split; [symmetry; apply app_nil_r | constructor].
  - intros a b c [t [Ht Pt]] [u [Hu Pu]]. exists (t ++ u). split.
    + rewrite Hu, Ht. symmetry. apply app_assoc.
    + apply Forall_app. split; assumption.
  - intros a b [e He Hw | filename data He].
    + exists [e]. split; [reflexivity | repeat constructor; exact He].
    + exists [WriteFile filename data].
      split; [reflexivity | constructor; [exact He | constructor]].
Qed.

(** The files after one [discover]: every file is as it was, except that
    the pairing file of the peripheral may hold the record of what the
    device answered to the read of the reset code. *)
Lemma session_store (other : json -> option (list byte)) (cfg : config)
  (per : peripheral) (fuel : nat) (w : world) (filename : string) :
  files (snd (discover other cfg per fuel w)) !! filename
  = files w !! filename
  \/ (filename = pairingFilename (Advertisement.address (advertisement per))
      /\ exists msg,
           resetChar_readAsync (gatt per) = Resolved msg
           /\ files (snd (discover other cfg per fuel w)) !! filename
              = Some (pairing_record msg)).
Proof.
  set (address := Advertisement.address (advertisement per)).
  apply (preserves_discover
           (fun a b =>
              files b !! filename = files a !! filename
              \/ (filename = pairingFilename address
                  /\ exists msg,
                       resetChar_readAsync (gatt per) = Resolved msg
                       /\ files b !! filename = Some (pairing_record msg))))
    with (address := address) (dev := gatt per); [| | | reflexivity | reflexivity].
  - intros a. left. reflexivity.
  - intros a b c [Hab | Hab] [Hbc | Hbc]; try (right; exact Hbc).
    + left. rewrite Hbc. exact Hab.
    + right. destruct Hab as (Hf & msg & Hmsg & Hb).
      split; [exact Hf |]. exists msg. split; [exact Hmsg |].
      rewrite Hbc. exact Hb.
  - intros a b [e He Hw | f data [Hf (msg & Hmsg & Hdata)]].
    + left. reflexivity.
    + cbn [files]. destruct (decide (filename = f)) as [-> | Hne].
      * right. split; [exact Hf |]. exists msg. split; [exact Hmsg |].
        rewrite lookup_insert_eq. rewrite Hdata. reflexivity.
      * left. apply lookup_insert_ne. intros E. apply Hne. symmetry. exact E.
Qed.

(** X8.  Whatever the device answers and whatever the files hold, one
    [discover] only ever writes to the reset-code characteristic, as a
    write with response; it reads no characteristic but the reset code, the
    device name and the stats; and every pause it takes is 500 ms. *)
Theorem device_requests (other : json -> option (list byte)) (cfg : config)
  (per : peripheral) (fuel : nat) (w : world) :
  exists t,
    trace (snd (discover other cfg per fuel w)) = trace w ++ t
    /\ (forall uuid data withoutResponse,
          In (CharWrite uuid data withoutResponse) t ->
          uuid = RESET_CHAR_UUID /\ withoutResponse = false)
    /\ (forall uuid,
          In (CharRead uuid) t ->
          In uuid [RESET_CHAR_UUID; DNAME_CHAR_UUID; STATS_CHAR_UUID])
    /\ (forall ms, In (SetTimeout ms) t -> ms = 500).
Proof.
  destruct (session_trace other cfg per fuel w) as [t [Ht Pt]].
  exists t. split; [exact Ht |].
  rewrite List.Forall_forall in Pt.
  split; [| split].
  - intros uuid data wr Hin. exact (Pt _ Hin).
  - intros uuid Hin. destruct (Pt _ Hin) as [-> | [-> | ->]]; cbn; tauto.
  - intros ms Hin. exact (Pt _ Hin).
Qed.

(** X9.  One [discover] touches no file but the pairing file of its
    peripheral: every file access in its trace, read or write, names that
    file, and every other file is left as it was. *)
Theorem file_access (other : json -> option (list byte)) (cfg : config)
  (per : peripheral) (fuel : nat) (w : world) :
  let filename := pairingFilename (Advertisement.address (advertisement per)) in
  let w' := snd (discover other cfg per fuel w) in
  (forall f, f <> filename -> files w' !! f = files w !! f)
  /\ exists t,
       trace w' = trace w ++ t
       /\ (forall f, In (ReadFile f) t -> f = filename)
       /\ (forall f data, In (WriteFile f data) t -> f = filename).
Proof.
  intros filename w'. split.
  - intros f Hne.
    destruct (session_store other cfg per fuel w f) as [H | [H _]];
      [exact H | contradiction].
  - destruct (session_trace other cfg per fuel w) as [t [Ht Pt]].
    exists t. split; [exact Ht |].
    rewrite List.Forall_forall in Pt. split.
    + intros f Hin. exact (Pt _ Hin).
    + intros f data Hin. exact (proj1 (Pt _ Hin)).
Qed.

(** X10.  Where a pairing record comes from: after one [discover] the
    pairing file of the peripheral is as it was, or it holds the first four
    bytes of what the device answered to the read of the reset-code
    characteristic; and every write in the trace has that content, which
    [JSON_parse] reads back as a reset code of at most four bytes. *)
Theorem pairing_record_comes_from_device (other : json -> option (list byte))
  (cfg : config) (per : peripheral) (fuel : nat) (w : world) :
  let filename := pairingFilename (Advertisement.address (advertisement per)) in
  let w' := snd (discover other cfg per fuel w) in
  (files w' !! filename = files w !! filename
   \/ exists msg,
        resetChar_readAsync (gatt per) = Resolved msg
        /\ files w' !! filename = Some (pairing_record msg))
  /\ exists t,
       trace w' = trace w ++ t
       /\ forall f data,
            In (WriteFile f data) t ->
            exists msg,
              resetChar_readAsync (gatt per) = Resolved msg
              /\ data = pairing_record msg
              /\ JSON_parse data
                 = Some (JObj [("resetCode", array_of_buffer (slice_to 4 msg))])
              /\ (length (slice_to 4 msg) <= 4)%nat.
Proof.
  intros filename w'. split.
  - destruct (session_store other cfg per fuel w filename) as [H | [_ H]];
      [left; exact H | right; exact H].
  - destruct (session_trace other cfg per fuel w) as [t [Ht Pt]].
    exists t. split; [exact Ht |].
    rewrite List.Forall_forall in Pt.
    intros f data Hin. destruct (Pt _ Hin) as [_ (msg & Hmsg & ->)].
    exists msg. split; [exact Hmsg |]. split; [reflexivity |].
    split; [apply parse_stringify_resetCode |].
    unfold slice_to. rewrite length_take. lia.
Qed.

(** X14.  A pairing file that is absent or holds the record of a reset code
    of at most four bytes is in that state again after any [discover],
    however the session goes. *)
Theorem store_stays_well_formed (other : json -> option (list byte))
  (cfg : config) (per : peripheral) (fuel : nat) (w : world) :
  let address := Advertisement.address (advertisement per) in
  well_formed_store address w ->
  well_formed_store address (snd (discover other cfg per fuel w)).
Proof.
  intros address Hw text.
  destruct (session_store other cfg per fuel w (pairingFilename address))
    as [H | [_ (msg & _ & H)]]; rewrite H.
  - apply Hw.
  - intros [= <-]. exists (slice_to 4 msg).
    split; [unfold slice_to; rewrite length_take; lia | reflexivity].
Qed.

Lemma store_stays_well_formed_witness :
  well_formed_store Sample.addr (start ∅)
  /\ well_formed_store Sample.addr
       (snd (discover Sample.no_other Sample.read_once
               {| advertisement := Sample.adv_pairing;
                  gatt := Sample.thermostat Sample.packet_80 |} 1 (start ∅))).
Proof.
  assert (H : well_formed_store Sample.addr (start ∅)).
  { intros text. cbn [files start]. rewrite lookup_empty. discriminate. }
  split; [exact H |].
  exact (store_stays_well_formed Sample.no_other Sample.read_once
           {| advertisement := Sample.adv_pairing;
              gatt := Sample.thermostat Sample.packet_80 |} 1 (start ∅) H).
Defined.

(** ** Before the loop and in the loop *)

Lemma try_catch_bind {A B} (m : M A) (k : A -> M B) (h : error -> M B)
  (w : world) :
  try_catch (m ≫= k) h w =
  match m w with
  | (Return a, w1) => try_catch (k a) h w1
  | (Throw e, w1) => h e w1
  | (Exit c, w1) => (Exit c, w1)
  | (Running, w1) => (Running, w1)
  end.
Proof.
  rewrite run_try_catch, run_bind.
  destruct (m w) as [[a|e|c|] w1]; reflexivity.
Qed.

Lemma prelude_weaken {A} (P Q : list event -> Prop) (m : M A) :
  (forall t, P t -> Q t) -> prelude P m -> prelude Q m.
Proof.
  intros HPQ Hm w. destruct (Hm w) as (t & Ht & Hb & Hr).
  exists t. split; [exact Ht | split; [exact Hb |]].
  destruct (fst (m w)); auto.
Qed.

Lemma prelude_ret {A} (a : A) : prelude (fun _ => True) (mret a : M A).
Proof. intros w. exists []. rewrite app_nil_r. repeat split; constructor. Qed.

Lemma prelude_throw {A} (Q : list event -> Prop) (e : error) :
  prelude Q (throw e : M A).
Proof. intros w. exists []. rewrite app_nil_r. repeat split; constructor. Qed.

Lemma prelude_exit_1 {A} (Q : list event -> Prop) : prelude Q (exit 1 : M A).
Proof. intros w. exists []. rewrite app_nil_r. repeat split; constructor. Qed.

Lemma prelude_emit (e : event) :
  before_polling e -> prelude (fun _ => True) (emit e).
Proof.
  intros He w. exists [e]. rewrite run_emit.
  repeat split. repeat constructor; apply He.
Qed.

Lemma prelude_log (cfg : config) (level : Z) (msg : message) :
  prelude (fun _ => True) (log cfg level msg).
Proof.
  intros w. exists (logged cfg level msg). rewrite run_log.
  repeat split. unfold logged. destruct (level <=? verbosity cfg);
    repeat constructor.
Qed.

Lemma prelude_bind {A B} (P Q R : list event -> Prop) (m : M A) (k : A -> M B) :
  (forall t u, P t -> Q u -> R (t ++ u)) ->
  prelude P m -> (forall a, prelude Q (k a)) -> prelude R (m ≫= k).
Proof.
  intros HR Hm Hk w. rewrite run_bind.
  destruct (Hm w) as (t & Ht & Hb & Hr).
  destruct (m w) as [[a|e|c|] w1]; cbn [fst snd] in *;
    try (exists t; repeat split; assumption).
  destruct (Hk a w1) as (u & Hu & Hbu & Hru). exists (t ++ u).
  split; [rewrite Hu, Ht; symmetry; apply app_assoc |].
  split; [apply Forall_app; split; assumption |].
  destruct (fst (k a w1)); auto.
Qed.

Lemma prelude_seq {A B} (m : M A) (k : A -> M B) :
  prelude (fun _ => True) m -> (forall a, prelude (fun _ => True) (k a)) ->
  prelude (fun _ => True) (m ≫= k).
Proof. apply prelude_bind. auto. Qed.

Lemma prelude_try_catch {A} (Q : list event -> Prop) (m : M A) (h : error -> M A) :
  (forall t u, Q u -> Q (t ++ u)) ->
  prelude Q m -> (forall e, prelude Q (h e)) -> prelude Q (try_catch m h).
Proof.
  intros HQ Hm Hh w. rewrite run_try_catch.
  destruct (Hm w) as (t & Ht & Hb & Hr).
  destruct (m w) as [[a|e|c|] w1]; cbn [fst snd] in *;
    try (exists t; repeat split; assumption).
  destruct (Hh e w1) as (u & Hu & Hbu & Hru). exists (t ++ u).
  split; [rewrite Hu, Ht; symmetry; apply app_assoc |].
  split; [apply Forall_app; split; assumption |].
  destruct (fst (h e w1)); auto.
Qed.

Lemma prelude_await {A} (cfg : config) (req : event) (r : reply A) :
  before_polling req -> prelude (fun _ => True) (await cfg req r).
Proof.
  intros He. unfold await, on_disconnect.
  apply prelude_seq; [apply prelude_emit, He | intros _].
  destruct r; [apply prelude_ret | apply prelude_throw |].
  apply prelude_seq; [apply prelude_log | intros _; apply prelude_exit_1].
Qed.

Lemma prelude_on_char {A} (Q : list event -> Prop) (found : bool) (call : M A) :
  prelude Q call -> prelude Q (on_char found call).
Proof. intros H. unfold on_char. destruct found; [exact H | apply prelude_throw]. Qed.

(** Reading and writing the pairing file, and the conversion of what was
    read, are such steps. *)
Lemma prelude_readPairingInfo (cfg : config) (address : string) :
  prelude (fun _ => True) (readPairingInfo cfg address).
Proof.
  unfold readPairingInfo.
  apply prelude_seq; [apply prelude_log | intros _].
  apply prelude_seq.
  - intros w. exists [ReadFile (pairingFilename address)].
    rewrite run_readFileSync. cbn [fst snd].
    split; [reflexivity |]. split; [repeat constructor |].
    destruct (files w !! _); exact I.
  - intros text. destruct (JSON_parse text);
      [apply prelude_ret | apply prelude_throw].
Qed.

Lemma prelude_writePairingInfo (cfg : config) (address : string) (v : json) :
  prelude (fun _ => True) (writePairingInfo cfg address v).
Proof.
  unfold writePairingInfo.
  apply prelude_seq; [apply prelude_log | intros _].
  intros w. rewrite run_writeFileSync. cbn [fst snd trace].
  eexists. split; [reflexivity |]. split; [repeat constructor | exact I].
Qed.

Lemma prelude_Buffer_from (other : json -> option (list byte)) (x : option json) :
  prelude (fun _ => True) (Buffer_from other x).
Proof.
  unfold Buffer_from.
  destruct x as [[| | | |elements|]|]; try apply prelude_throw.
  - destruct (other _); [apply prelude_ret | apply prelude_throw].
  - destruct (mapM safe_integer elements); [apply prelude_ret |].
    destruct (other _); [apply prelude_ret | apply prelude_throw].
  - destruct (other _); [apply prelude_ret | apply prelude_throw].
Qed.

Lemma authenticated_app_l (dev : transport) (t u : list event) :
  authenticated dev t -> authenticated dev (t ++ u).
Proof.
  intros (buf & Hin & Hr). exists buf. split; [| exact Hr].
  apply in_or_app. left. exact Hin.
Qed.

Lemma authenticated_app_r (dev : transport) (t u : list event) :
  authenticated dev u -> authenticated dev (t ++ u).
Proof.
  intros (buf & Hin & Hr). exists buf. split; [| exact Hr].
  apply in_or_app. right. exact Hin.
Qed.

(** The write of the reset code returns only when the device has accepted
    it. *)
Lemma prelude_authenticate (other : json -> option (list byte)) (cfg : config)
  (dev : transport) (resetChar : bool) (resetCode : option json) :
  prelude (authenticated dev)
    (on_char resetChar
       (buf ← Buffer_from other resetCode;
        await cfg (CharWrite RESET_CHAR_UUID buf false)
          (resetChar_writeAsync dev buf false))).
Proof.
  apply prelude_on_char.
  apply (prelude_bind (fun _ => True) (authenticated dev));
    [intros t u _ H; apply authenticated_app_r, H
    | apply prelude_Buffer_from | intros buf].
  intros w. rewrite run_await.
  destruct (resetChar_writeAsync dev buf false) as [[]| |] eqn:Hr; cbn [fst snd].
  - exists [CharWrite RESET_CHAR_UUID buf false].
    split; [reflexivity |]. split; [repeat constructor |].
    exists buf. split; [left; reflexivity | exact Hr].
  - exists [CharWrite RESET_CHAR_UUID buf false].
    split; [reflexivity |]. split; [repeat constructor | exact I].
  - eexists. split; [reflexivity |]. split; [| reflexivity].
    apply Forall_app. split; [repeat constructor |].
    unfold logged. destruct (0 <=? verbosity cfg); repeat constructor.
Qed.

Section Phases.

Variable cfg : config.
Variable per : peripheral.
Variable fuel : nat.

Lemma phases_bind {A} (P Q R : list event -> Prop) (m : M A) (k : A -> M unit) :
  (forall t u, P t -> Q u -> R (t ++ u)) ->
  prelude P m -> (forall a, phases cfg per fuel Q (k a)) ->
  phases cfg per fuel R (m ≫= k).
Proof.
  intros HR Hm Hk w. rewrite try_catch_bind.
  destruct (Hm w) as (t & Ht & Hb & Hr).
  destruct (m w) as [[a|e|c|] w1]; cbn [fst snd] in *.
  - destruct (Hk a w1) as (u & Hbu & [[Hu Hx] | (w2 & sc & raw & Hw2 & HQ & Hrun)]);
      exists (t ++ u); (split; [apply Forall_app; split; assumption |]).
    + left. split; [rewrite Hu, Ht; symmetry; apply app_assoc | exact Hx].
    + right. exists w2, sc, raw.
      split; [rewrite Hw2, Ht; symmetry; apply app_assoc |].
      split; [apply HR; assumption | exact Hrun].
  - exists (t ++ [ConsoleError e]).
    split; [apply Forall_app; split; [exact Hb | repeat constructor] |].
    left. unfold dieOnError, exit. run. cbn [fst snd trace extend].
    split; [rewrite Ht; symmetry; apply app_assoc | reflexivity].
  - exists t. split; [exact Hb |]. left. cbn [fst snd]. subst c.
    split; [exact Ht | reflexivity].
  - destruct Hr.
Qed.

Lemma phases_poll (statsChar : bool) (raw : list byte) :
  phases cfg per fuel (fun _ => True)
    (poll cfg per statsChar (Telemetry.decodeName raw) fuel 0;; exit 0).
Proof.
  intros w. exists []. split; [constructor |]. right.
  exists w, statsChar, raw.
  split; [symmetry; apply app_nil_r | split; [exact I | reflexivity]].
Qed.

Lemma phases_connect (other : json -> option (list byte)) (pairing : bool) :
  phases cfg per fuel (authenticated (gatt per))
    (connect other cfg per pairing fuel).
Proof.
  set (Q := authenticated (gatt per)).
  assert (before : forall t u : list event, True -> Q u -> Q (t ++ u))
    by (intros t u _ H; apply authenticated_app_r, H).
  unfold connect.
  apply (phases_bind (fun _ => True) Q); [exact before | apply prelude_log | intros _].
  apply (phases_bind (fun _ => True) Q);
    [exact before | apply prelude_await; repeat split | intros _].
  apply (phases_bind (fun _ => True) Q); [exact before | apply prelude_log | intros _].
  apply (phases_bind (fun _ => True) Q);
    [exact before | apply prelude_await; repeat split | intros characteristics].
  apply (phases_bind (fun _ => True) Q); [exact before | apply prelude_log | intros _].
  apply (phases_bind (fun _ => True) Q); [exact before | | intros resetCode].
  { destruct pairing.
    - apply prelude_seq; [apply prelude_log | intros _].
      apply prelude_seq;
        [apply prelude_on_char, prelude_await; repeat split | intros msg].
      apply prelude_seq; [apply prelude_log | intros _].
      apply prelude_seq; [apply prelude_writePairingInfo | intros _].
      apply prelude_seq; [apply prelude_log | intros _; apply prelude_ret].
    - apply prelude_try_catch; [auto | |].
      + apply prelude_seq; [apply prelude_readPairingInfo | intros v].
        unfold get_resetCode. destruct v;
          first [apply prelude_ret | apply prelude_throw].
      + intros _.
        apply prelude_seq; [apply prelude_log | intros _; apply prelude_exit_1]. }
  apply (phases_bind (fun _ => True) Q); [exact before | apply prelude_log | intros _].
  apply (phases_bind Q (fun _ => True));
    [intros t u H _; apply authenticated_app_l, H
    | apply prelude_authenticate | intros _].
  apply (phases_bind (fun _ => True) (fun _ => True));
    [auto | apply prelude_on_char, prelude_await; repeat split | intros raw].
  apply phases_poll.
Qed.

End Phases.

(** ** Counting reads and readings *)

Lemma stats_reads_app (t u : list event) :
  stats_reads (t ++ u) = (stats_reads t + stats_reads u)%nat.
Proof. unfold stats_reads. rewrite List.filter_app. apply List.length_app. Qed.

Lemma readings_app (t u : list event) :
  readings (t ++ u) = readings t ++ readings u.
Proof. apply omap_app. Qed.

Lemma stats_reads_before (t : list event) :
  Forall before_polling t -> stats_reads t = 0%nat.
Proof.
  induction 1 as [|e t [He _] _ IH]; [reflexivity |].
  unfold stats_reads in *. cbn [List.filter]. rewrite He. exact IH.
Qed.

Lemma readings_before (t : list event) :
  Forall before_polling t -> readings t = [].
Proof.
  induction 1 as [|e t [_ He] _ IH]; [reflexivity |].
  unfold readings in *. destruct e; cbn [omap]; try exact IH. destruct He.
Qed.

Lemma before_polling_logged (cfg : config) (level : Z) (msg : message) :
  Forall before_polling (logged cfg level msg).
Proof.
  unfold logged. destruct (level <=? verbosity cfg); repeat constructor.
Qed.

Lemma length_readings_printed (r : option Telemetry.reading) :
  (length (readings (printed r)) <= 1)%nat /\ stats_reads (printed r) = 0%nat.
Proof. destruct r; cbn; split; lia. Qed.

Lemma split_after_prefix {A} (P : A -> Prop) (tp tq t1 t2 : list A) (e : A) :
  Forall P tp -> ~ P e -> tp ++ tq = t1 ++ e :: t2 -> exists u, t1 = tp ++ u.
Proof.
  intros Hp He. revert t1. induction Hp as [|x tp Hx _ IH]; intros t1 E.
  - exists t1. reflexivity.
  - destruct t1 as [|y t1]; cbn in E; injection E as -> E.
    + contradiction.
    + destruct (IH t1 E) as [u ->]. exists u. reflexivity.
Qed.

(** What the loop does in all: no more readings than reads; it returns only
    in non-continuous mode, after one answered read; it exits only with
    code 1; and a non-continuous loop reads at most once. *)
Lemma poll_summary (cfg : config) (per : peripheral) (statsChar : bool)
  (name : string) (fuel i : nat) (w : world) :
  exists t,
    snd (poll cfg per statsChar name fuel i w) = extend w t
    /\ (length (readings t) <= stats_reads t)%nat
    /\ (keepReading cfg = false -> (stats_reads t <= 1)%nat)
    /\ match fst (poll cfg per statsChar name fuel i w) with
       | Return _ =>
           keepReading cfg = false /\ stats_reads t = 1%nat
           /\ exists stats, statsChar_readAsync (gatt per) i = Resolved stats
       | Throw _ => True
       | Exit c => c = 1
       | Running => keepReading cfg = true \/ fuel = 0%nat
       end.
Proof.
  revert i w. induction fuel as [|fuel IH]; intros i w; cbn [poll].
  { exists []. rewrite extend_nil. cbn. repeat split; auto. }
  destruct statsChar; cbn [on_char].
  2: { exists []. rewrite extend_nil. cbn. repeat split; auto. }
  rewrite run_bind, run_await.
  destruct (statsChar_readAsync (gatt per) i) as [stats| |] eqn:Hread.
  2: { exists [CharRead STATS_CHAR_UUID]. cbn. repeat split; auto. }
  2: { exists ([CharRead STATS_CHAR_UUID] ++ logged cfg 0 MsgDisconnected).
       cbn [fst snd]. split; [reflexivity |].
       rewrite readings_app, !stats_reads_app, List.length_app.
       rewrite (readings_before (logged _ _ _)), (stats_reads_before (logged _ _ _))
         by apply before_polling_logged.
       cbn. repeat split; auto. }
  set (decoded := Telemetry.decodeStats _ name _ stats).
  destruct (length_readings_printed decoded) as [Hpr Hps].
  assert (Hone : forall u,
             Forall before_polling u ->
             (length (readings ([CharRead STATS_CHAR_UUID]
                                ++ logged cfg 2 (MsgReceivedStats stats)
                                ++ printed decoded ++ u)) <= 1)%nat
             /\ stats_reads ([CharRead STATS_CHAR_UUID]
                             ++ logged cfg 2 (MsgReceivedStats stats)
                             ++ printed decoded ++ u) = 1%nat).
  { intros u Hu.
    rewrite !readings_app, !stats_reads_app, !List.length_app.
    rewrite (readings_before (logged _ _ _)), (stats_reads_before (logged _ _ _))
      by apply before_polling_logged.
    rewrite (readings_before u), (stats_reads_before u) by exact Hu.
    rewrite Hps. cbn. lia. }
  run. fold decoded.
  assert (Hprint : forall w0,
             (match decoded with
              | Some r => emit (ConsoleLog r)
              | None => mret tt
              end) w0 = (Return tt, extend w0 (printed decoded))).
  { intros w0. destruct decoded; [reflexivity |].
    cbn [printed]. rewrite extend_nil. reflexivity. }
  rewrite Hprint. cbv iota beta.
  destruct (keepReading cfg) eqn:Hkeep.
  - run.
    destruct (wait_disconnected (gatt per) i).
    + unfold on_disconnect, exit. run. cbn [fst snd].
      eexists. split; [reflexivity |].
      rewrite <- !app_assoc.
      destruct (Hone (logged cfg 2 MsgWaiting ++ [SetTimeout 500]
                      ++ logged cfg 0 MsgDisconnected)) as [H1 H2].
      { repeat (apply Forall_app; split);
          try apply before_polling_logged; repeat constructor. }
      repeat split; try reflexivity; try discriminate.
      cbn [app] in H1, H2 |- *. lia.
    + run.
      match goal with
      | |- context [poll cfg per true name fuel (S i) ?w1] =>
          destruct (IH (S i) w1) as (u & Hu & Hle & _ & Hres);
          destruct (poll cfg per true name fuel (S i) w1) as [r w2]
      end.
      cbn [fst snd] in *. subst w2. rewrite extend_extend.
      eexists. split; [reflexivity |].
      rewrite <- !app_assoc.
      destruct (Hone (logged cfg 2 MsgWaiting ++ [SetTimeout 500])) as [H1 H2].
      { apply Forall_app; split;
          [apply before_polling_logged | repeat constructor]. }
      split; [| split; [discriminate |]].
      * replace ([CharRead STATS_CHAR_UUID]
                 ++ logged cfg 2 (MsgReceivedStats stats)
                 ++ printed decoded ++ logged cfg 2 MsgWaiting
                 ++ [SetTimeout 500] ++ u)
          with (([CharRead STATS_CHAR_UUID]
                 ++ logged cfg 2 (MsgReceivedStats stats)
                 ++ printed decoded ++ logged cfg 2 MsgWaiting
                 ++ [SetTimeout 500]) ++ u)
          by (rewrite <- !app_assoc; reflexivity).
        rewrite readings_app, stats_reads_app, List.length_app. lia.
      * destruct r; auto. destruct Hres as [Hk _]. discriminate Hk.
  - run. cbn [fst snd].
    eexists. split; [reflexivity |].
    destruct (Hone []) as [H1 H2]; [constructor |].
    rewrite !app_nil_r in H1, H2. rewrite <- !app_assoc.
    split; [lia | split; [lia |]].
    split; [reflexivity | split; [exact H2 | exists stats; reflexivity]].
Qed.

(** The loop inside the handler: what is thrown becomes exit code 1, and
    code 0 comes only after the single answered read of a non-continuous
    loop. *)
Lemma polling_summary (cfg : config) (per : peripheral) (fuel : nat)
  (statsChar : bool) (raw : list byte) (w : world) :
  exists t,
    trace (snd (polling cfg per fuel statsChar raw w)) = trace w ++ t
    /\ (length (readings t) <= stats_reads t)%nat
    /\ (keepReading cfg = false -> (stats_reads t <= 1)%nat)
    /\ match fst (polling cfg per fuel statsChar raw w) with
       | Return _ | Throw _ => False
       | Exit c =>
           c = 1
           \/ (c = 0 /\ keepReading cfg = false /\ stats_reads t = 1%nat
               /\ exists stats,
                    statsChar_readAsync (gatt per) 0 = Resolved stats)
       | Running => keepReading cfg = true \/ fuel = 0%nat
       end.
Proof.
  unfold polling. rewrite try_catch_bind.
  destruct (poll_summary cfg per statsChar (Telemetry.decodeName raw) fuel 0 w)
    as (t & Ht & Hle & Hone & Hres).
  destruct (poll _ _ _ _ _ _ w) as [[[]|e|c|] w1]; cbn [fst snd] in *; subst w1.
  - exists t. repeat split; auto. right. tauto.
  - exists (t ++ [ConsoleError e]). unfold dieOnError, exit. run. cbn [fst snd].
    rewrite readings_app, stats_reads_app, List.length_app. cbn.
    repeat split; auto; try lia. intros H. specialize (Hone H). lia.
  - exists t. repeat split; auto.
  - exists t. repeat split; auto.
Qed.

(** One [discover] in all: the events before the loop [tp] and those of the
    loop [tq]. *)
Lemma discover_summary (other : json -> option (list byte)) (cfg : config)
  (per : peripheral) (fuel : nat) (w : world) :
  let ad := advertisement per in
  let address := Advertisement.address ad in
  let run := discover other cfg per fuel w in
  exists tp tq,
    trace (snd run) = trace w ++ tp ++ tq
    /\ Forall before_polling tp
    /\ (tq = [] \/ authenticated (gatt per) tp)
    /\ (length (readings tq) <= stats_reads tq)%nat
    /\ (keepReading cfg = false -> (stats_reads tq <= 1)%nat)
    /\ match fst run with
       | Return _ =>
           Advertisement.accept ad = false \/ cfg_mode cfg = SCAN
           \/ address <> targetDeviceAddress cfg
       | Throw _ => False
       | Exit c =>
           c = 1
           \/ (c = 0 /\ cfg_mode cfg = READ
               /\ address = targetDeviceAddress cfg
               /\ keepReading cfg = false
               /\ authenticated (gatt per) tp
               /\ stats_reads tq = 1%nat
               /\ exists stats,
                    statsChar_readAsync (gatt per) 0 = Resolved stats)
       | Running =>
           cfg_mode cfg = READ /\ (keepReading cfg = true \/ fuel = 0%nat)
       end.
Proof.
  intros ad address run. subst run. unfold discover, on_discover. fold ad address.
  destruct (Advertisement.accept ad) eqn:Hacc; cbn [negb].
  2: { exists [], []. cbn. rewrite app_nil_r. repeat split; auto. }
  destruct (Advertisement.pairing ad) as [pairing|].
  2: { exists [ConsoleError TypeError], [].
       rewrite run_try_catch. unfold throw, dieOnError, exit. run.
       cbn [fst snd trace extend]. rewrite app_nil_r.
       repeat split; auto. repeat constructor. }
  destruct (cfg_mode cfg) eqn:Hmode.
  { exists (logged cfg 0 (MsgFound address (Advertisement.localName ad) pairing)), [].
    rewrite run_try_catch, run_log. cbn [fst snd trace extend].
    rewrite app_nil_r.
    repeat split; auto. apply before_polling_logged. }
  destruct (String.eqb address (targetDeviceAddress cfg)) eqn:Haddr.
  2: { exists [], []. cbn. rewrite app_nil_r. repeat split; auto.
       right. right. apply String.eqb_neq, Haddr. }
  apply String.eqb_eq in Haddr.
  change (fun e : error => dieOnError e) with (@dieOnError unit).
  assert (H : phases cfg per fuel (authenticated (gatt per))
                (log cfg 1 MsgFoundTarget;;
                 emit StopScanning;;
                 (if stopScanningAsync (gatt per) then mret tt
                  else throw TransportError);;
                 connect other cfg per pairing fuel)).
  { assert (before : forall t u : list event,
               True -> authenticated (gatt per) u ->
               authenticated (gatt per) (t ++ u))
      by (intros t u _ Hu; apply authenticated_app_r, Hu).
    apply (phases_bind _ _ _ (fun _ => True) (authenticated (gatt per)));
      [exact before | apply prelude_log | intros _].
    apply (phases_bind _ _ _ (fun _ => True) (authenticated (gatt per)));
      [exact before | apply prelude_emit; repeat split | intros _].
    apply (phases_bind _ _ _ (fun _ => True) (authenticated (gatt per)));
      [exact before | | intros _; apply phases_connect].
    destruct (stopScanningAsync _); [apply prelude_ret | apply prelude_throw]. }
  destruct (H w) as (tp & Hb & [[Ht Hx] | (w1 & sc & raw & Hw1 & Hauth & Hrun)]).
  - exists tp, []. rewrite app_nil_r, Hx. cbn.
    repeat split; auto.
  - rewrite Hrun.
    destruct (polling_summary cfg per fuel sc raw w1)
      as (tq & Htq & Hle & Hone & Hres).
    exists tp, tq.
    split; [rewrite Htq, Hw1; symmetry; apply app_assoc |].
    repeat split; auto.
    destruct (fst (polling cfg per fuel sc raw w1)); tauto.
Qed.

(** X11.  No stats are read and no reading is printed before the device
    has accepted a write of a reset code: in the events one [discover]
    adds, everything that precedes a read of the stats characteristic or a
    printed reading contains a write to the reset-code characteristic
    whose promise resolved. *)
Theorem authentication_precedes_polling (other : json -> option (list byte))
  (cfg : config) (per : peripheral) (fuel : nat) (w : world) :
  exists t,
    trace (snd (discover other cfg per fuel w)) = trace w ++ t
    /\ forall t1 e t2,
         t = t1 ++ e :: t2 ->
         is_stats_read e = true \/ (exists r, e = ConsoleLog r) ->
         authenticated (gatt per) t1.
Proof.
  destruct (discover_summary other cfg per fuel w)
    as (tp & tq & Ht & Hb & Hq & _).
  exists (tp ++ tq). split; [exact Ht |].
  intros t1 e t2 E He.
  assert (Hne : ~ before_polling e).
  { intros [H1 H2]. destruct He as [He | [r ->]]; [congruence | exact H2]. }
  destruct (split_after_prefix before_polling tp tq t1 t2 e Hb Hne E) as [u ->].
  destruct Hq as [-> | Hauth]; [| apply authenticated_app_l, Hauth].
  exfalso. apply Hne.
  rewrite app_nil_r in E. rewrite List.Forall_forall in Hb. apply Hb.
  rewrite E. apply in_or_app. right. left. reflexivity.
Qed.


(** X13.  One [discover] never prints more readings than it has read stats
    packets.  When continuous reading is off it reads the stats
    characteristic at most once, and exactly once when it exits with
    code 0. *)
Theorem reads_and_readings (other : json -> option (list byte)) (cfg : config)
  (per : peripheral) (fuel : nat) (w : world) :
  exists t,
    trace (snd (discover other cfg per fuel w)) = trace w ++ t
    /\ (length (readings t) <= stats_reads t)%nat
    /\ (keepReading cfg = false ->
        (stats_reads t <= 1)%nat
        /\ (fst (discover other cfg per fuel w) = Exit 0 ->
            stats_reads t = 1%nat)).
Proof.
  destruct (discover_summary other cfg per fuel w)
    as (tp & tq & Ht & Hb & _ & Hle & Hone & Hres).
  exists (tp ++ tq). split; [exact Ht |].
  rewrite readings_app, stats_reads_app, List.length_app.
  rewrite (readings_before tp Hb), (stats_reads_before tp Hb). cbn.
  split; [exact Hle |]. intros Hk. split; [exact (Hone Hk) |].
  intros Hx. rewrite Hx in Hres.
  destruct Hres as [H | (_ & _ & _ & _ & _ & Hs & _)]; [discriminate H | exact Hs].
Qed.

(** ** Sessions that are not started *)

(** X15.  In SCAN mode, and in READ mode for a peripheral that is not the
    target, [discover] starts no session: it makes no request to the
    device, reads and writes no file and prints no reading; all it may add
    to the trace is one line on stderr. *)
Theorem no_session_without_target (other : json -> option (list byte))
  (cfg : config) (per : peripheral) (fuel : nat) (w : world) :
  cfg_mode cfg = SCAN
  \/ Advertisement.address (advertisement per) <> targetDeviceAddress cfg ->
  exists t,
    snd (discover other cfg per fuel w) = extend w t
    /\ (length t <= 1)%nat
    /\ Forall (fun e => match e with
                        | Warn _ | ConsoleError _ => True
                        | _ => False
                        end) t
    /\ fst (discover other cfg per fuel w) <> Exit 0.
Proof.
  intros H. unfold discover, on_discover.
  destruct (Advertisement.accept (advertisement per)); cbn [negb].
  2: { exists []. rewrite extend_nil. repeat split; auto; try discriminate. }
  destruct (Advertisement.pairing (advertisement per)) as [pairing|].
  2: { exists [ConsoleError TypeError].
       repeat split; auto; try discriminate. }
  destruct (cfg_mode cfg).
  - rewrite run_try_catch, run_log. eexists. split; [reflexivity |].
    unfold logged. destruct (0 <=? verbosity cfg); cbn; repeat split; auto;
      try discriminate.
  - destruct H as [H | H]; [discriminate H |].
    apply String.eqb_neq in H. rewrite H.
    exists []. rewrite extend_nil. repeat split; auto; try discriminate.
Qed.

Lemma no_session_without_target_witness :
  exists t,
    snd (discover Sample.no_other Sample.scan
           (Peripheral Sample.adv_pairing (Sample.thermostat Sample.packet_80))
           1 (start Sample.paired))
    = extend (start Sample.paired) t
    /\ (length t <= 1)%nat
    /\ Forall (fun e => match e with
                        | Warn _ | ConsoleError _ => True
                        | _ => False
                        end) t
    /\ fst (discover Sample.no_other Sample.scan
              (Peripheral Sample.adv_pairing (Sample.thermostat Sample.packet_80))
              1 (start Sample.paired)) <> Exit 0.
Proof.
  exact (no_session_without_target Sample.no_other Sample.scan
           (Peripheral Sample.adv_pairing (Sample.thermostat Sample.packet_80))
           1 (start Sample.paired) (or_introl eq_refl)).
Defined.

(** X16.  An advertisement with an ECO16BT name and no manufacturer data
    ends the process with exit code 1 in every mode and whatever its
    address: the pairing flag is read before the mode and the address are
    looked at, so a peripheral that is not the target can end a read. *)
Theorem bare_advertisement_is_fatal (other : json -> option (list byte))
  (cfg : config) (per : peripheral) (fuel : nat) (w : world) :
  Advertisement.accept (advertisement per) = true ->
  Advertisement.manufacturerData (advertisement per) = None ->
  discover other cfg per fuel w = (Exit 1, extend w [ConsoleError TypeError]).
Proof.
  intros Hacc Hmd. unfold discover, on_discover, Advertisement.pairing.
  rewrite Hacc, Hmd. reflexivity.
Qed.

Lemma bare_advertisement_is_fatal_witness :
  discover Sample.no_other (Config READ "00:11:22:33:44:55" 0 false)
    (Peripheral Sample.adv_bare (Sample.thermostat Sample.packet_80))
    1 (start Sample.paired)
  = (Exit 1, extend (start Sample.paired) [ConsoleError TypeError]).
Proof.
  exact (bare_advertisement_is_fatal Sample.no_other
           (Config READ "00:11:22:33:44:55" 0 false)
           (Peripheral Sample.adv_bare (Sample.thermostat Sample.packet_80))
           1 (start Sample.paired) eq_refl eq_refl).
Defined.

(** X17.  The target is matched in lower case only: the address given
    after [--read] is lower-cased and then compared, character by
    character, with the address of the peripheral, so a peripheral whose
    address has an upper-case letter is never the target. *)
Theorem target_is_matched_in_lower_case (other : json -> option (list byte))
  (args : list string) (cfg : config) (per : peripheral) (fuel : nat)
  (w : world) :
  parse_args args = Parsed cfg ->
  cfg_mode cfg = READ ->
  toLowerCase (Advertisement.address (advertisement per))
  <> Advertisement.address (advertisement per) ->
  Advertisement.manufacturerData (advertisement per) <> None ->
  discover other cfg per fuel w = (Return tt, w).
Proof.
  unfold parse_args. intros H Hmode Hcase Hmd.
  destruct (parse_loop args initial) as [v| |e] eqn:Hrun; try discriminate H.
  destruct (mode v) as [m|] eqn:Hm; [| discriminate H].
  injection H as <-. cbn [cfg_mode] in Hmode. subst m.
  destruct (parse_loop_spec (length args) args initial v (le_n _) Hrun)
    as (_ & _ & _ & _ & Hnone & _).
  destruct (Hnone eq_refl) as [_ Hex].
  destruct (Hex Hm) as (pre & a & post & _ & Ht & _).
  unfold discover, on_discover, Advertisement.pairing.
  cbn [cfg_mode targetDeviceAddress]. rewrite Ht.
  change (default "" (Some (toLowerCase a))) with (toLowerCase a).
  destruct (Advertisement.accept (advertisement per)); [| reflexivity].
  destruct (Advertisement.manufacturerData (advertisement per));
    [| contradiction]. cbn [negb].
  destruct (String.eqb (Advertisement.address (advertisement per))
              (toLowerCase a)) eqn:E; [| reflexivity].
  apply String.eqb_eq in E. exfalso. apply Hcase.
  rewrite E. apply toLowerCase_idem.
Qed.

Lemma target_is_matched_in_lower_case_witness :
  discover Sample.no_other (Config READ Sample.addr 0 false)
    (Peripheral (Advertisement.Adv "90:FD:9F:12:34:56" (Some "ECO16BT Liv")
                   (Some (Sample.manufacturer_data "0")))
       (Sample.thermostat Sample.packet_80))
    1 (start Sample.paired)
  = (Return tt, start Sample.paired).
Proof.
  refine (target_is_matched_in_lower_case Sample.no_other
            ["--read"; "90:FD:9F:12:34:56"] (Config READ Sample.addr 0 false)
            (Peripheral (Advertisement.Adv "90:FD:9F:12:34:56" (Some "ECO16BT Liv")
                           (Some (Sample.manufacturer_data "0")))
               (Sample.thermostat Sample.packet_80))
            1 (start Sample.paired) eq_refl eq_refl _ _); discriminate.
Defined.

(** ** The loop, in continuous mode *)

Lemma omap_cons_list {A B} (f : A -> option B) (x : A) (l : list A) :
  omap f (x :: l) = option_list (f x) ++ omap f l.
Proof. cbn. destruct (f x); reflexivity. Qed.

Lemma readings_printed (r : option Telemetry.reading) :
  readings (printed r) = option_list r.
Proof. destruct r; reflexivity. Qed.

Lemma poll_iterations (cfg : config) (per : peripheral) (name : string)
  (packets : nat -> list byte) (fuel n : nat) :
  keepReading cfg = true ->
  forall (i : nat) (w : world),
    (forall j, (i <= j < i + n)%nat ->
               statsChar_readAsync (gatt per) j = Resolved (packets j)
               /\ wait_disconnected (gatt per) j = false) ->
    exists t,
      poll cfg per true name (n + fuel) i w
      = poll cfg per true name fuel (i + n) (extend w t)
      /\ readings t
         = omap (fun j => Telemetry.decodeStats
                            (Advertisement.address (advertisement per)) name
                            (Date_now (gatt per) j) (packets j))
             (seq i n)
      /\ stats_reads t = n.
Proof.
  intros Hkeep. induction n as [|n IH]; intros i w Hdev.
  { exists []. rewrite extend_nil, Nat.add_0_r. repeat split. }
  destruct (Hdev i ltac:(lia)) as [Hread Hwait].
  cbn [Nat.add poll on_char].
  rewrite run_bind, run_await, Hread. run.
  set (decoded := Telemetry.decodeStats _ name _ (packets i)).
  assert (Hprint : forall w0,
             (match decoded with
              | Some r => emit (ConsoleLog r)
              | None => mret tt
              end) w0 = (Return tt, extend w0 (printed decoded))).
  { intros w0. destruct decoded; [reflexivity |].
    cbn [printed]. rewrite extend_nil. reflexivity. }
  rewrite Hprint, Hkeep. run. rewrite Hwait. run.
  match goal with
  | |- context [poll cfg per true name (n + fuel) (S i) (extend w ?t0)] =>
      destruct (IH (S i) (extend w t0)) as (u & Hu & Hr & Hs);
      [intros j Hj; apply Hdev; lia |];
      exists (t0 ++ u)
  end.
  rewrite Hu, extend_extend, Nat.add_succ_r.
  split; [reflexivity |].
  rewrite !readings_app, !stats_reads_app, Hr, Hs.
  rewrite !(readings_before (logged _ _ _)), !(stats_reads_before (logged _ _ _))
    by apply before_polling_logged.
  rewrite readings_printed.
  destruct (length_readings_printed decoded) as [_ ->].
  cbn [seq]. rewrite omap_cons_list. cbv beta. fold decoded.
  split; [| cbn; lia].
  clearbody decoded. destruct decoded; reflexivity.
Qed.

(** X18.  A continuous loop whose first [n] reads are answered and whose
    link holds is still running after [n] iterations, having read the
    stats characteristic [n] times and printed, in the order of the reads,
    the reading of every packet that starts with 0x80, each with the
    clock of its own iteration. *)
Theorem continuous_readings (cfg : config) (per : peripheral) (name : string)
  (packets : nat -> list byte) (n : nat) (w : world) :
  keepReading cfg = true ->
  (forall j, (j < n)%nat ->
             statsChar_readAsync (gatt per) j = Resolved (packets j)
             /\ wait_disconnected (gatt per) j = false) ->
  exists t,
    poll cfg per true name n 0 w = (Running, extend w t)
    /\ readings t
       = omap (fun j => Telemetry.decodeStats
                          (Advertisement.address (advertisement per)) name
                          (Date_now (gatt per) j) (packets j))
           (seq 0 n)
    /\ stats_reads t = n.
Proof.
  intros Hkeep Hdev.
  destruct (poll_iterations cfg per name packets 0 n Hkeep 0%nat w)
    as (t & Ht & Hr & Hs); [intros j Hj; apply Hdev; lia |].
  exists t. rewrite Nat.add_0_r in Ht. rewrite Ht.
  repeat split; assumption.
Qed.

Lemma continuous_readings_witness :
  let cfg := Config READ Sample.addr 0 true in
  let per := Peripheral Sample.adv_normal (Sample.thermostat Sample.packet_80) in
  exists t,
    poll cfg per true "Liv" 2 0 (start ∅) = (Running, extend (start ∅) t)
    /\ readings t
       = omap (fun j => Telemetry.decodeStats Sample.addr "Liv"
                          (Date_now (gatt per) j) Sample.packet_80)
           (seq 0 2)
    /\ stats_reads t = 2%nat.
Proof.
  exact (continuous_readings (Config READ Sample.addr 0 true)
           (Peripheral Sample.adv_normal (Sample.thermostat Sample.packet_80))
           "Liv" (fun _ => Sample.packet_80) 2 (start ∅) eq_refl
           (fun j _ => conj eq_refl eq_refl)).
Defined.

(** ** Temperatures *)

(** X19.  A temperature decoded from two bytes that are there is the
    unsigned 16-bit value they form, low byte first, in tenths: ten times
    the temperature is that value exactly, so no two values give the same
    temperature, and the temperature lies between 0 and 6553.5; the
    decoder never yields a temperature below zero. *)
Theorem temperature_tenths (stats : list byte) (hi lo : nat) (h l : byte) :
  stats !! hi = Some h ->
  stats !! lo = Some l ->
  let t := Telemetry.temperature stats hi lo in
  (t * 10)%float
  = PrimFloat.of_uint63 (Uint63.of_Z (256 * byte_val h + byte_val l))
  /\ PrimFloat.leb 0 t = true
  /\ PrimFloat.leb t 6553.5 = true.
Proof.
  intros Hh Hl t. subst t. unfold Telemetry.temperature. rewrite Hh, Hl.
  assert (H : forallb (fun h => forallb (fun l =>
                let t := ((256 * ToNumber (Some h) + ToNumber (Some l)) / 10)%float in
                PrimFloat.Leibniz.eqb (t * 10)%float
                  (PrimFloat.of_uint63
                     (Uint63.of_Z (256 * byte_val h + byte_val l)))
                && PrimFloat.leb 0 t && PrimFloat.leb t 6553.5)
                all_bytes) all_bytes = true)
    by (vm_compute; reflexivity).
  pose proof (for_all_bytes _ H h) as H1. cbv beta in H1.
  pose proof (for_all_bytes _ H1 l) as H2. cbv beta zeta in H2.
  apply andb_prop in H2. destruct H2 as [H2 Hmax].
  apply andb_prop in H2. destruct H2 as [Heq Hmin].
  apply FloatAxioms.Leibniz.eqb_spec in Heq.
  split; [exact Heq | split; assumption].
Qed.

Lemma temperature_tenths_witness :
  let t := Telemetry.temperature Sample.packet_80 2 1 in
  (t * 10)%float
  = PrimFloat.of_uint63 (Uint63.of_Z (256 * byte_val x00 + byte_val xc3))
  /\ PrimFloat.leb 0 t = true
  /\ PrimFloat.leb t 6553.5 = true.
Proof.
  exact (temperature_tenths Sample.packet_80 2 1 x00 xc3 eq_refl eq_refl).
Defined.

(** ** The verbosity *)

Lemma without_log_app (t u : list event) :
  without_log (t ++ u) = without_log t ++ without_log u.
Proof. apply List.filter_app. Qed.

Lemma without_log_logged (cfg : config) (level : Z) (msg : message) :
  without_log (logged cfg level msg) = [].
Proof. unfold logged. destruct (level <=? verbosity cfg); reflexivity. Qed.

Lemma same_but_log_extend (w w' : world) (t u : list event) :
  same_but_log w w' -> without_log t = without_log u ->
  same_but_log (extend w t) (extend w' u).
Proof.
  intros [Hf Ht] Htu. split; [exact Hf |]. cbn [trace extend].
  rewrite !without_log_app, Ht, Htu. reflexivity.
Qed.

Lemma alike_ret {A} (a : A) : alike (mret a : M A) (mret a).
Proof. intros w w' H. split; [reflexivity | exact H]. Qed.

Lemma alike_throw {A} (e : error) : alike (throw e : M A) (throw e).
Proof. intros w w' H. split; [reflexivity | exact H]. Qed.

Lemma alike_exit {A} (c : Z) : alike (exit c : M A) (exit c).
Proof. intros w w' H. split; [reflexivity | exact H]. Qed.

Lemma alike_running {A} : alike (running : M A) running.
Proof. intros w w' H. split; [reflexivity | exact H]. Qed.

Lemma alike_bind {A B} (m m' : M A) (k k' : A -> M B) :
  alike m m' -> (forall a, alike (k a) (k' a)) -> alike (m ≫= k) (m' ≫= k').
Proof.
  intros Hm Hk w w' Hw. rewrite !run_bind.
  destruct (Hm w w' Hw) as [Hr Hs].
  destruct (m w) as [r w1], (m' w') as [r' w1']. cbn [fst snd] in Hr, Hs.
  subst r'. destruct r as [a|e|c|];
    [apply Hk, Hs | | |]; (split; [reflexivity | exact Hs]).
Qed.

Lemma alike_try_catch {A} (m m' : M A) (h h' : error -> M A) :
  alike m m' -> (forall e, alike (h e) (h' e)) ->
  alike (try_catch m h) (try_catch m' h').
Proof.
  intros Hm Hh w w' Hw. rewrite !run_try_catch.
  destruct (Hm w w' Hw) as [Hr Hs].
  destruct (m w) as [r w1], (m' w') as [r' w1']. cbn [fst snd] in Hr, Hs.
  subst r'. destruct r as [a|e|c|];
    [| apply Hh, Hs | |]; (split; [reflexivity | exact Hs]).
Qed.

(** Two calls of [log], whatever they print, are alike. *)
Lemma alike_log (cfg cfg' : config) (level level' : Z) (msg msg' : message) :
  alike (log cfg level msg) (log cfg' level' msg').
Proof.
  intros w w' Hw. rewrite !run_log. split; [reflexivity |].
  apply same_but_log_extend; [exact Hw |].
  rewrite !without_log_logged. reflexivity.
Qed.

Lemma alike_emit (e : event) : alike (emit e) (emit e).
Proof.
  intros w w' Hw. rewrite !run_emit. split; [reflexivity |].
  apply same_but_log_extend; [exact Hw | reflexivity].
Qed.

Lemma alike_await {A} (cfg cfg' : config) (req : event) (r : reply A) :
  alike (await cfg req r) (await cfg' req r).
Proof.
  unfold await, on_disconnect.
  apply alike_bind; [apply alike_emit | intros _].
  destruct r; [apply alike_ret | apply alike_throw |].
  apply alike_bind; [apply alike_log | intros _; apply alike_exit].
Qed.

Lemma alike_on_char {A} (found : bool) (call call' : M A) :
  alike call call' -> alike (on_char found call) (on_char found call').
Proof. intros H. unfold on_char. destruct found; [exact H | apply alike_throw]. Qed.

Lemma alike_readPairingInfo (cfg cfg' : config) (address : string) :
  alike (readPairingInfo cfg address) (readPairingInfo cfg' address).
Proof.
  unfold readPairingInfo.
  apply alike_bind; [apply alike_log | intros _].
  apply alike_bind.
  - intros w w' Hw. rewrite !run_readFileSync. cbn [fst snd].
    destruct Hw as [Hf Ht]. rewrite Hf. split; [reflexivity |].
    apply same_but_log_extend; [split; assumption | reflexivity].
  - intros text. destruct (JSON_parse text);
      [apply alike_ret | apply alike_throw].
Qed.

Lemma alike_writePairingInfo (cfg cfg' : config) (address : string) (v : json) :
  alike (writePairingInfo cfg address v) (writePairingInfo cfg' address v).
Proof.
  unfold writePairingInfo.
  apply alike_bind; [apply alike_log | intros _].
  intros w w' [Hf Ht]. rewrite !run_writeFileSync. cbn [fst snd].
  split; [reflexivity |]. split; cbn [files trace].
  - rewrite Hf. reflexivity.
  - rewrite !without_log_app, Ht. reflexivity.
Qed.

Lemma alike_Buffer_from (other : json -> option (list byte)) (x : option json) :
  alike (Buffer_from other x) (Buffer_from other x).
Proof.
  unfold Buffer_from.
  destruct x as [[| | | |elements|]|]; try apply alike_throw.
  - destruct (other _); [apply alike_ret | apply alike_throw].
  - destruct (mapM safe_integer elements); [apply alike_ret |].
    destruct (other _); [apply alike_ret | apply alike_throw].
  - destruct (other _); [apply alike_ret | apply alike_throw].
Qed.

Section Verbosity.

Variable cfg cfg' : config.
Hypothesis same_mode : cfg_mode cfg = cfg_mode cfg'.
Hypothesis same_target : targetDeviceAddress cfg = targetDeviceAddress cfg'.
Hypothesis same_loop : keepReading cfg = keepReading cfg'.

Lemma alike_poll (per : peripheral) (statsChar : bool) (name : string)
  (fuel i : nat) :
  alike (poll cfg per statsChar name fuel i) (poll cfg' per statsChar name fuel i).
Proof.
  revert i. induction fuel as [|fuel IH]; intros i; cbn [poll].
  - apply alike_running.
  - apply alike_bind; [apply alike_on_char, alike_await | intros stats].
    apply alike_bind; [apply alike_log | intros _].
    apply alike_bind.
    { destruct (Telemetry.decodeStats _ _ _ _);
        [apply alike_emit | apply alike_ret]. }
    intros _. rewrite <- same_loop.
    destruct (keepReading cfg); [| apply alike_ret].
    apply alike_bind; [apply alike_log | intros _].
    apply alike_bind; [apply alike_emit | intros _].
    apply alike_bind; [| intros _; apply IH].
    destruct (wait_disconnected _ _); [| apply alike_ret].
    unfold on_disconnect.
    apply alike_bind; [apply alike_log | intros _; apply alike_exit].
Qed.

Lemma alike_connect (other : json -> option (list byte)) (per : peripheral)
  (pairing : bool) (fuel : nat) :
  alike (connect other cfg per pairing fuel) (connect other cfg' per pairing fuel).
Proof.
  unfold connect.
  apply alike_bind; [apply alike_log | intros _].
  apply alike_bind; [apply alike_await | intros _].
  apply alike_bind; [apply alike_log | intros _].
  apply alike_bind; [apply alike_await | intros characteristics].
  apply alike_bind; [apply alike_log | intros _].
  apply alike_bind.
  { destruct pairing.
    - apply alike_bind; [apply alike_log | intros _].
      apply alike_bind; [apply alike_on_char, alike_await | intros msg].
      apply alike_bind; [apply alike_log | intros _].
      apply alike_bind; [apply alike_writePairingInfo | intros _].
      apply alike_bind; [apply alike_log | intros _; apply alike_ret].
    - apply alike_try_catch.
      + apply alike_bind; [apply alike_readPairingInfo | intros v].
        unfold get_resetCode. destruct v;
          first [apply alike_ret | apply alike_throw].
      + intros _.
        apply alike_bind; [apply alike_log | intros _; apply alike_exit]. }
  intros resetCode.
  apply alike_bind; [apply alike_log | intros _].
  apply alike_bind.
  { apply alike_on_char, alike_bind; [apply alike_Buffer_from | intros buf].
    apply alike_await. }
  intros _.
  apply alike_bind; [apply alike_on_char, alike_await | intros raw].
  apply alike_bind; [apply alike_poll | intros _; apply alike_exit].
Qed.

Lemma alike_discover (other : json -> option (list byte)) (per : peripheral)
  (fuel : nat) :
  alike (discover other cfg per fuel) (discover other cfg' per fuel).
Proof.
  unfold discover, on_discover.
  apply alike_try_catch.
  - destruct (negb _); [apply alike_ret |].
    destruct (Advertisement.pairing _) as [pairing|]; [| apply alike_throw].
    rewrite <- same_mode, <- same_target.
    destruct (cfg_mode cfg); [apply alike_log |].
    destruct (String.eqb _ _); [| apply alike_ret].
    apply alike_bind; [apply alike_log | intros _].
    apply alike_bind; [apply alike_emit | intros _].
    apply alike_bind;
      [destruct (stopScanningAsync _); [apply alike_ret | apply alike_throw]
      | intros _].
    apply alike_connect.
  - intros e. unfold dieOnError.
    apply alike_bind; [apply alike_emit | intros _; apply alike_exit].
Qed.

End Verbosity.

(** X20.  The verbosity changes nothing but the lines [log] prints: two
    runs of [discover] that differ only in the verbosity end the same way,
    leave the same files, and have the same trace once the lines of [log]
    are taken out, so the same requests to the device, the same file
    accesses and the same readings, in the same order. *)
Theorem verbosity_only_changes_the_log (other : json -> option (list byte))
  (cfg : config) (v : Z) (per : peripheral) (fuel : nat) (w : world) :
  let cfg' := {| cfg_mode := cfg_mode cfg;
                 targetDeviceAddress := targetDeviceAddress cfg;
                 verbosity := v;
                 keepReading := keepReading cfg |} in
  let run := discover other cfg per fuel w in
  let run' := discover other cfg' per fuel w in
  fst run = fst run'
  /\ files (snd run) = files (snd run')
  /\ without_log (trace (snd run)) = without_log (trace (snd run'))
  /\ readings (trace (snd run)) = readings (trace (snd run')).
Proof.
  intros cfg' run run'. subst run run'.
  destruct (alike_discover cfg cfg' eq_refl eq_refl eq_refl other per fuel w w)
    as [Hr [Hf Ht]]; [split; reflexivity |].
  split; [exact Hr |]. split; [exact Hf |]. split; [exact Ht |].
  assert (Hq : forall t, readings (without_log t) = readings t).
  { induction t as [|e t IH]; [reflexivity |].
    destruct e; cbn; try exact IH. f_equal. exact IH. }
  rewrite <- (Hq (trace (snd (discover other cfg per fuel w)))), Ht.
  apply Hq.
Qed.

(** ** A pairing file that is not JSON *)

(** X21.  A pairing file that is not JSON is handled like a missing one:
    the SyntaxError is caught with the rest, the session ends with exit
    code 1 before anything is written to the device, and what is logged,
    at level 1, is that the pairing information was not found.  This is
    for a file without a backslash and without a digit followed by [.],
    [e] or [E]: on such a text what [JSON_parse] refuses is what
    [JSON.parse] refuses.  An empty file and a file cut short are of this
    kind. *)
Theorem unparsable_pairing_file
  (other : json -> option (list byte)) (cfg : config) (per : peripheral)
  (chars : list string) (text : string) (fuel : nat) (w : world) :
  let address := Advertisement.address (advertisement per) in
  let t := logged cfg 1 MsgConnecting ++ [Connect]
           ++ logged cfg 2 MsgDiscovering ++ [DiscoverAll]
           ++ logged cfg 3 (MsgCharacteristics chars)
           ++ logged cfg 2 (MsgReading (pairingFilename address))
           ++ [ReadFile (pairingFilename address)]
           ++ logged cfg 1 (MsgPairingInfoNotFound address) in
  files w !! pairingFilename address = Some text ->
  plain_json_text text = true ->
  JSON_parse text = None ->
  connectAsync (gatt per) = Resolved tt ->
  discoverAllServicesAndCharacteristicsAsync (gatt per) = Resolved chars ->
  fst (readPairingInfo cfg address w) = Throw SyntaxError
  /\ connect other cfg per false fuel w = (Exit 1, extend w t).
Proof.
  intros address t Hfile _ Hparse Hc Hd. split.
  { rewrite readPairingInfo_result, Hfile, Hparse. reflexivity. }
  unfold connect. rewrite Hc, Hd.
  run_to (option json) authenticate.
  run. fold address.
  erewrite readPairingInfo_found by (rewrite files_extend; exact Hfile).
  rewrite Hparse. unfold throw, exit. run.
  subst t. repeat rewrite <- app_assoc. reflexivity.
Qed.

(** A file cut short after [{"resetCode":[1,2], and an empty file. *)
Lemma unparsable_pairing_file_witness :
  let cut := "{" +:+ quote "resetCode" +:+ ":[1,2" in
  (fst (readPairingInfo Sample.read_once Sample.addr
          (start {[ "pairing-90fd9f123456.json" := cut ]}))
   = Throw SyntaxError
   /\ connect Sample.no_other Sample.read_once
        (Peripheral Sample.adv_normal (Sample.thermostat Sample.packet_80))
        false 1 (start {[ "pairing-90fd9f123456.json" := cut ]})
      = (Exit 1,
         extend (start {[ "pairing-90fd9f123456.json" := cut ]})
           [Connect; DiscoverAll; ReadFile "pairing-90fd9f123456.json"]))
  /\ connect Sample.no_other Sample.read_once
       (Peripheral Sample.adv_normal (Sample.thermostat Sample.packet_80))
       false 1 (start {[ "pairing-90fd9f123456.json" := "" ]})
     = (Exit 1,
        extend (start {[ "pairing-90fd9f123456.json" := "" ]})
          [Connect; DiscoverAll; ReadFile "pairing-90fd9f123456.json"]).
Proof.
  split.
  - exact (unparsable_pairing_file Sample.no_other Sample.read_once
             (Peripheral Sample.adv_normal (Sample.thermostat Sample.packet_80))
             Sample.characteristics ("{" +:+ quote "resetCode" +:+ ":[1,2") 1
             (start {[ "pairing-90fd9f123456.json"
                       := "{" +:+ quote "resetCode" +:+ ":[1,2" ]})
             eq_refl eq_refl eq_refl eq_refl eq_refl).
  - exact (proj2 (unparsable_pairing_file Sample.no_other Sample.read_once
             (Peripheral Sample.adv_normal (Sample.thermostat Sample.packet_80))
             Sample.characteristics "" 1
             (start {[ "pairing-90fd9f123456.json" := "" ]})
             eq_refl eq_refl eq_refl eq_refl eq_refl)).
Defined.
